(** * Iterative Allocation Process (IAP) reference model

    A shallow embedding of [src/harness/reference_models/iap/iap.py]
    (WINNF-TS-0061 reference model, R2-SGN-16) and the properties its
    specification states about it.

    Conventions of the embedding:
    - Python floats are the rationals [Q]; [==] on floats is [Qeq].  Rounding
      is not modelled: every arithmetic statement below is about exact
      arithmetic.
    - a Python [dict] is an association list without repeated keys; the list
      order is the iteration order of [items()].  A new key is put last: one
      of the orders a dictionary may have.  The properties stated for every
      store hold for every order.
    - the two module-level stores [asas_interference] and
      [aggregate_interference] are the two fields of [Globals], threaded
      through every routine by a state-and-exception monad.
    - the [while] loop of [iapPointConstraint] has no iteration cap; its model
      takes a number of sweeps it may perform and answers [OutOfFuel] when
      they are used up.
    - the pool of worker processes of the area drivers runs its tasks one
      after the other in an order the code does not fix: the order is a
      parameter, any permutation of the point list. *)

From Stdlib Require Import List ZArith QArith Qabs Qround Lia Lqa Bool String.
From Stdlib Require Import Permutation.
Import ListNotations.
Local Open Scope Q_scope.

(** ** Python values and exceptions *)

(** [x < y] on floats. *)
Definition Qlt_bool (x y : Q) : bool := negb (Qle_bool y x).

Inductive exn : Type :=
| KeyError
| IndexError
| ZeroDivisionError
| ValueError
| OverflowError.

(** What a call does: it returns, it raises, or it is still running when
    the sweeps granted to the model are used up. *)
Inductive outcome (A : Type) : Type :=
| Ok (a : A)
| Raise (e : exn)
| OutOfFuel.

Arguments Ok {A} a.
Arguments Raise {A} e.
Arguments OutOfFuel {A}.

Definition obind {A B : Type} (o : outcome A) (k : A -> outcome B) : outcome B :=
  match o with
  | Ok a => k a
  | Raise e => Raise e
  | OutOfFuel => OutOfFuel
  end.

(** [for index, x in enumerate(l)] from [index] on, threading [acc]. *)
Fixpoint forEnumerate {A S : Type} (body : S -> nat -> A -> outcome S)
  (index : nat) (l : list A) (acc : S) : outcome S :=
  match l with
  | [] => Ok acc
  | x :: rest => obind (body acc index x) (forEnumerate body (Datatypes.S index) rest)
  end.

(** [for x in l], threading [acc]. *)
Fixpoint forEach {A S : Type} (body : S -> A -> outcome S)
  (l : list A) (acc : S) : outcome S :=
  match l with
  | [] => Ok acc
  | x :: rest => obind (body acc x) (forEach body rest)
  end.

(** ** Python dictionaries keyed by floats

    Kept as lists of pairs, because what [calculateApIapRef] returns depends
    on the order in which it meets the keys.  Keys are compared as floats
    are, by [Qeq_bool]. *)

Section Dict.
Variable V : Type.

Definition dict : Type := list (Q * V).

(** [d[k]], [None] standing for [KeyError]. *)
Fixpoint dict_get (k : Q) (d : dict) : option V :=
  match d with
  | [] => None
  | (k', v) :: rest => if Qeq_bool k k' then Some v else dict_get k rest
  end.

(** [d.has_key(k)] *)
Definition has_key (k : Q) (d : dict) : bool :=
  match dict_get k d with
  | Some _ => true
  | None => false
  end.

(** [d[k] = v]: the value of an existing key is replaced where it stands,
    a new key goes last. *)
Fixpoint dict_set (k : Q) (v : V) (d : dict) : dict :=
  match d with
  | [] => [(k, v)]
  | (k', v') :: rest =>
      if Qeq_bool k k' then (k', v) :: rest else (k', v') :: dict_set k v rest
  end.

(** No key occurs twice: what tells a dictionary from a list of pairs. *)
Fixpoint dict_wf (d : dict) : bool :=
  match d with
  | [] => true
  | (k, _) :: rest => negb (has_key k rest) && dict_wf rest
  end.

End Dict.

Arguments dict_get {V} k d.
Arguments has_key {V} k d.
Arguments dict_set {V} k v d.
Arguments dict_wf {V} d.

(** ** The collaborators in [reference_models.interference] and [reference_models.geo]

    [iap.py] imports them as [interf] and [utils]; their source is not part
    of the files under study.  The data types are written from the uses
    [iap.py] makes of them; the functions and constants are the fields of the
    class [Model], so that every statement about [iap.py] holds for whatever
    the collaborators compute. *)

Module interf.

Inductive ProtectedEntityType : Type :=
| GWPZ_AREA
| PPA_AREA
| FSS_CO_CHANNEL
| FSS_BLOCKING
| ESC.

(** One authorized transmitter.  [iap.py] reads [max_eirp] and
    [is_managed_grant]; position and frequency range are read by the
    collaborators only. *)
Record Grant : Type := {
  grant_latitude : Q;
  grant_longitude : Q;
  grant_low_frequency : Q;
  grant_high_frequency : Q;
  max_eirp : Q;
  is_managed_grant : bool
}.

Record ProtectionConstraint : Type := {
  latitude : Q;
  longitude : Q;
  low_frequency : Q;
  high_frequency : Q;
  entity_type : ProtectedEntityType
}.

Record FssProtectionPoint : Type := {
  fss_latitude : Q;
  fss_longitude : Q;
  height_agl : Q;
  max_gain_dbi : Q;
  pointing_azimuth : Q;
  pointing_elevation : Q
}.

Record EscInformation : Type := {
  antenna_height : Q;
  antenna_azimuth : Q;
  antenna_gain : Q;
  antenna_pattern_gain : list Z
}.

(** Modelled from the spec: the class [AggregateInterferenceOutputFormat]
    (section 3, AggregationStore: a mapping from latitude to a mapping from
    longitude to the ordered sequence of per-channel totals; section 4.2
    step 6: a write appends the value as the next element of the list at the
    point's latitude and longitude). *)
Definition AggregateInterferenceOutputFormat : Type := dict (dict (list Q)).

(** Modelled from the spec: [__init__], the reset to the empty store. *)
Definition init : AggregateInterferenceOutputFormat := [].

(** Modelled from the spec: [SetAggregateInterferenceInfo]. *)
Definition SetAggregateInterferenceInfo (lat lon interference : Q)
  (store : AggregateInterferenceOutputFormat) : AggregateInterferenceOutputFormat :=
  let by_longitude :=
    match dict_get lat store with Some d => d | None => [] end in
  let totals :=
    match dict_get lon by_longitude with Some l => l | None => [] end in
  dict_set lat (dict_set lon (totals ++ [interference]) by_longitude) store.

(** Modelled from the spec: [GetAggregateInterferenceInfo]. *)
Definition GetAggregateInterferenceInfo (store : AggregateInterferenceOutputFormat)
  : dict (dict (list Q)) := store.

(** The functions and constants [iap.py] takes from its collaborators. *)
Class Model : Type := {
  (** a full activity dump, as received from one SAS *)
  FAD : Type;
  (** the [zone] geometry of an area entity *)
  Zone : Type;
  MHZ : Q;
  IAPBW_HZ : Q;
  GWPZ_RBW_HZ : Q;
  PPA_RBW_HZ : Q;
  ESC_CH21_CF_HZ : Q;
  ESC_LOW_FREQ_HZ : Q;
  ESC_HIGH_FREQ_HZ : Q;
  CBRS_LOW_FREQ_HZ : Q;
  CBRS_HIGH_FREQ_HZ : Q;
  FSS_TTC_LOW_FREQ_HZ : Q;
  FSS_TTC_HIGH_FREQ_HZ : Q;
  dbToLinear : Q -> Q;
  linearToDb : Q -> Q;
  getGrantObjectsFromFAD : FAD -> list FAD -> list Grant;
  getProtectedChannels : Q -> Q -> list (Q * Q);
  findGrantsInsideNeighborhood :
    list Grant -> Q * Q -> ProtectedEntityType -> list Grant;
  findOverlappingGrants : list Grant -> ProtectionConstraint -> list Grant;
  computeInterference :
    Grant -> Q -> ProtectionConstraint -> option FssProtectionPoint ->
    option EscInformation -> option string -> Q;
  (** [utils.GridPolygon] *)
  GridPolygon : Zone -> Z -> list (Q * Q)
}.

End interf.

(** ** Module state of [iap.py] *)

Record Globals : Type := {
  asas_interference : interf.AggregateInterferenceOutputFormat;
  aggregate_interference : interf.AggregateInterferenceOutputFormat
}.

(** A routine of [iap.py]: it reads and writes the two stores and returns,
    raises or runs on. *)
Definition M (A : Type) : Type := Globals -> outcome (A * Globals).

Definition ret {A : Type} (a : A) : M A := fun g => Ok (a, g).

Definition bind {A B : Type} (m : M A) (k : A -> M B) : M B :=
  fun g => obind (m g) (fun r => k (fst r) (snd r)).

Definition raise {A : Type} (e : exn) : M A := fun _ => Raise e.

(** [m] and then [k]. *)
Notation "m ;;; k" := (bind m (fun _ => k))
  (at level 61, right associativity).

(** [asas_interference.__init__()] *)
Definition asas_interference_init : M unit :=
  fun g => Ok (tt, {| asas_interference := interf.init;
                      aggregate_interference := aggregate_interference g |}).

(** [aggregate_interference.__init__()] *)
Definition aggregate_interference_init : M unit :=
  fun g => Ok (tt, {| asas_interference := asas_interference g;
                      aggregate_interference := interf.init |}).

(** [asas_interference.SetAggregateInterferenceInfo(lat, lon, value)] *)
Definition asas_interference_Set (lat lon value : Q) : M unit :=
  fun g => Ok (tt, {| asas_interference :=
                        interf.SetAggregateInterferenceInfo lat lon value
                          (asas_interference g);
                      aggregate_interference := aggregate_interference g |}).

(** [aggregate_interference.SetAggregateInterferenceInfo(lat, lon, value)] *)
Definition aggregate_interference_Set (lat lon value : Q) : M unit :=
  fun g => Ok (tt, {| asas_interference := asas_interference g;
                      aggregate_interference :=
                        interf.SetAggregateInterferenceInfo lat lon value
                          (aggregate_interference g) |}).

(** [for x in l: body(x)] over the stores. *)
Fixpoint forM {A : Type} (body : A -> M unit) (l : list A) : M unit :=
  match l with
  | [] => ret tt
  | x :: rest => body x ;;; forM body rest
  end.

(** ** [calculateApIapRef] *)

(** The result [ap_iap_ref]: latitude, longitude, per-channel values. *)
Definition PostIapResult : Type := dict (dict (list Q)).

(** [asas_info[latitude][longitude][index]] *)
Definition lookup3 (info : dict (dict (list Q))) (lat lon : Q) (index : nat)
  : outcome Q :=
  match dict_get lat info with
  | None => Raise KeyError
  | Some by_longitude =>
      match dict_get lon by_longitude with
      | None => Raise KeyError
      | Some l =>
          match nth_error l index with
          | None => Raise IndexError
          | Some v => Ok v
          end
      end
  end.

(** [ap_iap_ref[latitude][longitude] = value] *)
Definition setitem2 (lat lon : Q) (value : list Q) (ap_iap_ref : PostIapResult)
  : outcome PostIapResult :=
  match dict_get lat ap_iap_ref with
  | None => Raise KeyError
  | Some by_longitude =>
      Ok (dict_set lat (dict_set lon value by_longitude) ap_iap_ref)
  end.

(** [ap_iap_ref[latitude][longitude].append(value)] *)
Definition append2 (lat lon value : Q) (ap_iap_ref : PostIapResult)
  : outcome PostIapResult :=
  match dict_get lat ap_iap_ref with
  | None => Raise KeyError
  | Some by_longitude =>
      match dict_get lon by_longitude with
      | None => Raise KeyError
      | Some l =>
          Ok (dict_set lat (dict_set lon (l ++ [value]) by_longitude) ap_iap_ref)
      end
  end.

(** The body of the innermost loop, lines 525-527.  [num_sas] is an [int];
    the quotient is evaluated before the store of this SAS is read. *)
Definition apIapRefIndex (q_p : Q) (num_sas : Z)
  (asas_info : dict (dict (list Q))) (lat lon : Q)
  (ap_iap_ref : PostIapResult) (index : nat) (a_p : Q) : outcome PostIapResult :=
  if (num_sas =? 0)%Z then Raise ZeroDivisionError
  else
    obind (lookup3 asas_info lat lon index) (fun asas_value =>
    append2 lat lon (((q_p - a_p) / inject_Z num_sas) + asas_value) ap_iap_ref).

(** The body of the loop over longitudes, lines 523-527: the entry of the
    latitude is set to a new dictionary at every longitude. *)
Definition apIapRefLongitude (q_p : Q) (num_sas : Z)
  (asas_info : dict (dict (list Q))) (lat : Q)
  (ap_iap_ref : PostIapResult) (item : Q * list Q) : outcome PostIapResult :=
  let '(lon, a_p_list) := item in
  let ap_iap_ref := dict_set lat [] ap_iap_ref in
  obind (setitem2 lat lon [] ap_iap_ref)
        (forEnumerate (apIapRefIndex q_p num_sas asas_info lat lon) 0 a_p_list).

(** The body of the loop over latitudes, lines 521-527. *)
Definition apIapRefLatitude (q_p : Q) (num_sas : Z)
  (asas_info : dict (dict (list Q)))
  (ap_iap_ref : PostIapResult) (item : Q * dict (list Q)) : outcome PostIapResult :=
  let '(lat, a_p_ch) := item in
  forEach (apIapRefLongitude q_p num_sas asas_info lat) a_p_ch ap_iap_ref.

Definition calculateApIapRef (q_p : Q) (num_sas : Z) : M PostIapResult :=
  fun g =>
    let asas_info := interf.GetAggregateInterferenceInfo (asas_interference g) in
    let a_p_info := interf.GetAggregateInterferenceInfo (aggregate_interference g) in
    obind (forEach (apIapRefLatitude q_p num_sas asas_info) a_p_info [])
          (fun ap_iap_ref => Ok (ap_iap_ref, g)).

(** ** [iapPointConstraint] *)

Section Iap.
Context {model : interf.Model}.

(** Lines 119-134: the interference quota of one channel. *)
Definition interferenceQuota (protection_ent_type : interf.ProtectedEntityType)
  (channel : Q * Q) (threshold : Q) : Q :=
  match protection_ent_type with
  | interf.ESC =>
      if Qle_bool 3650e6 (fst channel) then
        let center_freq := (fst channel + snd channel) / 2 in
        interf.dbToLinear
          (interf.linearToDb threshold -
           (2.5 + ((center_freq - interf.ESC_CH21_CF_HZ) / interf.MHZ)))
      else threshold
  | interf.FSS_BLOCKING => threshold
  | _ => threshold
  end.

(** Lines 129-131: blocking protection replaces the channel by the whole
    range of the constraint. *)
Definition constraintChannel (protection_ent_type : interf.ProtectedEntityType)
  (channel : Q * Q) (low_freq high_freq : Q) : Q * Q :=
  match protection_ent_type with
  | interf.FSS_BLOCKING => (low_freq, high_freq)
  | _ => channel
  end.

(** The variables of the convergence loop, lines 150-197. *)
Record Allocation : Type := {
  interference_quota : Q;
  num_unsatisfied_grants : Z;
  fair_share : Q;
  aggr_interference : Q;
  a_sas_p_interference : Q;
  grant_initialize_flag : list bool;
  grants_eirp : list Q
}.

(** Lines 150-164. *)
Definition initialAllocation (interference_quota : Q)
  (neighborhood_grants : list interf.Grant) : Allocation :=
  let num_unsatisfied_grants := Z.of_nat (List.length neighborhood_grants) in
  {| interference_quota := interference_quota;
     num_unsatisfied_grants := num_unsatisfied_grants;
     fair_share := interference_quota / inject_Z num_unsatisfied_grants;
     aggr_interference := 0;
     a_sas_p_interference := 0;
     grant_initialize_flag :=
       repeat false (List.length neighborhood_grants);
     grants_eirp := map interf.max_eirp neighborhood_grants |}.

(** [l[index] = v] for an index in range. *)
Fixpoint list_set {A : Type} (index : nat) (v : A) (l : list A) : list A :=
  match l, index with
  | [], _ => []
  | _ :: rest, O => v :: rest
  | x :: rest, Datatypes.S i => x :: list_set i v rest
  end.

(** The interference (mW) of a grant at a candidate EIRP, line 170. *)
Definition grantInterference (channel_constraint : interf.ProtectionConstraint)
  (fss_info : option interf.FssProtectionPoint)
  (esc_antenna_info : option interf.EscInformation)
  (region_type : option string) (grant : interf.Grant) (eirp : Q) : Q :=
  interf.dbToLinear
    (interf.computeInterference grant eirp channel_constraint fss_info
       esc_antenna_info region_type).

(** The body of the [for] loop, lines 168-197.  No statement of the loop
    writes [grant_initialize_flag]. *)
Definition probeGrant (channel_constraint : interf.ProtectionConstraint)
  (fss_info : option interf.FssProtectionPoint)
  (esc_antenna_info : option interf.EscInformation)
  (region_type : option string)
  (a : Allocation) (index : nat) (grant : interf.Grant) : outcome Allocation :=
  match nth_error (grant_initialize_flag a) index with
  | None => Raise IndexError
  | Some true => Ok a
  | Some false =>
      match nth_error (grants_eirp a) index with
      | None => Raise IndexError
      | Some eirp =>
          let interference :=
            grantInterference channel_constraint fss_info esc_antenna_info
              region_type grant eirp in
          if Qlt_bool interference (fair_share a) then
            let interference_quota := interference_quota a - interference in
            let num_unsatisfied_grants := (num_unsatisfied_grants a - 1)%Z in
            Ok {| interference_quota := interference_quota;
                  num_unsatisfied_grants := num_unsatisfied_grants;
                  fair_share :=
                    if negb (num_unsatisfied_grants =? 0)%Z
                    then interference_quota / inject_Z num_unsatisfied_grants
                    else fair_share a;
                  aggr_interference := aggr_interference a + interference;
                  a_sas_p_interference :=
                    if interf.is_managed_grant grant
                    then a_sas_p_interference a + interference
                    else a_sas_p_interference a;
                  grant_initialize_flag := grant_initialize_flag a;
                  grants_eirp := grants_eirp a |}
          else
            Ok {| interference_quota := interference_quota a;
                  num_unsatisfied_grants := num_unsatisfied_grants a;
                  fair_share := fair_share a;
                  aggr_interference := aggr_interference a;
                  a_sas_p_interference := a_sas_p_interference a;
                  grant_initialize_flag := grant_initialize_flag a;
                  grants_eirp := list_set index (eirp - 1) (grants_eirp a) |}
      end
  end.

(** One pass of the [for] loop of line 167 over all the grants. *)
Definition sweep (channel_constraint : interf.ProtectionConstraint)
  (fss_info : option interf.FssProtectionPoint)
  (esc_antenna_info : option interf.EscInformation)
  (region_type : option string)
  (neighborhood_grants : list interf.Grant) (a : Allocation) : outcome Allocation :=
  forEnumerate (probeGrant channel_constraint fss_info esc_antenna_info region_type)
    0 neighborhood_grants a.

(** The [while] loop of line 166, allowed [fuel] sweeps. *)
Fixpoint convergenceLoop (fuel : nat)
  (channel_constraint : interf.ProtectionConstraint)
  (fss_info : option interf.FssProtectionPoint)
  (esc_antenna_info : option interf.EscInformation)
  (region_type : option string)
  (neighborhood_grants : list interf.Grant) (a : Allocation) : outcome Allocation :=
  if (num_unsatisfied_grants a >? 0)%Z then
    match fuel with
    | O => OutOfFuel
    | Datatypes.S fuel' =>
        obind (sweep channel_constraint fss_info esc_antenna_info region_type
                 neighborhood_grants a)
              (convergenceLoop fuel' channel_constraint fss_info esc_antenna_info
                 region_type neighborhood_grants)
    end
  else Ok a.

(** Lines 128-139: the constraint of a point and a channel. *)
Definition channelConstraint (protection_point : Q * Q) (low_freq high_freq : Q)
  (protection_ent_type : interf.ProtectedEntityType) (channel : Q * Q)
  : interf.ProtectionConstraint :=
  let channel := constraintChannel protection_ent_type channel low_freq high_freq in
  {| interf.latitude := fst protection_point;
     interf.longitude := snd protection_point;
     interf.low_frequency := fst channel;
     interf.high_frequency := snd channel;
     interf.entity_type := protection_ent_type |}.

(** The body of the loop over the channels, lines 117-203. *)
Definition iapChannel (fuel : nat) (protection_point : Q * Q)
  (low_freq high_freq : Q) (grants_inside : list interf.Grant)
  (fss_info : option interf.FssProtectionPoint)
  (esc_antenna_info : option interf.EscInformation)
  (region_type : option string) (threshold : Q)
  (protection_ent_type : interf.ProtectedEntityType) (channel : Q * Q) : M unit :=
  let interference_quota :=
    interferenceQuota protection_ent_type channel threshold in
  let channel_constraint :=
    channelConstraint protection_point low_freq high_freq protection_ent_type
      channel in
  let neighborhood_grants :=
    interf.findOverlappingGrants grants_inside channel_constraint in
  match neighborhood_grants with
  | [] => ret tt
  | _ :: _ =>
      fun g =>
        obind (convergenceLoop fuel channel_constraint fss_info esc_antenna_info
                 region_type neighborhood_grants
                 (initialAllocation interference_quota neighborhood_grants))
          (fun a =>
             (asas_interference_Set (interf.latitude channel_constraint)
                (interf.longitude channel_constraint) (a_sas_p_interference a) ;;;
              aggregate_interference_Set (interf.latitude channel_constraint)
                (interf.longitude channel_constraint) (aggr_interference a)) g)
  end.

Definition iapPointConstraint (fuel : nat) (protection_point : Q * Q)
  (channels : list (Q * Q)) (low_freq high_freq : Q)
  (grant_objects : list interf.Grant)
  (fss_info : option interf.FssProtectionPoint)
  (esc_antenna_info : option interf.EscInformation)
  (region_type : option string) (threshold : Q)
  (protection_ent_type : interf.ProtectedEntityType) : M unit :=
  let grants_inside :=
    interf.findGrantsInsideNeighborhood grant_objects protection_point
      protection_ent_type in
  if (0 <? List.length grants_inside)%nat then
    forM (iapChannel fuel protection_point low_freq high_freq grants_inside
            fss_info esc_antenna_info region_type threshold protection_ent_type)
         channels
  else ret tt.

(** ** The entity drivers *)

(** Table 8.4-2 of WINNF-TS-0061, in dBm/RBW, lines 51-55. *)
Definition Q_PPA_DBM_PER_RBW : Q := -80.
Definition Q_GWPZ_DBM_PER_RBW : Q := -80.
Definition Q_FSS_CO_CHANNEL_DBM_PER_RBW : Q := -129.
Definition Q_FSS_BLOCKING_DBM_PER_RBW : Q := -60.
Definition Q_ESC_DBM_PER_RBW : Q := -109.

(** The pre-IAP margins in dB, lines 58-62. *)
Definition MG_PPA_DB : Q := 1.
Definition MG_GWPZ_DB : Q := 1.
Definition MG_FSS_CO_CHANNEL_DB : Q := 1.
Definition MG_FSS_BLOCKING_DB : Q := 1.
Definition MG_ESC_DB : Q := 1.

(** The parts of the entity records the drivers read. *)
Record FrequencyRange : Type := {
  lowFrequency : Q;
  highFrequency : Q
}.

Record InstallationParam : Type := {
  latitude : Q;
  longitude : Q;
  height : Q;
  antennaAzimuth : Q;
  antennaGain : Q;
  antennaDowntilt : Q;
  (** the [gain] of each entry of the pattern *)
  azimuthRadiationPattern : list Q
}.

Record EscEntity : Type := {
  esc_installationParam : InstallationParam
}.

Record GwpzEntity : Type := {
  gwpz_zone : interf.Zone;
  (** [deploymentParam.operationParam.operationFrequencyRange] *)
  gwpz_operationFrequencyRange : FrequencyRange;
  (** [zone.features]: the [properties.clutter] of each feature *)
  zone_features : list string
}.

Record PpaEntity : Type := {
  ppa_zone : interf.Zone;
  ppaRegionType : string;
  (** [ppaInfo.palId] *)
  ppa_palId : list string
}.

Record PalRecord : Type := {
  palId : string;
  (** [channelAssignment.primaryAssignment] *)
  primaryAssignment : FrequencyRange
}.

Record DeploymentParam : Type := {
  installationParam : InstallationParam;
  (** [operationParam.operationFrequencyRange] *)
  operationFrequencyRange : FrequencyRange
}.

Record FssEntity : Type := {
  ttc : bool;
  (** [record.deploymentParam] *)
  deploymentParam : list DeploymentParam
}.

(** The bounds of the 64-bit integers of a numpy array. *)
Definition INT64_MIN : Z := - 2 ^ 63.
Definition INT64_MAX : Z := 2 ^ 63 - 1.

(** A number without its fraction: the rounding towards 0 of a conversion
    to an integer. *)
Definition truncate (x : Q) : Z :=
  if Qle_bool 0 x then Qfloor x else Qceiling x.

(** The number fits a 64-bit integer once its fraction is dropped. *)
Definition in_int64 (x : Q) : bool :=
  ((INT64_MIN <=? truncate x) && (truncate x <=? INT64_MAX))%Z.

(** [array[i] = x] for an integer array of numpy: the number loses its
    fraction, and one outside the 64-bit integers is refused. *)
Definition int_of_float (x : Q) : outcome Z :=
  if in_int64 x then Ok (truncate x) else Raise OverflowError.

(** [np.arange(n)] *)
Definition arange (n : nat) : list Z := map Z.of_nat (seq 0 n).

(** Lines 235-237: the gains of the pattern stored one by one into an
    integer array of the length of the pattern. *)
Definition antPatternGain (ant_pattern : list Q) : outcome (list Z) :=
  forEnumerate
    (fun ant_pattern_gain i gain =>
       obind (int_of_float gain) (fun z => Ok (list_set i z ant_pattern_gain)))
    0 ant_pattern (arange (List.length ant_pattern)).

(** A computation that does not touch the stores. *)
Definition lift {A : Type} (o : outcome A) : M A :=
  fun g => obind o (fun a => Ok (a, g)).

(** The order in which the workers of a pool write the stores:
    [pool.map(iapPoint, protection_points)] hands each point to a worker
    process, and the code does not fix which worker ends first.  The runs of
    the points are taken one after the other in [completionOrder]. *)
Class Workers : Type := {
  completionOrder : list (Q * Q) -> list (Q * Q);
  completionOrder_perm :
    forall points, Permutation (completionOrder points) points
}.

(** [Pool(processes=min(multiprocessing.cpu_count(), len(points)))]: a pool
    of no process is refused. *)
Definition Pool (points : list (Q * Q)) : M unit :=
  match points with
  | [] => raise ValueError
  | _ :: _ => ret tt
  end.

(** [pool.map(task, points)] *)
Definition pool_map {workers : Workers} (task : Q * Q -> M unit)
  (points : list (Q * Q)) : M unit :=
  forM task (completionOrder points).

Context {workers : Workers}.

(** Lines 218-220. *)
Definition iap_threshold_esc : Q :=
  Q_ESC_DBM_PER_RBW + interf.linearToDb (interf.IAPBW_HZ / interf.MHZ).
Definition iap_margin_esc : Q := interf.dbToLinear (iap_threshold_esc - MG_ESC_DB).

Definition performIapForEsc (fuel : nat) (protected_entity : EscEntity)
  (sas_uut_fad_object : interf.FAD) (sas_th_fad_objects : list interf.FAD)
  : M PostIapResult :=
  let grant_objects :=
    interf.getGrantObjectsFromFAD sas_uut_fad_object sas_th_fad_objects in
  let num_sas := (Z.of_nat (List.length sas_th_fad_objects) + 1)%Z in
  let esc_point := esc_installationParam protected_entity in
  let protection_point := (latitude esc_point, longitude esc_point) in
  let ant_pattern := azimuthRadiationPattern esc_point in
  bind (lift (antPatternGain ant_pattern)) (fun ant_pattern_gain =>
  let esc_antenna_info :=
    {| interf.antenna_height := height esc_point;
       interf.antenna_azimuth := antennaAzimuth esc_point;
       interf.antenna_gain := antennaGain esc_point;
       interf.antenna_pattern_gain := ant_pattern_gain |} in
  let protection_channels :=
    interf.getProtectedChannels interf.ESC_LOW_FREQ_HZ interf.ESC_HIGH_FREQ_HZ in
  asas_interference_init ;;;
  aggregate_interference_init ;;;
  iapPointConstraint fuel protection_point protection_channels
    interf.ESC_LOW_FREQ_HZ interf.ESC_HIGH_FREQ_HZ grant_objects
    None (Some esc_antenna_info) None iap_margin_esc interf.ESC ;;;
  calculateApIapRef iap_margin_esc num_sas).

(** Lines 273-275. *)
Definition iap_threshold_gwpz : Q :=
  Q_GWPZ_DBM_PER_RBW + interf.linearToDb (interf.IAPBW_HZ / interf.GWPZ_RBW_HZ).
Definition iap_margin_gwpz : Q := interf.dbToLinear (iap_threshold_gwpz - MG_GWPZ_DB).

Definition performIapForGwpz (fuel : nat) (protected_entity : GwpzEntity)
  (sas_uut_fad_object : interf.FAD) (sas_th_fad_objects : list interf.FAD)
  : M PostIapResult :=
  let grant_objects :=
    interf.getGrantObjectsFromFAD sas_uut_fad_object sas_th_fad_objects in
  let num_sas := (Z.of_nat (List.length sas_th_fad_objects) + 1)%Z in
  let protection_points := interf.GridPolygon (gwpz_zone protected_entity) 2 in
  let gwpz_freq_range := gwpz_operationFrequencyRange protected_entity in
  let gwpz_low_freq := lowFrequency gwpz_freq_range in
  let gwpz_high_freq := highFrequency gwpz_freq_range in
  match zone_features protected_entity with
  | [] => raise IndexError
  | gwpz_region :: _ =>
      let protection_channels :=
        interf.getProtectedChannels gwpz_low_freq gwpz_high_freq in
      asas_interference_init ;;;
      aggregate_interference_init ;;;
      Pool protection_points ;;;
      pool_map (fun point =>
                  iapPointConstraint fuel point protection_channels
                    gwpz_low_freq gwpz_high_freq grant_objects None None
                    (Some gwpz_region) iap_margin_gwpz interf.GWPZ_AREA)
               protection_points ;;;
      calculateApIapRef iap_threshold_gwpz num_sas
  end.

(** Lines 332-334. *)
Definition iap_threshold_ppa : Q :=
  Q_PPA_DBM_PER_RBW + interf.linearToDb (interf.IAPBW_HZ / interf.PPA_RBW_HZ).
Definition iap_margin_ppa : Q := interf.dbToLinear (iap_threshold_ppa - MG_PPA_DB).

(** The loop over the PAL records, lines 352-382: the first record whose
    identifier is [ppa_pal_ids[0]] is processed, and the loop is left. *)
Fixpoint ppaPalRecords (fuel : nat) (protection_points : list (Q * Q))
  (ppa_region : string) (ppa_pal_ids : list string)
  (grant_objects : list interf.Grant) (pal_records : list PalRecord) : M unit :=
  match pal_records with
  | [] => ret tt
  | pal_record :: rest =>
      match ppa_pal_ids with
      | [] => raise IndexError
      | first_pal_id :: _ =>
          if String.eqb (palId pal_record) first_pal_id then
            let ppa_freq_range := primaryAssignment pal_record in
            let ppa_low_freq := lowFrequency ppa_freq_range in
            let ppa_high_freq := highFrequency ppa_freq_range in
            let protection_channels :=
              interf.getProtectedChannels ppa_low_freq ppa_high_freq in
            asas_interference_init ;;;
            aggregate_interference_init ;;;
            Pool protection_points ;;;
            pool_map (fun point =>
                        iapPointConstraint fuel point protection_channels
                          ppa_low_freq ppa_high_freq grant_objects None None
                          (Some ppa_region) iap_margin_ppa interf.PPA_AREA)
                     protection_points
          else
            ppaPalRecords fuel protection_points ppa_region ppa_pal_ids
              grant_objects rest
      end
  end.

Definition performIapForPpa (fuel : nat) (protected_entity : PpaEntity)
  (sas_uut_fad_object : interf.FAD) (sas_th_fad_objects : list interf.FAD)
  (pal_records : list PalRecord) : M PostIapResult :=
  let grant_objects :=
    interf.getGrantObjectsFromFAD sas_uut_fad_object sas_th_fad_objects in
  let num_sas := (Z.of_nat (List.length sas_th_fad_objects) + 1)%Z in
  let protection_points := interf.GridPolygon (ppa_zone protected_entity) 2 in
  let ppa_region := ppaRegionType protected_entity in
  let ppa_pal_ids := ppa_palId protected_entity in
  ppaPalRecords fuel protection_points ppa_region ppa_pal_ids grant_objects
    pal_records ;;;
  calculateApIapRef iap_threshold_ppa num_sas.

(** Lines 397-400. *)
Definition iap_threshold_fss_cochannel : Q :=
  Q_FSS_CO_CHANNEL_DBM_PER_RBW + interf.linearToDb (interf.IAPBW_HZ / interf.MHZ).
Definition iap_margin_fss_cochannel : Q :=
  interf.dbToLinear (iap_threshold_fss_cochannel - MG_FSS_CO_CHANNEL_DB).

(** [FssProtectionPoint(...)] of lines 417-422 and 474-479. *)
Definition fssProtectionPoint (fss_point : InstallationParam)
  : interf.FssProtectionPoint :=
  {| interf.fss_latitude := latitude fss_point;
     interf.fss_longitude := longitude fss_point;
     interf.height_agl := height fss_point;
     interf.max_gain_dbi := antennaGain fss_point;
     interf.pointing_azimuth := antennaAzimuth fss_point;
     interf.pointing_elevation := antennaDowntilt fss_point |}.

Definition performIapForFssCochannel (fuel : nat) (protected_entity : FssEntity)
  (sas_uut_fad_object : interf.FAD) (sas_th_fad_objects : list interf.FAD)
  : M PostIapResult :=
  let grant_objects :=
    interf.getGrantObjectsFromFAD sas_uut_fad_object sas_th_fad_objects in
  let num_sas := (Z.of_nat (List.length sas_th_fad_objects) + 1)%Z in
  match deploymentParam protected_entity with
  | [] => raise IndexError
  | deployment :: _ =>
      let fss_point := installationParam deployment in
      let protection_point := (latitude fss_point, longitude fss_point) in
      let fss_freq_range := operationFrequencyRange deployment in
      let fss_low_freq := lowFrequency fss_freq_range in
      let fss_info := fssProtectionPoint fss_point in
      let protection_channels :=
        interf.getProtectedChannels fss_low_freq interf.CBRS_HIGH_FREQ_HZ in
      asas_interference_init ;;;
      aggregate_interference_init ;;;
      iapPointConstraint fuel protection_point protection_channels fss_low_freq
        interf.CBRS_HIGH_FREQ_HZ grant_objects (Some fss_info) None None
        iap_margin_fss_cochannel interf.FSS_CO_CHANNEL ;;;
      calculateApIapRef iap_margin_fss_cochannel num_sas
  end.

(** Lines 451-453. *)
Definition iap_threshold_fss_blocking : Q := Q_FSS_BLOCKING_DBM_PER_RBW.
Definition iap_margin_fss_blocking : Q :=
  interf.dbToLinear (iap_threshold_fss_blocking - MG_FSS_BLOCKING_DB).

(** The test of lines 482-484. *)
Definition fssBlockingExempt (fss_low_freq fss_high_freq : Q) (fss_ttc_flag : bool)
  : bool :=
  Qle_bool interf.FSS_TTC_LOW_FREQ_HZ fss_low_freq &&
  Qle_bool fss_high_freq interf.FSS_TTC_HIGH_FREQ_HZ &&
  negb fss_ttc_flag.

Definition performIapForFssBlocking (fuel : nat) (protected_entity : FssEntity)
  (sas_uut_fad_object : interf.FAD) (sas_th_fad_objects : list interf.FAD)
  : M PostIapResult :=
  let grant_objects :=
    interf.getGrantObjectsFromFAD sas_uut_fad_object sas_th_fad_objects in
  let num_sas := (Z.of_nat (List.length sas_th_fad_objects) + 1)%Z in
  let fss_ttc_flag := ttc protected_entity in
  match deploymentParam protected_entity with
  | [] => raise IndexError
  | deployment :: _ =>
      let fss_point := installationParam deployment in
      let protection_point := (latitude fss_point, longitude fss_point) in
      let fss_freq_range := operationFrequencyRange deployment in
      let fss_low_freq := lowFrequency fss_freq_range in
      let fss_high_freq := highFrequency fss_freq_range in
      let fss_info := fssProtectionPoint fss_point in
      (if fssBlockingExempt fss_low_freq fss_high_freq fss_ttc_flag then
         ret tt
       else
         asas_interference_init ;;;
         aggregate_interference_init ;;;
         let protection_channels := [(interf.CBRS_LOW_FREQ_HZ, fss_low_freq)] in
         iapPointConstraint fuel protection_point protection_channels
           interf.CBRS_LOW_FREQ_HZ fss_low_freq grant_objects (Some fss_info)
           None None iap_margin_fss_blocking interf.FSS_BLOCKING) ;;;
      calculateApIapRef iap_margin_fss_blocking num_sas
  end.

End Iap.

(** ** Reading the stores and the result *)

(** [info[lat][lon]], [None] when a key is missing. *)
Definition get2 (info : dict (dict (list Q))) (lat lon : Q) : option (list Q) :=
  match dict_get lat info with
  | None => None
  | Some by_longitude => dict_get lon by_longitude
  end.

(** A point is a key of the nested dictionary. *)
Definition has_key2 (info : dict (dict (list Q))) (lat lon : Q) : bool :=
  match get2 info lat lon with
  | Some _ => true
  | None => false
  end.

(** Both levels of a nested dictionary are dictionaries. *)
Definition store_wf (info : dict (dict (list Q))) : bool :=
  dict_wf info && forallb (fun item => dict_wf (snd item)) info.

(** A dictionary with [f] applied to its values. *)
Definition dict_map {A B : Type} (f : A -> B) (d : dict A) : dict B :=
  map (fun item => (fst item, f (snd item))) d.

(** The keys of a store in their order, each point with the number of
    per-channel totals it holds. *)
Definition store_shape (info : dict (dict (list Q))) : dict (dict nat) :=
  dict_map (dict_map (@List.length Q)) info.

(** The shape of a store after a write at a point. *)
Definition shape_append (lat lon : Q) (shape : dict (dict nat)) : dict (dict nat) :=
  let by_longitude :=
    match dict_get lat shape with Some d => d | None => [] end in
  let n :=
    match dict_get lon by_longitude with Some n => n | None => O end in
  dict_set lat (dict_set lon (Datatypes.S n) by_longitude) shape.

(** The two stores hold the same points in the same order, with as many
    totals at each. *)
Definition aligned (g : Globals) : Prop :=
  store_shape (asas_interference g) = store_shape (aggregate_interference g).

(** The stores after [asas_interference.__init__()] and
    [aggregate_interference.__init__()]. *)
Definition resetStores : M unit :=
  asas_interference_init ;;; aggregate_interference_init.

(** What the loop over the indices of one point computes: one value per
    index of [a_p_list], each from the totals of the two stores. *)
Definition channelValues (q_p : Q) (num_sas : Z) (asas_info : dict (dict (list Q)))
  (lat lon : Q) (a_p_list vals : list Q) : Prop :=
  List.length vals = List.length a_p_list /\
  forall index a_p, nth_error a_p_list index = Some a_p ->
    exists asas_value,
      lookup3 asas_info lat lon index = Ok asas_value /\
      nth_error vals index = Some (((q_p - a_p) / inject_Z num_sas) + asas_value).

(** The arguments of one call of [iapPointConstraint]. *)
Record Invocation : Type := {
  inv_protection_point : Q * Q;
  inv_channels : list (Q * Q);
  inv_low_freq : Q;
  inv_high_freq : Q;
  inv_grant_objects : list interf.Grant;
  inv_fss_info : option interf.FssProtectionPoint;
  inv_esc_antenna_info : option interf.EscInformation;
  inv_region_type : option string;
  inv_threshold : Q;
  inv_protection_ent_type : interf.ProtectedEntityType
}.

Definition invoke {model : interf.Model} (fuel : nat) (i : Invocation) : M unit :=
  iapPointConstraint fuel (inv_protection_point i) (inv_channels i)
    (inv_low_freq i) (inv_high_freq i) (inv_grant_objects i) (inv_fss_info i)
    (inv_esc_antenna_info i) (inv_region_type i) (inv_threshold i)
    (inv_protection_ent_type i).

(** ** The convergence loop, as its proofs follow it *)

(** The candidate EIRPs [eirps] are the maximum EIRPs of [grants], each
    lowered by a whole number of 1 dB steps. *)
Definition loweredBy (grants : list interf.Grant) (steps : list nat)
  (eirps : list Q) : Prop :=
  List.length steps = List.length grants /\
  List.length eirps = List.length grants /\
  forall index grant n,
    nth_error grants index = Some grant ->
    nth_error steps index = Some n ->
    exists eirp,
      nth_error eirps index = Some eirp /\
      eirp == interf.max_eirp grant - inject_Z (Z.of_nat n).

(** The flags are as line 161 has set them, and the EIRPs are the maxima
    lowered by [steps]. *)
Definition tracking (grants : list interf.Grant) (steps : list nat)
  (a : Allocation) : Prop :=
  grant_initialize_flag a = repeat false (List.length grants) /\
  loweredBy grants steps (grants_eirp a).

(** While grants are unsatisfied: the quota left is positive, the fair
    share is the quota over the number of unsatisfied grants, and it is at
    least the first fair share [share]. *)
Definition sharing (share : Q) (a : Allocation) : Prop :=
  0 < interference_quota a /\
  fair_share a * inject_Z (num_unsatisfied_grants a) == interference_quota a /\
  share <= fair_share a.

(** The steps that remain, grant by grant, before the bounds [bounds] on
    the number of steps are reached. *)
Fixpoint slack (bounds steps : list nat) : nat :=
  match bounds, steps with
  | bound :: bounds', n :: steps' => (bound - n) + slack bounds' steps'
  | _, _ => O
  end.

(** What is left to do before the loop ends. *)
Definition measure (bounds steps : list nat) (a : Allocation) : nat :=
  Z.to_nat (num_unsatisfied_grants a) + slack bounds steps.

(** The total [aggr_interference] is what the quota has lost. *)
Definition conserved (quota : Q) (a : Allocation) : Prop :=
  aggr_interference a == quota - interference_quota a.

(** Modelled from the spec: the shape of the channels that
    [getProtectedChannels] gives a sensor run (section 3, Channel: one 5 MHz
    segment; the passband of line 245 starts at 3550 MHz): the channel is
    one of the 5 MHz segments counted from 3550 MHz. *)
Definition onRaster (channel : Q * Q) : Prop :=
  exists k : nat,
    fst channel == 3550e6 + inject_Z (Z.of_nat k) * 5e6 /\
    snd channel == fst channel + 5e6.

(** ** The two ways a probe of a grant ends *)

(** The allocation after a grant has been found to fit its fair share,
    lines 177-194. *)
Definition satisfied (a : Allocation) (grant : interf.Grant) (interference : Q)
  : Allocation :=
  let interference_quota := interference_quota a - interference in
  let num_unsatisfied_grants := (num_unsatisfied_grants a - 1)%Z in
  {| interference_quota := interference_quota;
     num_unsatisfied_grants := num_unsatisfied_grants;
     fair_share :=
       if negb (num_unsatisfied_grants =? 0)%Z
       then interference_quota / inject_Z num_unsatisfied_grants
       else fair_share a;
     aggr_interference := aggr_interference a + interference;
     a_sas_p_interference :=
       if interf.is_managed_grant grant
       then a_sas_p_interference a + interference
       else a_sas_p_interference a;
     grant_initialize_flag := grant_initialize_flag a;
     grants_eirp := grants_eirp a |}.

(** The allocation after the EIRP of the grant at [index] has been lowered
    by 1 dB, line 197. *)
Definition lowered (a : Allocation) (index : nat) (eirp : Q) : Allocation :=
  {| interference_quota := interference_quota a;
     num_unsatisfied_grants := num_unsatisfied_grants a;
     fair_share := fair_share a;
     aggr_interference := aggr_interference a;
     a_sas_p_interference := a_sas_p_interference a;
     grant_initialize_flag := grant_initialize_flag a;
     grants_eirp := list_set index (eirp - 1) (grants_eirp a) |}.

(** The interference counted for this SAS: that of its own grants. *)
Definition managedShare (grant : interf.Grant) (interference : Q) : Q :=
  if interf.is_managed_grant grant then interference else 0.

(** The sum of a list of powers. *)
Definition sumQ (l : list Q) : Q := fold_right Qplus 0 l.

(** ** What a call of [iapPointConstraint] writes *)

(** The point [(lat, lon)] is [point], as floats compare. *)
Definition atPoint (point : Q * Q) (lat lon : Q) : bool :=
  Qeq_bool lat (fst point) && Qeq_bool lon (snd point).

(** The list of a point after the values [added] have been appended one by
    one; a point that is not a key stays so when nothing is appended. *)
Definition extended (old : option (list Q)) (added : list Q) : option (list Q) :=
  match added with
  | [] => old
  | _ :: _ => Some (match old with Some l => l | None => [] end ++ added)
  end.

(** [new] is [old] with [added] appended at [point], every other point as
    it was. *)
Definition appendedAt (point : Q * Q) (added : list Q)
  (old new : dict (dict (list Q))) : Prop :=
  forall lat lon,
    get2 new lat lon =
    if atPoint point lat lon then extended (get2 old lat lon) added
    else get2 old lat lon.

(** The store after the values [values] have been written at [point] one
    after the other. *)
Definition writeAll (point : Q * Q) (values : list Q)
  (store : interf.AggregateInterferenceOutputFormat)
  : interf.AggregateInterferenceOutputFormat :=
  fold_left
    (fun store value =>
       interf.SetAggregateInterferenceInfo (fst point) (snd point) value store)
    values store.

(** The map that holds [values] at [point] and nothing else; no point at
    all when there is no value. *)
Definition pointMap (point : Q * Q) (values : list Q) : dict (dict (list Q)) :=
  match values with
  | [] => []
  | _ :: _ => [(fst point, [(snd point, values)])]
  end.

(** The value of line 526 for the two totals of a point and a channel. *)
Definition allowedInterference (q_p : Q) (num_sas : Z) (totals : Q * Q) : Q :=
  ((q_p - snd totals) / inject_Z num_sas) + fst totals.

Section Written.
Context {model : interf.Model}.

(** The grants of the neighbourhood that overlap a channel, lines 143-144. *)
Definition neighborhoodGrants (protection_point : Q * Q) (low_freq high_freq : Q)
  (grants_inside : list interf.Grant)
  (protection_ent_type : interf.ProtectedEntityType) (channel : Q * Q)
  : list interf.Grant :=
  interf.findOverlappingGrants grants_inside
    (channelConstraint protection_point low_freq high_freq protection_ent_type
       channel).

(** The channels for which a call writes a total: all those that a grant
    of the neighbourhood overlaps, lines 114 and 147. *)
Definition writtenChannels (protection_point : Q * Q) (channels : list (Q * Q))
  (low_freq high_freq : Q) (grant_objects : list interf.Grant)
  (protection_ent_type : interf.ProtectedEntityType) : list (Q * Q) :=
  let grants_inside :=
    interf.findGrantsInsideNeighborhood grant_objects protection_point
      protection_ent_type in
  if (0 <? List.length grants_inside)%nat then
    filter (fun channel =>
              match neighborhoodGrants protection_point low_freq high_freq
                      grants_inside protection_ent_type channel with
              | [] => false
              | _ :: _ => true
              end) channels
  else [].

(** [totals] are the two totals the convergence loop of a channel ends
    with: that of this SAS and that of all the SASs. *)
Definition channelTotals (fuel : nat) (protection_point : Q * Q)
  (low_freq high_freq : Q) (grant_objects : list interf.Grant)
  (fss_info : option interf.FssProtectionPoint)
  (esc_antenna_info : option interf.EscInformation)
  (region_type : option string) (threshold : Q)
  (protection_ent_type : interf.ProtectedEntityType)
  (channel : Q * Q) (totals : Q * Q) : Prop :=
  let grants_inside :=
    interf.findGrantsInsideNeighborhood grant_objects protection_point
      protection_ent_type in
  let neighborhood_grants :=
    neighborhoodGrants protection_point low_freq high_freq grants_inside
      protection_ent_type channel in
  exists a,
    convergenceLoop fuel
      (channelConstraint protection_point low_freq high_freq protection_ent_type
         channel)
      fss_info esc_antenna_info region_type neighborhood_grants
      (initialAllocation
         (interferenceQuota protection_ent_type channel threshold)
         neighborhood_grants) = Ok a /\
    totals = (a_sas_p_interference a, aggr_interference a).

End Written.

(** The two stores hold the same points, with lists of the same length,
    and [R] relates the total of this SAS to the total of all the SASs at
    every point and index. *)
Definition related (R : Q -> Q -> Prop) (g : Globals) : Prop :=
  forall lat lon,
    match get2 (asas_interference g) lat lon,
          get2 (aggregate_interference g) lat lon with
    | Some asas_list, Some a_p_list => Forall2 R asas_list a_p_list
    | None, None => True
    | _, _ => False
    end.

(** ** What the drivers hand to [iapPointConstraint] *)

(** [EscInformation(...)] of lines 240-243, for a pattern whose gains all
    fit the integer array. *)
Definition escInformation (esc_point : InstallationParam) : interf.EscInformation :=
  {| interf.antenna_height := height esc_point;
     interf.antenna_azimuth := antennaAzimuth esc_point;
     interf.antenna_gain := antennaGain esc_point;
     interf.antenna_pattern_gain :=
       map truncate (azimuthRadiationPattern esc_point) |}.

(** The point of an installation, lines 229, 409 and 465. *)
Definition installationPoint (installation : InstallationParam) : Q * Q :=
  (latitude installation, longitude installation).

(** Every point of [info] is one of [points], as floats compare. *)
Definition keysAmong (points : list (Q * Q)) (info : dict (dict (list Q))) : Prop :=
  forall lat lon,
    has_key2 info lat lon = true ->
    exists point, In point points /\ atPoint point lat lon = true.

(** ** A test double of the collaborators

    Used to run the routines on concrete inputs.  Decibels and milliwatts are
    related by a pair of inverse, strictly increasing rational functions
    (0 dB is 1 mW, the linear value tends to 0 as the level decreases); the
    path loss is 100 dB per degree of distance; a dump is its list of grants
    and a zone is the list of its grid points. *)

Definition test_dbToLinear (x : Q) : Q :=
  if Qle_bool x 0 then / (1 - x) else 1 + x.

Definition test_linearToDb (y : Q) : Q :=
  if Qle_bool 1 y then y - 1 else 1 - / y.

Definition test_distance (g : interf.Grant) (lat lon : Q) : Q :=
  Qabs (interf.grant_latitude g - lat) + Qabs (interf.grant_longitude g - lon).

Definition test_getProtectedChannels (low high : Q) : list (Q * Q) :=
  let low := if Qle_bool 3550e6 low then low else 3550e6 in
  let high := if Qle_bool high 3700e6 then high else 3700e6 in
  let n := Z.to_nat (Qceiling ((high - low) / 5e6)) in
  map (fun k => let start := low + 5e6 * inject_Z (Z.of_nat k) in
                (Qred start, Qred (start + 5e6)))
      (seq 0 n).

Definition test_model : interf.Model :=
  {| interf.FAD := list interf.Grant;
     interf.Zone := list (Q * Q);
     interf.MHZ := 1e6;
     interf.IAPBW_HZ := 5e6;
     interf.GWPZ_RBW_HZ := 10e6;
     interf.PPA_RBW_HZ := 10e6;
     interf.ESC_CH21_CF_HZ := 3652.5e6;
     interf.ESC_LOW_FREQ_HZ := 3550e6;
     interf.ESC_HIGH_FREQ_HZ := 3680e6;
     interf.CBRS_LOW_FREQ_HZ := 3550e6;
     interf.CBRS_HIGH_FREQ_HZ := 3700e6;
     interf.FSS_TTC_LOW_FREQ_HZ := 3700e6;
     interf.FSS_TTC_HIGH_FREQ_HZ := 4200e6;
     interf.dbToLinear := test_dbToLinear;
     interf.linearToDb := test_linearToDb;
     interf.getGrantObjectsFromFAD := fun uut ths => uut ++ List.concat ths;
     interf.getProtectedChannels := test_getProtectedChannels;
     interf.findGrantsInsideNeighborhood :=
       fun grants point _ =>
         filter (fun g => Qle_bool (test_distance g (fst point) (snd point)) 1) grants;
     interf.findOverlappingGrants :=
       fun grants c =>
         filter (fun g =>
                   Qlt_bool (interf.grant_low_frequency g) (interf.high_frequency c) &&
                   Qlt_bool (interf.low_frequency c) (interf.grant_high_frequency g))
                grants;
     interf.computeInterference :=
       fun g eirp c _ _ _ =>
         eirp - 100 * test_distance g (interf.latitude c) (interf.longitude c);
     interf.GridPolygon := fun zone _ => zone |}.

(** Workers that end in the order of the points. *)
#[export] Instance list_order : Workers :=
  {| completionOrder := fun points => points;
     completionOrder_perm := fun points => Permutation_refl points |}.

(** A grant at the point (0, 0) on 3600-3610 MHz. *)
Definition test_grant (max_eirp : Q) (managed : bool) : interf.Grant :=
  {| interf.grant_latitude := 0;
     interf.grant_longitude := 0;
     interf.grant_low_frequency := 3600e6;
     interf.grant_high_frequency := 3610e6;
     interf.max_eirp := max_eirp;
     interf.is_managed_grant := managed |}.

(** The two grants of the double-counting run: 4 mW at 3 dBm, and 6.5 mW
    at 5.5 dBm, 5.5 mW one step lower. *)
Definition test_two_grants : list interf.Grant :=
  [test_grant 3 true; test_grant (11 # 2) false].

(** The constraint of the point (0, 0) and the channel 3600-3605 MHz. *)
Definition test_constraint (t : interf.ProtectedEntityType) : interf.ProtectionConstraint :=
  {| interf.latitude := 0;
     interf.longitude := 0;
     interf.low_frequency := 3600e6;
     interf.high_frequency := 3605e6;
     interf.entity_type := t |}.

Definition test_empty_stores : Globals :=
  {| asas_interference := []; aggregate_interference := [] |}.

(** Stores left by an earlier driver run: one point, one channel, a total
    of 60 mW of which 10 mW are of this SAS. *)
Definition test_used_stores : Globals :=
  {| asas_interference := [(1, [(2, [10])])];
     aggregate_interference := [(1, [(2, [60])])] |}.

(** Stores of two points of the same latitude. *)
Definition test_row_stores : Globals :=
  {| asas_interference := [(1, [(2, [10]); (3, [10])])];
     aggregate_interference := [(1, [(2, [60]); (3, [60])])] |}.

(** Two calls for the test double: the point (0, 0) with a grant on
    3600-3610 MHz over three channels, and a point no grant is near. *)
Definition test_invocations : list Invocation :=
  [ {| inv_protection_point := (0, 0);
       inv_channels := [(3595e6, 3600e6); (3600e6, 3605e6); (3605e6, 3610e6)];
       inv_low_freq := 3595e6;
       inv_high_freq := 3610e6;
       inv_grant_objects := [test_grant 3 true; test_grant (11 # 2) false];
       inv_fss_info := None;
       inv_esc_antenna_info := None;
       inv_region_type := None;
       inv_threshold := 10;
       inv_protection_ent_type := interf.GWPZ_AREA |};
    {| inv_protection_point := (5, 5);
       inv_channels := [(3600e6, 3605e6)];
       inv_low_freq := 3600e6;
       inv_high_freq := 3605e6;
       inv_grant_objects := [test_grant 3 true; test_grant (11 # 2) false];
       inv_fss_info := None;
       inv_esc_antenna_info := None;
       inv_region_type := None;
       inv_threshold := 10;
       inv_protection_ent_type := interf.GWPZ_AREA |} ].

(** The stores the calls of [test_invocations] leave after a reset. *)
Definition test_final_stores : Globals :=
  {| asas_interference := [(0, [(0, [8; 8])])];
     aggregate_interference := [(0, [(0, [27 # 2; 27 # 2])])] |}.

(** Entities for the test double. *)
Definition test_installation : InstallationParam :=
  {| latitude := 0;
     longitude := 0;
     height := 10;
     antennaAzimuth := 0;
     antennaGain := 0;
     antennaDowntilt := 0;
     azimuthRadiationPattern := [] |}.

(** A sensor at the point (0, 0) whose pattern holds three gains. *)
Definition test_esc : EscEntity :=
  {| esc_installationParam :=
       {| latitude := 0;
          longitude := 0;
          height := 10;
          antennaAzimuth := 0;
          antennaGain := 0;
          antennaDowntilt := 0;
          azimuthRadiationPattern := [37 # 10; - (5 # 2); 40] |} |}.

(** A sensor whose pattern holds a gain of 1e30. *)
Definition test_esc_overflow : EscEntity :=
  {| esc_installationParam :=
       {| latitude := 0;
          longitude := 0;
          height := 10;
          antennaAzimuth := 0;
          antennaGain := 0;
          antennaDowntilt := 0;
          azimuthRadiationPattern := [37 # 10; 1e30] |} |}.

(** A blocking entity on 3700-4200 MHz whose TT&C flag is false. *)
Definition test_fss_exempt : FssEntity :=
  {| ttc := false;
     deploymentParam :=
       [ {| installationParam := test_installation;
            operationFrequencyRange :=
              {| lowFrequency := 3700e6; highFrequency := 4200e6 |} |} ] |}.

(** A GWPZ of one grid point on 3600-3605 MHz. *)
Definition test_gwpz : GwpzEntity (model := test_model) :=
  {| gwpz_zone := ([(0, 0)] : interf.Zone (Model := test_model));
     gwpz_operationFrequencyRange :=
       {| lowFrequency := 3600e6; highFrequency := 3605e6 |};
     zone_features := ["RURAL"%string] |}.

(** A PPA whose PAL identifier is that of no record of [test_pal_records]. *)
Definition test_ppa : PpaEntity (model := test_model) :=
  {| ppa_zone := ([(0, 0)] : interf.Zone (Model := test_model));
     ppaRegionType := "URBAN"%string;
     ppa_palId := ["pal/1"%string] |}.

(** A PPA of one grid point with its PAL record. *)
Definition test_ppa_matched : PpaEntity (model := test_model) :=
  {| ppa_zone := ([(0, 0)] : interf.Zone (Model := test_model));
     ppaRegionType := "URBAN"%string;
     ppa_palId := ["pal/2"%string] |}.

Definition test_pal_records : list PalRecord :=
  [ {| palId := "pal/2"%string;
       primaryAssignment :=
         {| lowFrequency := 3600e6; highFrequency := 3605e6 |} |} ].

(** A blocking entity on 3650-4200 MHz, which the test of lines 482-484
    does not exempt. *)
Definition test_fss_blocking : FssEntity :=
  {| ttc := false;
     deploymentParam :=
       [ {| installationParam := test_installation;
            operationFrequencyRange :=
              {| lowFrequency := 3650e6; highFrequency := 4200e6 |} |} ] |}.

(** A PPA with the PAL record of [test_pal_records] whose zone has no grid
    point. *)
Definition test_ppa_no_grid : PpaEntity (model := test_model) :=
  {| ppa_zone := ([] : interf.Zone (Model := test_model));
     ppaRegionType := "URBAN"%string;
     ppa_palId := ["pal/2"%string] |}.

(** A pool whose workers end in the reverse of the list order. *)
Definition reverse_order : Workers :=
  {| completionOrder := fun points => rev points;
     completionOrder_perm :=
       fun points => Permutation_sym (Permutation_rev points) |}.

(** A GWPZ of two grid points of the same latitude. *)
Definition test_gwpz_row : GwpzEntity (model := test_model) :=
  {| gwpz_zone := ([(0, 0); (0, 1)] : interf.Zone (Model := test_model));
     gwpz_operationFrequencyRange :=
       {| lowFrequency := 3600e6; highFrequency := 3605e6 |};
     zone_features := ["RURAL"%string] |}.

(** A GWPZ whose zone has no feature, and one whose zone has no grid
    point. *)
Definition test_gwpz_no_feature : GwpzEntity (model := test_model) :=
  {| gwpz_zone := ([(0, 0)] : interf.Zone (Model := test_model));
     gwpz_operationFrequencyRange :=
       {| lowFrequency := 3600e6; highFrequency := 3605e6 |};
     zone_features := [] |}.

Definition test_gwpz_no_grid : GwpzEntity (model := test_model) :=
  {| gwpz_zone := ([] : interf.Zone (Model := test_model));
     gwpz_operationFrequencyRange :=
       {| lowFrequency := 3600e6; highFrequency := 3605e6 |};
     zone_features := ["RURAL"%string] |}.

(** * Properties *)

(** ** Dictionaries *)

Section DictFacts.
Context {V : Type}.
Implicit Types (d : dict V) (k : Q) (v : V).

Lemma dict_get_Qeq k k' d : k == k' -> dict_get k d = dict_get k' d.
Proof.
  intros E. induction d as [|[k0 v0] d IH]; simpl; [reflexivity|].
  rewrite (Qeqb_comp k k' E k0 k0 (Qeq_refl k0)), IH. reflexivity.
Qed.

Lemma dict_get_set_same k v d : dict_get k (dict_set k v d) = Some v.
Proof.
  induction d as [|[k0 v0] d IH]; simpl.
  - now rewrite Qeq_bool_refl.
  - destruct (Qeq_bool k k0) eqn:E; simpl; rewrite E; [reflexivity | apply IH].
Qed.

Lemma dict_get_set_other k k' v d :
  Qeq_bool k k' = false -> dict_get k (dict_set k' v d) = dict_get k d.
Proof.
  intros N. induction d as [|[k0 v0] d IH]; simpl.
  - now rewrite N.
  - destruct (Qeq_bool k' k0) eqn:E; simpl.
    + destruct (Qeq_bool k k0) eqn:E0; [|reflexivity].
      exfalso. apply Qeq_bool_sym in E.
      rewrite (Qeq_bool_trans _ _ _ E0 E) in N. discriminate.
    + now rewrite IH.
Qed.

Lemma dict_set_set k v1 v2 d : dict_set k v2 (dict_set k v1 d) = dict_set k v2 d.
Proof.
  induction d as [|[k0 v0] d IH]; simpl.
  - now rewrite Qeq_bool_refl.
  - destruct (Qeq_bool k k0) eqn:E; simpl; rewrite E; [reflexivity | now rewrite IH].
Qed.

Lemma dict_get_In k v d : dict_get k d = Some v -> exists k', k == k' /\ In (k', v) d.
Proof.
  induction d as [|[k0 v0] d IH]; simpl; [discriminate|].
  destruct (Qeq_bool k k0) eqn:E.
  - intros [= <-]. exists k0. split; [now apply Qeq_bool_eq | now left].
  - intros H. destruct (IH H) as (k' & ? & ?). exists k'. auto.
Qed.

Lemma dict_wf_In_get k k' v d :
  dict_wf d = true -> In (k', v) d -> k == k' -> dict_get k d = Some v.
Proof.
  intros W I E. rewrite (dict_get_Qeq k k' d E). clear k E.
  induction d as [|[k0 v0] d IH]; simpl in *; [contradiction|].
  apply andb_true_iff in W as [W0 W]. apply negb_true_iff in W0.
  destruct I as [[= -> ->]|I].
  - now rewrite Qeq_bool_refl.
  - specialize (IH W I). destruct (Qeq_bool k' k0) eqn:E; [|exact IH].
    exfalso. unfold has_key in W0.
    rewrite <- (dict_get_Qeq k' k0 d (Qeq_bool_eq _ _ E)), IH in W0. discriminate.
Qed.

Lemma dict_get_last k k' v d :
  dict_wf (d ++ [(k', v)]) = true -> k == k' -> dict_get k (d ++ [(k', v)]) = Some v.
Proof.
  intros W E. apply (dict_wf_In_get k k'); auto.
  apply in_or_app. right. now left.
Qed.

End DictFacts.

Lemma store_wf_inner info lat by_longitude :
  store_wf info = true -> In (lat, by_longitude) info -> dict_wf by_longitude = true.
Proof.
  unfold store_wf. intros W I. apply andb_true_iff in W as [_ W].
  rewrite forallb_forall in W. exact (W _ I).
Qed.

Lemma lookup3_Qeq info lat lat' lon lon' index :
  lat == lat' -> lon == lon' ->
  lookup3 info lat lon index = lookup3 info lat' lon' index.
Proof.
  intros E1 E2. unfold lookup3. rewrite (dict_get_Qeq lat lat' info E1).
  destruct (dict_get lat' info) as [d|]; [|reflexivity].
  now rewrite (dict_get_Qeq lon lon' d E2).
Qed.

Lemma lookup3_get2 info lat lon index v :
  lookup3 info lat lon index = Ok v <->
  exists l, get2 info lat lon = Some l /\ nth_error l index = Some v.
Proof.
  unfold lookup3, get2. destruct (dict_get lat info) as [d|].
  - destruct (dict_get lon d) as [l|].
    + destruct (nth_error l index) as [x|] eqn:E.
      * split; [intros [= ->]; eauto | intros (l' & [= <-] & H); congruence].
      * split; [discriminate | intros (l' & [= <-] & H); congruence].
    + split; [discriminate | intros (l' & H & _); discriminate].
  - split; [discriminate | intros (l' & H & _); discriminate].
Qed.

(** ** The combination step *)

Lemma apIapRefIndex_loop q_p num_sas asas_info lat lon a_p_list :
  forall index acc (ap_iap_ref ap_iap_ref' : PostIapResult),
    dict_get lat ap_iap_ref = Some [(lon, acc)] ->
    forEnumerate (apIapRefIndex q_p num_sas asas_info lat lon) index a_p_list
      ap_iap_ref = Ok ap_iap_ref' ->
    exists vals,
      ap_iap_ref' = dict_set lat [(lon, acc ++ vals)] ap_iap_ref /\
      List.length vals = List.length a_p_list /\
      forall i a_p, nth_error a_p_list i = Some a_p ->
        exists asas_value,
          lookup3 asas_info lat lon (index + i) = Ok asas_value /\
          nth_error vals i = Some (((q_p - a_p) / inject_Z num_sas) + asas_value).
Proof.
  induction a_p_list as [|a_p rest IH]; intros index acc r r' G H; simpl in H.
  - injection H as <-. exists []. rewrite app_nil_r. repeat split.
    + clear -G. induction r as [|[k0 v0] r IH]; simpl in *; [discriminate|].
      destruct (Qeq_bool lat k0); [now injection G as -> | now rewrite <- IH].
    + intros [|i] ? [=].
  - unfold apIapRefIndex at 1 in H.
    destruct (num_sas =? 0)%Z; [discriminate|].
    destruct (lookup3 asas_info lat lon index) as [s| |] eqn:L; try discriminate.
    cbn [obind] in H. unfold append2 in H. rewrite G in H.
    cbn [dict_get] in H. rewrite Qeq_bool_refl in H. cbn [obind dict_set] in H.
    rewrite Qeq_bool_refl in H.
    apply IH with (acc := acc ++ [((q_p - a_p) / inject_Z num_sas) + s]) in H;
      [|apply dict_get_set_same].
    destruct H as (vals & -> & Len & Vals).
    exists ((((q_p - a_p) / inject_Z num_sas) + s) :: vals).
    rewrite dict_set_set, <- app_assoc. simpl. repeat split.
    + now rewrite Len.
    + intros [|i] x Hx; simpl in *.
      * injection Hx as <-. rewrite Nat.add_0_r. eauto.
      * replace (index + S i)%nat with (S index + i)%nat by lia.
        exact (Vals i x Hx).
Qed.

Lemma apIapRefLongitude_spec q_p num_sas asas_info lat lon a_p_list
  (r r' : PostIapResult) :
  apIapRefLongitude q_p num_sas asas_info lat r (lon, a_p_list) = Ok r' ->
  exists vals,
    channelValues q_p num_sas asas_info lat lon a_p_list vals /\
    r' = dict_set lat [(lon, vals)] r.
Proof.
  unfold apIapRefLongitude, setitem2. rewrite dict_get_set_same. simpl.
  rewrite dict_set_set. intros H.
  apply apIapRefIndex_loop with (acc := []) in H; [|apply dict_get_set_same].
  destruct H as (vals & -> & Len & Vals). exists vals.
  rewrite dict_set_set. simpl. repeat split; auto.
Qed.

(** After the loop over the longitudes of a latitude, the entry of the
    latitude holds the last longitude alone. *)
Lemma apIapRefLatitude_spec q_p num_sas asas_info lat a_p_ch :
  forall r r' : PostIapResult,
    apIapRefLatitude q_p num_sas asas_info r (lat, a_p_ch) = Ok r' ->
    (a_p_ch = [] /\ r' = r) \/
    exists before lon a_p_list vals,
      a_p_ch = before ++ [(lon, a_p_list)] /\
      channelValues q_p num_sas asas_info lat lon a_p_list vals /\
      r' = dict_set lat [(lon, vals)] r.
Proof.
  unfold apIapRefLatitude.
  induction a_p_ch as [|[lon a_p_list] rest IH]; intros r r' H; cbn [forEach] in H.
  - left. now injection H as <-.
  - right.
    destruct (apIapRefLongitude q_p num_sas asas_info lat r (lon, a_p_list))
      as [r1| |] eqn:E; try discriminate.
    cbn [obind] in H. apply apIapRefLongitude_spec in E as (vals & CV & ->).
    destruct (IH _ _ H) as [[-> ->]|(before & lon' & l' & vals' & -> & CV' & ->)].
    + exists [], lon, a_p_list, vals. auto.
    + exists ((lon, a_p_list) :: before), lon', l', vals'.
      rewrite dict_set_set. auto.
Qed.

(** Where an entry of the result comes from. *)
Lemma apIapRef_entry q_p num_sas asas_info a_p_info :
  forall (r r' : PostIapResult) lat (d : dict (list Q)),
    forEach (apIapRefLatitude q_p num_sas asas_info) a_p_info r = Ok r' ->
    dict_get lat r' = Some d ->
    dict_get lat r = Some d \/
    exists lat' a_p_ch before lon a_p_list vals,
      In (lat', a_p_ch) a_p_info /\ lat == lat' /\
      a_p_ch = before ++ [(lon, a_p_list)] /\
      channelValues q_p num_sas asas_info lat' lon a_p_list vals /\
      d = [(lon, vals)].
Proof.
  induction a_p_info as [|[lat0 ch0] rest IH]; intros r r' lat d H G; cbn [forEach] in H.
  - left. now injection H as <-.
  - destruct (apIapRefLatitude q_p num_sas asas_info r (lat0, ch0))
      as [r1| |] eqn:E; try discriminate.
    cbn [obind] in H. destruct (IH _ _ _ _ H G) as [G1|(lat' & ch & b & lon & l & vals & I & R)].
    + apply apIapRefLatitude_spec in E
        as [[-> ->]|(before & lon & l & vals & -> & CV & ->)]; [now left|].
      destruct (Qeq_bool lat lat0) eqn:Q.
      * right. rewrite (dict_get_Qeq lat lat0 _ (Qeq_bool_eq _ _ Q)) in G1.
        rewrite dict_get_set_same in G1. injection G1 as <-.
        exists lat0, (before ++ [(lon, l)]), before, lon, l, vals.
        split; [now left|]. split; [now apply Qeq_bool_eq|]. auto.
      * left. now rewrite dict_get_set_other in G1.
    + right. exists lat', ch, b, lon, l, vals. split; [now right | exact R].
Qed.

(** [calculateApIapRef] leaves the stores as they are. *)
Lemma calculateApIapRef_stores q_p num_sas g r g' :
  calculateApIapRef q_p num_sas g = Ok (r, g') -> g' = g.
Proof.
  unfold calculateApIapRef.
  destruct (forEach _ _ _) as [x| |]; simpl; congruence.
Qed.

(** An entry of the result, read in the two stores. *)
Lemma calculateApIapRef_entry q_p num_sas g r g' lat lon vals :
  store_wf (aggregate_interference g) = true ->
  calculateApIapRef q_p num_sas g = Ok (r, g') ->
  get2 r lat lon = Some vals ->
  exists a_p_list,
    get2 (aggregate_interference g) lat lon = Some a_p_list /\
    channelValues q_p num_sas (asas_interference g) lat lon a_p_list vals /\
    exists d, dict_get lat r = Some d /\ List.length d = 1%nat.
Proof.
  intros W H G. unfold calculateApIapRef in H.
  unfold interf.GetAggregateInterferenceInfo in H.
  destruct (forEach _ _ _) as [x| |] eqn:F; simpl in H; try discriminate.
  injection H as -> ->. unfold get2 in G.
  destruct (dict_get lat r) as [d|] eqn:D; [|discriminate].
  destruct (apIapRef_entry _ _ _ _ _ _ _ _ F D)
    as [N|(lat' & ch & b & lon' & l & vals' & I & E & -> & CV & ->)];
    [discriminate|].
  simpl in G. destruct (Qeq_bool lon lon') eqn:EL; [|discriminate].
  injection G as ->. apply Qeq_bool_eq in EL.
  exists l. split; [|split].
  - unfold get2. pose proof W as W'. unfold store_wf in W'.
    apply andb_true_iff in W' as [W' _].
    rewrite (dict_wf_In_get lat lat' _ _ W' I E).
    apply dict_get_last; auto. exact (store_wf_inner _ _ _ W I).
  - destruct CV as [Len Vals]. split; [exact Len|].
    intros i a_p Hi. destruct (Vals i a_p Hi) as (s & L & N).
    exists s. split; [|exact N].
    now rewrite (lookup3_Qeq _ lat lat' lon lon').
  - exists [(lon', vals)]. auto.
Qed.

(** C1.  Every value of the map returned by [calculateApIapRef], at a
    latitude, a longitude and a channel index, is
    [((q_p - a_p) / num_sas) + asas_p], where [a_p] and [asas_p] are the
    totals the global store and the store of this SAS hold at the same
    latitude, longitude and index; with a threshold of 100 mW, 2 SASs, a
    global total of 60 mW and a local total of 10 mW the value is 30. *)
Theorem calculateApIapRef_value q_p num_sas g ap_iap_ref g' lat lon index value :
  store_wf (aggregate_interference g) = true ->
  calculateApIapRef q_p num_sas g = Ok (ap_iap_ref, g') ->
  lookup3 ap_iap_ref lat lon index = Ok value ->
  exists a_p asas_p,
    lookup3 (aggregate_interference g) lat lon index = Ok a_p /\
    lookup3 (asas_interference g) lat lon index = Ok asas_p /\
    value = ((q_p - a_p) / inject_Z num_sas) + asas_p /\
    (q_p == 100 -> num_sas = 2%Z -> a_p == 60 -> asas_p == 10 -> value == 30).
Proof.
  intros W H L. apply lookup3_get2 in L as (vals & G & N).
  destruct (calculateApIapRef_entry _ _ _ _ _ _ _ _ W H G)
    as (a_p_list & GA & [Len Vals] & _).
  assert (I : (index < List.length a_p_list)%nat).
  { rewrite <- Len. apply nth_error_Some. congruence. }
  destruct (nth_error a_p_list index) as [a_p|] eqn:NA;
    [|apply nth_error_Some in I; contradiction].
  destruct (Vals index a_p NA) as (s & LS & NV).
  exists a_p, s. split; [|split; [exact LS|split]].
  - apply lookup3_get2. eauto.
  - congruence.
  - intros E1 -> E3 E4. replace value with ((q_p - a_p) / inject_Z 2 + s) by congruence.
    rewrite E1, E3, E4. reflexivity.
Qed.

Lemma calculateApIapRef_value_witness :
  exists a_p asas_p,
    lookup3 (aggregate_interference test_used_stores) 1 2 0 = Ok a_p /\
    lookup3 (asas_interference test_used_stores) 1 2 0 = Ok asas_p /\
    60 # 2 = ((100 - a_p) / inject_Z 2) + asas_p /\
    (100 == 100 -> 2%Z = 2%Z -> a_p == 60 -> asas_p == 10 -> 60 # 2 == 30).
Proof.
  apply (calculateApIapRef_value 100 2 test_used_stores
           [(1, [(2, [60 # 2])])] test_used_stores 1 2 0 (60 # 2));
    reflexivity.
Defined.

(** C2.  On stores that hold two points of one latitude, [calculateApIapRef]
    returns a map with an entry for the last of the two longitudes only: the
    point of the first longitude, a key of the global store, has no entry. *)
Theorem calculateApIapRef_keeps_one_longitude :
  exists ap_iap_ref,
    calculateApIapRef 100 2 test_row_stores = Ok (ap_iap_ref, test_row_stores) /\
    has_key2 (aggregate_interference test_row_stores) 1 2 = true /\
    has_key2 (aggregate_interference test_row_stores) 1 3 = true /\
    has_key2 ap_iap_ref 1 2 = false /\
    has_key2 ap_iap_ref 1 3 = true.
Proof.
  eexists. split; [reflexivity|]. repeat split.
Qed.

(** Every latitude of the result holds one longitude, whatever the number
    of longitudes the global store holds at that latitude. *)
Lemma calculateApIapRef_single_longitude q_p num_sas g ap_iap_ref g' lat by_longitude :
  calculateApIapRef q_p num_sas g = Ok (ap_iap_ref, g') ->
  dict_get lat ap_iap_ref = Some by_longitude ->
  List.length by_longitude = 1%nat.
Proof.
  unfold calculateApIapRef. intros H D.
  destruct (forEach _ _ _) as [x| |] eqn:F; simpl in H; try discriminate.
  injection H as -> ->.
  destruct (apIapRef_entry _ _ _ _ _ _ _ _ F D)
    as [N|(lat' & ch & b & lon' & l & vals' & I & E & -> & CV & ->)];
    [discriminate | reflexivity].
Qed.

(** A point of the result is a point of the global store. *)
Lemma calculateApIapRef_keys q_p num_sas g ap_iap_ref g' lat lon :
  store_wf (aggregate_interference g) = true ->
  calculateApIapRef q_p num_sas g = Ok (ap_iap_ref, g') ->
  has_key2 (aggregate_interference g) lat lon = false ->
  has_key2 ap_iap_ref lat lon = false.
Proof.
  intros W H A. unfold has_key2 in *.
  destruct (get2 ap_iap_ref lat lon) as [vals|] eqn:G; [|reflexivity].
  destruct (calculateApIapRef_entry _ _ _ _ _ _ _ _ W H G) as (l & GA & _).
  rewrite GA in A. discriminate.
Qed.

(** ** The aggregation stores *)

Lemma dict_get_map {A B : Type} (f : A -> B) k (d : dict A) :
  dict_get k (dict_map f d) = option_map f (dict_get k d).
Proof.
  induction d as [|[k0 v0] d IH]; simpl; [reflexivity|].
  destruct (Qeq_bool k k0); [reflexivity | exact IH].
Qed.

Lemma dict_map_set {A B : Type} (f : A -> B) k v (d : dict A) :
  dict_map f (dict_set k v d) = dict_set k (f v) (dict_map f d).
Proof.
  induction d as [|[k0 v0] d IH]; simpl; [reflexivity|].
  destruct (Qeq_bool k k0); simpl; [reflexivity | now rewrite <- IH].
Qed.

Lemma has_key_set {V : Type} k k' (v : V) d :
  has_key k (dict_set k' v d) = has_key k d || Qeq_bool k k'.
Proof.
  unfold has_key. destruct (Qeq_bool k k') eqn:E.
  - rewrite (dict_get_Qeq k k' _ (Qeq_bool_eq _ _ E)), dict_get_set_same.
    now rewrite orb_true_r.
  - rewrite dict_get_set_other by exact E. now rewrite orb_false_r.
Qed.

Lemma dict_wf_set {V : Type} k (v : V) d :
  dict_wf d = true -> dict_wf (dict_set k v d) = true.
Proof.
  induction d as [|[k0 v0] d IH]; simpl; [reflexivity|].
  intros W. apply andb_true_iff in W as [W0 W].
  destruct (Qeq_bool k k0) eqn:E; simpl.
  - now rewrite W0, W.
  - rewrite has_key_set, IH by exact W. apply negb_true_iff in W0.
    rewrite W0, Qeq_bool_comm, E. reflexivity.
Qed.

Lemma forallb_dict_set {V : Type} (P : V -> bool) k (v : V) d :
  forallb (fun item => P (snd item)) d = true -> P v = true ->
  forallb (fun item => P (snd item)) (dict_set k v d) = true.
Proof.
  intros F Pv. induction d as [|[k0 v0] d IH]; simpl in *.
  - now rewrite Pv.
  - apply andb_true_iff in F as [F0 F].
    destruct (Qeq_bool k k0); simpl; [now rewrite Pv, F | now rewrite F0, IH].
Qed.

(** A write keeps the store a dictionary of dictionaries. *)
Lemma store_wf_Set lat lon v store :
  store_wf store = true ->
  store_wf (interf.SetAggregateInterferenceInfo lat lon v store) = true.
Proof.
  unfold store_wf, interf.SetAggregateInterferenceInfo. intros W.
  apply andb_true_iff in W as [W1 W2]. apply andb_true_iff. split.
  - now apply dict_wf_set.
  - apply (forallb_dict_set (fun d : dict (list Q) => dict_wf d)); [exact W2|].
    apply dict_wf_set. destruct (dict_get lat store) as [d|] eqn:G; [|reflexivity].
    apply dict_get_In in G as (lat' & _ & I).
    rewrite forallb_forall in W2. exact (W2 _ I).
Qed.

(** The shape of a store after a write depends on the shape before only. *)
Lemma store_shape_Set lat lon v store :
  store_shape (interf.SetAggregateInterferenceInfo lat lon v store) =
  shape_append lat lon (store_shape store).
Proof.
  unfold store_shape, shape_append, interf.SetAggregateInterferenceInfo.
  rewrite !dict_map_set, dict_get_map.
  destruct (dict_get lat store) as [d|]; simpl.
  - rewrite dict_get_map. destruct (dict_get lon d) as [l|]; simpl.
    + now rewrite length_app, Nat.add_1_r.
    + reflexivity.
  - reflexivity.
Qed.

Lemma get2_shape info lat lon :
  option_map (@List.length Q) (get2 info lat lon) =
  match dict_get lat (store_shape info) with
  | Some d => dict_get lon d
  | None => None
  end.
Proof.
  unfold get2, store_shape. rewrite dict_get_map.
  destruct (dict_get lat info) as [d|]; simpl; [|reflexivity].
  now rewrite dict_get_map.
Qed.

Lemma has_key_shape info lat :
  has_key lat info = has_key lat (store_shape info).
Proof.
  unfold has_key, store_shape. rewrite dict_get_map.
  now destruct (dict_get lat info).
Qed.

(** What alignment says of the keys and of the lists. *)
Lemma aligned_reading g :
  aligned g ->
  (forall lat,
     has_key lat (asas_interference g) = has_key lat (aggregate_interference g)) /\
  (forall lat lon,
     has_key2 (asas_interference g) lat lon =
     has_key2 (aggregate_interference g) lat lon) /\
  (forall lat lon asas_list a_p_list,
     get2 (asas_interference g) lat lon = Some asas_list ->
     get2 (aggregate_interference g) lat lon = Some a_p_list ->
     List.length asas_list = List.length a_p_list).
Proof.
  unfold aligned. intros A. split; [|split].
  - intros lat. now rewrite !has_key_shape, A.
  - intros lat lon. unfold has_key2.
    pose proof (get2_shape (asas_interference g) lat lon) as H1.
    pose proof (get2_shape (aggregate_interference g) lat lon) as H2.
    rewrite A, <- H2 in H1.
    destruct (get2 (asas_interference g) lat lon),
             (get2 (aggregate_interference g) lat lon); simpl in H1;
      congruence.
  - intros lat lon l1 l2 G1 G2.
    pose proof (get2_shape (asas_interference g) lat lon) as H1.
    pose proof (get2_shape (aggregate_interference g) lat lon) as H2.
    rewrite A, <- H2, G1, G2 in H1. simpl in H1. congruence.
Qed.

(** ** Runs of [iapPointConstraint] *)

Lemma forM_app {A : Type} (body : A -> M unit) l1 l2 g :
  forM body (l1 ++ l2) g =
  obind (forM body l1 g) (fun r => forM body l2 (snd r)).
Proof.
  revert g. induction l1 as [|x l1 IH]; intros g; simpl; [reflexivity|].
  unfold bind. destruct (body x g) as [[[] g1]| |]; simpl; auto.
Qed.

Lemma forM_invariant {A : Type} (P : Globals -> Prop) (body : A -> M unit) :
  (forall x g u g', body x g = Ok (u, g') -> P g -> P g') ->
  forall l g u g', forM body l g = Ok (u, g') -> P g -> P g'.
Proof.
  intros Step. induction l as [|x l IH]; intros g u g' H Pg; simpl in H.
  - injection H as _ <-. exact Pg.
  - unfold bind in H. destruct (body x g) as [[u1 g1]| |] eqn:E; try discriminate.
    simpl in H. exact (IH _ _ _ H (Step _ _ _ _ E Pg)).
Qed.

Section Runs.
Context {model : interf.Model}.

(** A channel without overlapping grant leaves the stores as they are. *)
Lemma iapChannel_no_overlap fuel protection_point low_freq high_freq grants_inside
  fss_info esc_antenna_info region_type threshold protection_ent_type channel g :
  interf.findOverlappingGrants grants_inside
    (channelConstraint protection_point low_freq high_freq protection_ent_type
       channel) = [] ->
  iapChannel fuel protection_point low_freq high_freq grants_inside fss_info
    esc_antenna_info region_type threshold protection_ent_type channel g =
  Ok (tt, g).
Proof.
  unfold iapChannel, channelConstraint. intros ->. reflexivity.
Qed.

(** What a channel with an overlapping grant does when its loop ends: one
    value is appended to each store at the point of the constraint. *)
Lemma iapChannel_writes fuel protection_point low_freq high_freq grants_inside
  fss_info esc_antenna_info region_type threshold protection_ent_type channel g u g' :
  iapChannel fuel protection_point low_freq high_freq grants_inside fss_info
    esc_antenna_info region_type threshold protection_ent_type channel g =
  Ok (u, g') ->
  g' = g \/
  exists a_sas_p a_p,
    g' = {| asas_interference :=
              interf.SetAggregateInterferenceInfo (fst protection_point)
                (snd protection_point) a_sas_p (asas_interference g);
            aggregate_interference :=
              interf.SetAggregateInterferenceInfo (fst protection_point)
                (snd protection_point) a_p (aggregate_interference g) |}.
Proof.
  unfold iapChannel.
  destruct (interf.findOverlappingGrants _ _) as [|grant grants].
  - intros [= _ <-]. now left.
  - destruct (convergenceLoop _ _ _ _ _ _ _) as [a| |]; simpl; try discriminate.
    intros [= _ <-]. right. eauto.
Qed.

Lemma iapPointConstraint_invariant (P : Globals -> Prop) protection_point :
  (forall g a_sas_p a_p, P g ->
     P {| asas_interference :=
            interf.SetAggregateInterferenceInfo (fst protection_point)
              (snd protection_point) a_sas_p (asas_interference g);
          aggregate_interference :=
            interf.SetAggregateInterferenceInfo (fst protection_point)
              (snd protection_point) a_p (aggregate_interference g) |}) ->
  forall fuel channels low_freq high_freq grant_objects fss_info esc_antenna_info
    region_type threshold protection_ent_type g u g',
    iapPointConstraint fuel protection_point channels low_freq high_freq
      grant_objects fss_info esc_antenna_info region_type threshold
      protection_ent_type g = Ok (u, g') ->
    P g -> P g'.
Proof.
  intros Step fuel channels low_freq high_freq grant_objects fss_info
    esc_antenna_info region_type threshold protection_ent_type g u g'.
  unfold iapPointConstraint. destruct (0 <? _)%nat.
  - apply forM_invariant. intros channel g0 u0 g1 H Pg.
    apply iapChannel_writes in H as [->|(x & y & ->)]; auto.
  - intros [= _ <-]. auto.
Qed.

Lemma iapPointConstraint_aligned fuel protection_point channels low_freq high_freq
  grant_objects fss_info esc_antenna_info region_type threshold
  protection_ent_type g u g' :
  iapPointConstraint fuel protection_point channels low_freq high_freq
    grant_objects fss_info esc_antenna_info region_type threshold
    protection_ent_type g = Ok (u, g') ->
  aligned g -> aligned g'.
Proof.
  apply (iapPointConstraint_invariant aligned). unfold aligned. simpl.
  intros g0 x y A. now rewrite !store_shape_Set, A.
Qed.

Lemma iapPointConstraint_store_wf fuel protection_point channels low_freq high_freq
  grant_objects fss_info esc_antenna_info region_type threshold
  protection_ent_type g u g' :
  iapPointConstraint fuel protection_point channels low_freq high_freq
    grant_objects fss_info esc_antenna_info region_type threshold
    protection_ent_type g = Ok (u, g') ->
  store_wf (asas_interference g) = true /\
  store_wf (aggregate_interference g) = true ->
  store_wf (asas_interference g') = true /\
  store_wf (aggregate_interference g') = true.
Proof.
  apply (iapPointConstraint_invariant
           (fun g => store_wf (asas_interference g) = true /\
                     store_wf (aggregate_interference g) = true)).
  simpl. intros g0 x y [W1 W2]. split; now apply store_wf_Set.
Qed.

(** C9.  After the reset of the two stores and any sequence of calls of
    [iapPointConstraint], the store of this SAS and the global store have the
    same latitudes, the same points, and at every point lists of the same
    length. *)
Theorem stores_aligned fuel invocations g g' :
  (resetStores ;;; forM (invoke fuel) invocations) g = Ok (tt, g') ->
  (forall lat,
     has_key lat (asas_interference g') =
     has_key lat (aggregate_interference g')) /\
  (forall lat lon,
     has_key2 (asas_interference g') lat lon =
     has_key2 (aggregate_interference g') lat lon) /\
  (forall lat lon asas_list a_p_list,
     get2 (asas_interference g') lat lon = Some asas_list ->
     get2 (aggregate_interference g') lat lon = Some a_p_list ->
     List.length asas_list = List.length a_p_list).
Proof.
  intros H. apply aligned_reading.
  unfold resetStores, bind in H. simpl in H.
  assert (Step : forall i g0 u g1,
             invoke fuel i g0 = Ok (u, g1) -> aligned g0 -> aligned g1).
  { intros i g0 u g1. unfold invoke. apply iapPointConstraint_aligned. }
  exact (forM_invariant aligned (invoke fuel) Step _ _ _ _ H eq_refl).
Qed.

End Runs.

Lemma stores_aligned_witness :
  (forall lat,
     has_key lat (asas_interference test_final_stores) =
     has_key lat (aggregate_interference test_final_stores)) /\
  (forall lat lon,
     has_key2 (asas_interference test_final_stores) lat lon =
     has_key2 (aggregate_interference test_final_stores) lat lon) /\
  (forall lat lon asas_list a_p_list,
     get2 (asas_interference test_final_stores) lat lon = Some asas_list ->
     get2 (aggregate_interference test_final_stores) lat lon = Some a_p_list ->
     List.length asas_list = List.length a_p_list).
Proof.
  apply (stores_aligned (model := test_model) 10 test_invocations test_used_stores).
  vm_compute. reflexivity.
Defined.

Section Skips.
Context {model : interf.Model}.

(** C10.  A channel that no grant of the neighbourhood overlaps appends no
    value to either store and raises nothing: the run is the run without that
    channel.  With no grant in the neighbourhood of the point the run writes
    nothing at all, and a point that was in no store is in no entry of the
    map [calculateApIapRef] returns afterwards. *)
Theorem iapPointConstraint_skips fuel protection_point low_freq high_freq
  grant_objects fss_info esc_antenna_info region_type threshold protection_ent_type :
  let grants_inside :=
    interf.findGrantsInsideNeighborhood grant_objects protection_point
      protection_ent_type in
  (forall channel g,
     interf.findOverlappingGrants grants_inside
       (channelConstraint protection_point low_freq high_freq
          protection_ent_type channel) = [] ->
     iapChannel fuel protection_point low_freq high_freq grants_inside fss_info
       esc_antenna_info region_type threshold protection_ent_type channel g =
     Ok (tt, g)) /\
  (forall before channel after g,
     interf.findOverlappingGrants grants_inside
       (channelConstraint protection_point low_freq high_freq
          protection_ent_type channel) = [] ->
     iapPointConstraint fuel protection_point (before ++ channel :: after)
       low_freq high_freq grant_objects fss_info esc_antenna_info region_type
       threshold protection_ent_type g =
     iapPointConstraint fuel protection_point (before ++ after)
       low_freq high_freq grant_objects fss_info esc_antenna_info region_type
       threshold protection_ent_type g) /\
  (forall channels g,
     grants_inside = [] ->
     iapPointConstraint fuel protection_point channels low_freq high_freq
       grant_objects fss_info esc_antenna_info region_type threshold
       protection_ent_type g = Ok (tt, g) /\
     forall q_p num_sas ap_iap_ref g',
       store_wf (aggregate_interference g) = true ->
       has_key2 (aggregate_interference g) (fst protection_point)
         (snd protection_point) = false ->
       calculateApIapRef q_p num_sas g = Ok (ap_iap_ref, g') ->
       has_key2 ap_iap_ref (fst protection_point) (snd protection_point) = false).
Proof.
  intros grants_inside. split; [|split].
  - intros channel g H. now apply iapChannel_no_overlap.
  - intros before channel after g H. unfold iapPointConstraint.
    fold grants_inside. destruct (0 <? _)%nat; [|reflexivity].
    rewrite !forM_app.
    destruct (forM _ before g) as [[u g1]| |]; simpl; try reflexivity.
    unfold bind at 1. now rewrite iapChannel_no_overlap.
  - intros channels g H. split.
    + unfold iapPointConstraint. fold grants_inside. now rewrite H.
    + intros q_p num_sas r g' W A C.
      exact (calculateApIapRef_keys _ _ _ _ _ _ _ W C A).
Qed.

End Skips.

Lemma iapPointConstraint_skips_witness :
  iapPointConstraint (model := test_model) 10 (0, 0)
    ([] ++ (3595e6, 3600e6) :: [(3600e6, 3605e6)]) 3595e6 3610e6
    [test_grant 3 true] None None None 10 interf.GWPZ_AREA test_empty_stores =
  iapPointConstraint (model := test_model) 10 (0, 0)
    ([] ++ [(3600e6, 3605e6)]) 3595e6 3610e6
    [test_grant 3 true] None None None 10 interf.GWPZ_AREA test_empty_stores /\
  iapPointConstraint (model := test_model) 10 (5, 5) [(3600e6, 3605e6)]
    3595e6 3610e6 [test_grant 3 true] None None None 10 interf.GWPZ_AREA
    test_used_stores = Ok (tt, test_used_stores) /\
  has_key2 [(1, [(2, [60 # 2])])] 5 5 = false.
Proof.
  destruct (iapPointConstraint_skips (model := test_model) 10 (0, 0) 3595e6 3610e6
              [test_grant 3 true] None None None 10 interf.GWPZ_AREA)
    as (_ & Skip & _).
  destruct (iapPointConstraint_skips (model := test_model) 10 (5, 5) 3595e6 3610e6
              [test_grant 3 true] None None None 10 interf.GWPZ_AREA)
    as (_ & _ & Empty).
  destruct (Empty [(3600e6, 3605e6)] test_used_stores eq_refl) as [Run Absent].
  split; [|split].
  - apply Skip. reflexivity.
  - exact Run.
  - apply (Absent 100 2%Z [(1, [(2, [60 # 2])])] test_used_stores); reflexivity.
Defined.

(** ** The entity drivers *)

Lemma bind_inv {A B : Type} (m : M A) (k : A -> M B) g r g' :
  bind m k g = Ok (r, g') ->
  exists a g1, m g = Ok (a, g1) /\ k a g1 = Ok (r, g').
Proof.
  unfold bind. destruct (m g) as [[a g1]| |]; simpl; try discriminate. eauto.
Qed.

Lemma calculateApIapRef_empty q_p num_sas g :
  aggregate_interference g = [] -> calculateApIapRef q_p num_sas g = Ok ([], g).
Proof.
  unfold calculateApIapRef, interf.GetAggregateInterferenceInfo. now intros ->.
Qed.

Section Drivers.
Context {model : interf.Model} {workers : Workers}.

Ltac last_call H :=
  repeat (let a := fresh "a" in let g := fresh "g" in
          apply bind_inv in H as (a & g & _ & H));
  rewrite <- H; f_equal;
  apply calculateApIapRef_stores in H; subst; reflexivity.

(** The threshold each driver hands to [calculateApIapRef] at the end of a
    run: the linear margin for the sensor and the two satellite drivers, the
    level in dBm for the two area drivers. *)
Lemma drivers_last_call fuel uut ths r g g' :
  let num_sas := (Z.of_nat (List.length ths) + 1)%Z in
  (forall entity,
     performIapForEsc fuel entity uut ths g = Ok (r, g') ->
     calculateApIapRef iap_margin_esc num_sas g' = Ok (r, g')) /\
  (forall entity,
     performIapForFssCochannel fuel entity uut ths g = Ok (r, g') ->
     calculateApIapRef iap_margin_fss_cochannel num_sas g' = Ok (r, g')) /\
  (forall entity,
     performIapForFssBlocking fuel entity uut ths g = Ok (r, g') ->
     calculateApIapRef iap_margin_fss_blocking num_sas g' = Ok (r, g')) /\
  (forall entity,
     performIapForGwpz fuel entity uut ths g = Ok (r, g') ->
     calculateApIapRef iap_threshold_gwpz num_sas g' = Ok (r, g')) /\
  (forall entity pal_records,
     performIapForPpa fuel entity uut ths pal_records g = Ok (r, g') ->
     calculateApIapRef iap_threshold_ppa num_sas g' = Ok (r, g')).
Proof.
  intros num_sas. repeat split; intros entity.
  - unfold performIapForEsc. intros H. last_call H.
  - unfold performIapForFssCochannel.
    destruct (deploymentParam entity); [discriminate|]. intros H. last_call H.
  - unfold performIapForFssBlocking.
    destruct (deploymentParam entity); [discriminate|]. intros H. last_call H.
  - unfold performIapForGwpz.
    destruct (zone_features entity); [discriminate|]. intros H. last_call H.
  - intros pal_records. unfold performIapForPpa. intros H. last_call H.
Qed.

(** The path of an exempt blocking entity (range within the TT&C band,
    TT&C flag false): no reset and no write; line 499 is reached all the
    same, with the stores as the run finds them. *)
Lemma performIapForFssBlocking_exempt fuel entity uut ths deployment others g :
  deploymentParam entity = deployment :: others ->
  interf.FSS_TTC_LOW_FREQ_HZ <= lowFrequency (operationFrequencyRange deployment) ->
  highFrequency (operationFrequencyRange deployment) <= interf.FSS_TTC_HIGH_FREQ_HZ ->
  ttc entity = false ->
  performIapForFssBlocking fuel entity uut ths g =
    calculateApIapRef iap_margin_fss_blocking
      (Z.of_nat (List.length ths) + 1)%Z g /\
  (forall r g', performIapForFssBlocking fuel entity uut ths g = Ok (r, g') ->
                g' = g) /\
  (aggregate_interference g = [] ->
   performIapForFssBlocking fuel entity uut ths g = Ok ([], g)).
Proof.
  intros D Low High Flag.
  assert (E : performIapForFssBlocking fuel entity uut ths g =
              calculateApIapRef iap_margin_fss_blocking
                (Z.of_nat (List.length ths) + 1)%Z g).
  { unfold performIapForFssBlocking. rewrite D. unfold fssBlockingExempt.
    apply Qle_bool_iff in Low, High. rewrite Low, High, Flag. reflexivity. }
  split; [exact E|]. rewrite E. split.
  - intros r g'. apply calculateApIapRef_stores.
  - apply calculateApIapRef_empty.
Qed.

Lemma ppaPalRecords_unmatched fuel protection_points ppa_region first_pal_id others
  grant_objects pal_records g :
  Forall (fun pal_record => palId pal_record <> first_pal_id) pal_records ->
  ppaPalRecords fuel protection_points ppa_region (first_pal_id :: others)
    grant_objects pal_records g = Ok (tt, g).
Proof.
  induction 1 as [|pal_record rest N _ IH]; simpl; [reflexivity|].
  apply String.eqb_neq in N. now rewrite N.
Qed.

(** The path of a PPA whose first PAL identifier is that of no record of
    [pal_records]: no reset and no write; line 384 is reached all the same,
    with the stores as the run finds them. *)
Lemma performIapForPpa_unmatched fuel entity uut ths pal_records
  first_pal_id others g :
  ppa_palId entity = first_pal_id :: others ->
  Forall (fun pal_record => palId pal_record <> first_pal_id) pal_records ->
  performIapForPpa fuel entity uut ths pal_records g =
    calculateApIapRef iap_threshold_ppa (Z.of_nat (List.length ths) + 1)%Z g /\
  (forall r g', performIapForPpa fuel entity uut ths pal_records g = Ok (r, g') ->
                g' = g) /\
  (aggregate_interference g = [] ->
   performIapForPpa fuel entity uut ths pal_records g = Ok ([], g)).
Proof.
  intros Ids Unmatched.
  assert (E : performIapForPpa fuel entity uut ths pal_records g =
              calculateApIapRef iap_threshold_ppa
                (Z.of_nat (List.length ths) + 1)%Z g).
  { unfold performIapForPpa, bind. rewrite Ids.
    now rewrite ppaPalRecords_unmatched. }
  split; [exact E|]. rewrite E. split.
  - intros r g'. apply calculateApIapRef_stores.
  - apply calculateApIapRef_empty.
Qed.

End Drivers.

Local Open Scope string_scope.

Lemma performIapForFssBlocking_exempt_witness :
  performIapForFssBlocking (model := test_model) 0 test_fss_exempt [] [[]]
    test_empty_stores =
  calculateApIapRef (iap_margin_fss_blocking (model := test_model)) 2
    test_empty_stores /\
  (forall r g',
     performIapForFssBlocking (model := test_model) 0 test_fss_exempt [] [[]]
       test_empty_stores = Ok (r, g') -> g' = test_empty_stores) /\
  (aggregate_interference test_empty_stores = [] ->
   performIapForFssBlocking (model := test_model) 0 test_fss_exempt [] [[]]
     test_empty_stores = Ok ([], test_empty_stores)).
Proof.
  apply (performIapForFssBlocking_exempt (model := test_model) 0 test_fss_exempt
           [] [[]] _ [] test_empty_stores eq_refl).
  - vm_compute. discriminate.
  - vm_compute. discriminate.
  - reflexivity.
Defined.

(** C3.  A run of [performIapForFssBlocking] for an exempt entity (range
    3700-4200 MHz within the TT&C band, TT&C flag false) that follows the run
    of another entity.  The exempt path skips the reset that the other path of
    the driver performs, and line 499 calls [calculateApIapRef] all the same:
    the driver returns a map, with an entry for the point (1, 2) of the
    other entity computed from its totals, where the specification has it
    return without a result.  A blocking entity that is not exempt, run on
    the same stores with no grant, starts from the reset and returns the
    empty map. *)
Theorem performIapForFssBlocking_exempt_returns_map :
  fssBlockingExempt (model := test_model) 3700e6 4200e6 false = true /\
  (exists ap_iap_ref,
     performIapForFssBlocking (model := test_model) 0 test_fss_exempt [] [[]]
       test_used_stores = Ok (ap_iap_ref, test_used_stores) /\
     calculateApIapRef (iap_margin_fss_blocking (model := test_model)) 2
       test_used_stores = Ok (ap_iap_ref, test_used_stores) /\
     has_key2 ap_iap_ref 1 2 = true /\
     ap_iap_ref <> []) /\
  performIapForFssBlocking (model := test_model) 0 test_fss_blocking [] [[]]
    test_used_stores = Ok ([], test_empty_stores).
Proof.
  split; [reflexivity|]. split.
  - eexists. split; [vm_compute; reflexivity|].
    split; [vm_compute; reflexivity|]. split; [reflexivity | discriminate].
  - vm_compute. reflexivity.
Qed.

Lemma performIapForPpa_unmatched_witness :
  performIapForPpa (model := test_model) 0 test_ppa [] [[]] test_pal_records
    test_empty_stores =
  calculateApIapRef (iap_threshold_ppa (model := test_model)) 2
    test_empty_stores /\
  (forall r g',
     performIapForPpa (model := test_model) 0 test_ppa [] [[]] test_pal_records
       test_empty_stores = Ok (r, g') -> g' = test_empty_stores) /\
  (aggregate_interference test_empty_stores = [] ->
   performIapForPpa (model := test_model) 0 test_ppa [] [[]] test_pal_records
     test_empty_stores = Ok ([], test_empty_stores)).
Proof.
  apply (performIapForPpa_unmatched (model := test_model) 0 test_ppa [] [[]]
           test_pal_records "pal/1" [] test_empty_stores eq_refl).
  repeat constructor. discriminate.
Defined.

(** C4.  A run of [performIapForPpa] for a PPA whose PAL identifier is
    that of no record, following the run of another entity.  The loop of
    line 352 meets no match, so that the reset of lines 362-363 is skipped,
    and line 384 calls [calculateApIapRef] all the same: the driver returns
    a map, with an entry for the point (1, 2) of the other entity computed
    from its totals, where the specification has it return without a
    result.  A PPA with a matching record, run on the same stores with no
    grant, starts from the reset and returns the empty map. *)
Theorem performIapForPpa_unmatched_returns_map :
  Forall (fun pal_record => palId pal_record <> "pal/1") test_pal_records /\
  (exists ap_iap_ref,
     performIapForPpa (model := test_model) 0 test_ppa [] [[]] test_pal_records
       test_used_stores = Ok (ap_iap_ref, test_used_stores) /\
     calculateApIapRef (iap_threshold_ppa (model := test_model)) 2
       test_used_stores = Ok (ap_iap_ref, test_used_stores) /\
     has_key2 ap_iap_ref 1 2 = true /\
     ap_iap_ref <> []) /\
  performIapForPpa (model := test_model) 0 test_ppa_matched [] [[]]
    test_pal_records test_used_stores = Ok ([], test_empty_stores).
Proof.
  split; [repeat constructor; discriminate|]. split.
  - eexists. split; [vm_compute; reflexivity|].
    split; [vm_compute; reflexivity|]. split; [reflexivity | discriminate].
  - vm_compute. reflexivity.
Qed.

Local Close Scope string_scope.

(** ** The convergence loop *)

Lemma length_list_set {A : Type} index (v : A) l :
  List.length (list_set index v l) = List.length l.
Proof.
  revert index. induction l as [|x l IH]; intros [|i]; simpl; auto.
Qed.

Lemma nth_error_list_set_same {A : Type} index (v : A) l :
  (index < List.length l)%nat -> nth_error (list_set index v l) index = Some v.
Proof.
  revert index. induction l as [|x l IH]; intros [|i] H; simpl in *;
    try lia; auto. apply IH. lia.
Qed.

Lemma nth_error_list_set_other {A : Type} index i (v : A) l :
  i <> index -> nth_error (list_set index v l) i = nth_error l i.
Proof.
  revert index i. induction l as [|x l IH]; intros [|j] [|i] H; simpl;
    try reflexivity; try congruence. apply IH. congruence.
Qed.

Lemma slack_list_set bounds steps index bound n :
  nth_error bounds index = Some bound ->
  nth_error steps index = Some n ->
  (n < bound)%nat ->
  (slack bounds (list_set index (S n) steps) + 1 = slack bounds steps)%nat.
Proof.
  revert steps index. induction bounds as [|b bounds IH];
    intros [|t steps] [|i] Hb Hs L; simpl in *; try discriminate.
  - injection Hb as ->. injection Hs as ->. lia.
  - rewrite <- (IH steps i Hb Hs L). lia.
Qed.

Lemma Qlt_bool_iff x y : Qlt_bool x y = true <-> x < y.
Proof.
  unfold Qlt_bool. rewrite negb_true_iff. split.
  - intros H. apply Qnot_le_lt. intros L. apply Qle_bool_iff in L. congruence.
  - intros H. destruct (Qle_bool y x) eqn:E; [|reflexivity].
    apply Qle_bool_iff in E. exfalso. exact (Qlt_not_le _ _ H E).
Qed.

Lemma Qlt_bool_false x y : Qlt_bool x y = false <-> y <= x.
Proof.
  unfold Qlt_bool. rewrite negb_false_iff. apply Qle_bool_iff.
Qed.

Lemma convergenceLoop_more_fuel {model : interf.Model} c fss_info esc_antenna_info
  region_type grants fuel :
  forall fuel' a a',
    (fuel <= fuel')%nat ->
    convergenceLoop fuel c fss_info esc_antenna_info region_type grants a = Ok a' ->
    convergenceLoop fuel' c fss_info esc_antenna_info region_type grants a = Ok a'.
Proof.
  induction fuel as [|fuel IH]; intros fuel' a a' L H.
  - destruct fuel'; simpl in *; destruct (num_unsatisfied_grants a >? 0)%Z;
      congruence.
  - destruct fuel' as [|fuel']; [lia|]. simpl in *.
    destruct (num_unsatisfied_grants a >? 0)%Z; [|exact H].
    destruct (sweep _ _ _ _ _ _) as [a1| |]; simpl in *; try discriminate.
    apply IH; [lia | exact H].
Qed.

Section Convergence.
Context {model : interf.Model}.
Variable channel_constraint : interf.ProtectionConstraint.
Variable fss_info : option interf.FssProtectionPoint.
Variable esc_antenna_info : option interf.EscInformation.
Variable region_type : option string.
Variable grants : list interf.Grant.

Local Abbreviation interference :=
  (grantInterference channel_constraint fss_info esc_antenna_info region_type).
Local Abbreviation probe :=
  (probeGrant channel_constraint fss_info esc_antenna_info region_type).

Lemma probeGrant_conserved quota a index grant a' :
  probe a index grant = Ok a' -> conserved quota a -> conserved quota a'.
Proof.
  unfold probeGrant, conserved.
  destruct (nth_error (grant_initialize_flag a) index) as [[|]|]; try discriminate.
  - now intros [= <-].
  - destruct (nth_error (grants_eirp a) index) as [eirp|]; [|discriminate].
    destruct (Qlt_bool _ _); intros [= <-]; simpl; intros H; [lra | exact H].
Qed.

Lemma forEnumerate_conserved quota l :
  forall index a a',
    forEnumerate probe index l a = Ok a' -> conserved quota a -> conserved quota a'.
Proof.
  induction l as [|grant l IH]; intros index a a' H C; simpl in H.
  - now injection H as <-.
  - destruct (probe a index grant) as [a1| |] eqn:E; try discriminate.
    simpl in H. exact (IH _ _ _ H (probeGrant_conserved _ _ _ _ _ E C)).
Qed.

Lemma convergenceLoop_conserved quota fuel :
  forall a a',
    convergenceLoop fuel channel_constraint fss_info esc_antenna_info region_type
      grants a = Ok a' ->
    conserved quota a -> conserved quota a'.
Proof.
  induction fuel as [|fuel IH]; intros a a' H C; simpl in H;
    destruct (num_unsatisfied_grants a >? 0)%Z; try congruence.
  unfold sweep in H.
  destruct (forEnumerate _ _ _ _) as [a1| |] eqn:E; try discriminate.
  simpl in H. exact (IH _ _ H (forEnumerate_conserved _ _ _ _ _ E C)).
Qed.

(** *** Termination *)

Variable share : Q.
Variable bounds : list nat.
Hypothesis share_pos : 0 < share.
Hypothesis bounds_length : List.length bounds = List.length grants.
Hypothesis bounds_reached :
  forall index grant bound (n : nat) eirp,
    nth_error grants index = Some grant ->
    nth_error bounds index = Some bound ->
    (bound <= n)%nat ->
    eirp == interf.max_eirp grant - inject_Z (Z.of_nat n) ->
    interference grant eirp < share.

Lemma probeGrant_step steps a index grant :
  tracking grants steps a ->
  nth_error grants index = Some grant ->
  exists a' steps',
    probe a index grant = Ok a' /\
    tracking grants steps' a' /\
    (num_unsatisfied_grants a' <= num_unsatisfied_grants a)%Z /\
    ((0 < num_unsatisfied_grants a)%Z -> sharing share a ->
     (num_unsatisfied_grants a' <= 0)%Z \/
     (sharing share a' /\ (0 < num_unsatisfied_grants a')%Z /\
      (measure bounds steps' a' < measure bounds steps a)%nat)).
Proof.
  intros [Flags (LenS & LenE & Low)] G.
  assert (HI : (index < List.length grants)%nat)
    by (apply nth_error_Some; congruence).
  destruct (nth_error steps index) as [n|] eqn:HS;
    [|apply nth_error_None in HS; lia].
  destruct (nth_error bounds index) as [bound|] eqn:B;
    [|apply nth_error_None in B; lia].
  destruct (Low index grant n G HS) as (eirp & E & Eq).
  unfold probeGrant. rewrite Flags, (nth_error_repeat false HI), E.
  destruct (Qlt_bool (interference grant eirp) (fair_share a)) eqn:T.
  - (* the grant fits its fair share *)
    apply Qlt_bool_iff in T.
    eexists. exists steps. split; [reflexivity|]. unfold tracking. simpl.
    split; [split; [reflexivity | exact (conj LenS (conj LenE Low))]|].
    split; [lia|]. intros Pos (Qpos & Fair & Share).
    destruct (Z.leb_spec (num_unsatisfied_grants a - 1) 0) as [L|L]; [now left|].
    right. unfold sharing, measure. simpl.
    destruct (Z.eqb_spec (num_unsatisfied_grants a - 1) 0) as [Z0|_]; [lia|].
    simpl.
    assert (N1 : 0 < inject_Z (num_unsatisfied_grants a - 1))
      by (rewrite <- (Zlt_Qlt 0); lia).
    assert (Inj : inject_Z (num_unsatisfied_grants a) ==
                  inject_Z (num_unsatisfied_grants a - 1) + 1).
    { rewrite <- (inject_Z_plus _ 1). now replace
        (num_unsatisfied_grants a - 1 + 1)%Z with (num_unsatisfied_grants a) by lia. }
    rewrite Inj in Fair.
    assert (Fpos : 0 < fair_share a) by lra.
    assert (Left : fair_share a * inject_Z (num_unsatisfied_grants a - 1) <
                   interference_quota a - interference grant eirp) by lra.
    split; [|split; [lia|lia]]. split; [|split].
    + assert (0 < fair_share a * inject_Z (num_unsatisfied_grants a - 1)) by nra.
      lra.
    + field. lra.
    + apply Qle_trans with (fair_share a); [exact Share|].
      apply Qle_shift_div_l; [exact N1 | lra].
  - (* the grant does not fit: one step down *)
    apply Qlt_bool_false in T.
    eexists. exists (list_set index (S n) steps). split; [reflexivity|].
    unfold tracking. simpl.
    split; [|split; [lia|]].
    + split; [reflexivity|]. unfold loweredBy.
      rewrite !length_list_set. split; [exact LenS|]. split; [exact LenE|].
      intros i g m Gi Si. destruct (Nat.eq_dec i index) as [->|Ne].
      * rewrite nth_error_list_set_same in Si by lia.
        rewrite nth_error_list_set_same by lia.
        injection Si as <-. rewrite G in Gi. injection Gi as <-.
        exists (eirp - 1). split; [reflexivity|].
        rewrite Nat2Z.inj_succ, <- Z.add_1_r, inject_Z_plus, Eq.
        change (inject_Z 1) with 1. ring.
      * rewrite nth_error_list_set_other in Si by exact Ne.
        rewrite nth_error_list_set_other by exact Ne. exact (Low i g m Gi Si).
    + intros Pos Sh. right. split; [exact Sh|]. split; [exact Pos|].
      unfold measure. simpl.
      assert (n < bound)%nat.
      { destruct (Nat.lt_ge_cases n bound) as [L|L]; [exact L|]. exfalso.
        pose proof (bounds_reached index grant bound n eirp G B L Eq) as R.
        destruct Sh as (_ & _ & Share). lra. }
      pose proof (slack_list_set bounds steps index bound n B HS H). lia.
Qed.

Lemma forEnumerate_steps suffix :
  forall index steps a,
    (forall i grant, nth_error suffix i = Some grant ->
                     nth_error grants (index + i) = Some grant) ->
    tracking grants steps a ->
    exists a' steps',
      forEnumerate probe index suffix a = Ok a' /\
      tracking grants steps' a' /\
      (num_unsatisfied_grants a' <= num_unsatisfied_grants a)%Z /\
      ((0 < num_unsatisfied_grants a)%Z -> sharing share a ->
       (num_unsatisfied_grants a' <= 0)%Z \/
       (sharing share a' /\ (0 < num_unsatisfied_grants a')%Z /\
        (measure bounds steps' a' + List.length suffix <=
         measure bounds steps a)%nat)).
Proof.
  induction suffix as [|grant suffix IH]; intros index steps a At Tr.
  - exists a, steps. simpl. split; [reflexivity|]. split; [exact Tr|].
    split; [lia|]. intros Pos Sh. right. split; [exact Sh|]. split; lia.
  - assert (G : nth_error grants index = Some grant).
    { rewrite <- (Nat.add_0_r index). now apply At. }
    destruct (probeGrant_step steps a index grant Tr G)
      as (a1 & steps1 & P & Tr1 & Le1 & Good1).
    destruct (IH (S index) steps1 a1) as (a2 & steps2 & F & Tr2 & Le2 & Good2).
    { intros i g Hi. rewrite Nat.add_succ_comm. now apply At. }
    { exact Tr1. }
    exists a2, steps2. cbn [forEnumerate]. rewrite P. cbn [obind].
    split; [exact F|]. split; [exact Tr2|]. split; [lia|].
    intros Pos Sh. destruct (Good1 Pos Sh) as [Z1|(Sh1 & Pos1 & M1)].
    + left. lia.
    + destruct (Good2 Pos1 Sh1) as [Z2|(Sh2 & Pos2 & M2)]; [now left|].
      right. split; [exact Sh2|]. split; [exact Pos2|]. simpl. lia.
Qed.

Lemma convergenceLoop_ends fuel :
  forall steps a,
    tracking grants steps a ->
    ((0 < num_unsatisfied_grants a)%Z -> sharing share a) ->
    (measure bounds steps a <= fuel)%nat ->
    grants <> [] ->
    exists a' steps',
      convergenceLoop fuel channel_constraint fss_info esc_antenna_info
        region_type grants a = Ok a' /\
      tracking grants steps' a' /\
      (num_unsatisfied_grants a' <= 0)%Z.
Proof.
  induction fuel as [|fuel IH]; intros steps a Tr Sh M Ne.
  - exists a, steps. simpl.
    destruct (Z.gtb_spec (num_unsatisfied_grants a) 0) as [Pos|NonPos].
    + unfold measure in M. lia.
    + auto.
  - simpl. destruct (Z.gtb_spec (num_unsatisfied_grants a) 0) as [Pos|NonPos];
      [|exists a, steps; auto].
    destruct (forEnumerate_steps grants 0 steps a (fun i g H => H) Tr)
      as (a1 & steps1 & F & Tr1 & Le1 & Good1).
    unfold sweep. rewrite F. cbn [obind].
    destruct (Good1 ltac:(lia) (Sh ltac:(lia))) as [Z1|(Sh1 & Pos1 & M1)].
    + exists a1, steps1. split; [|auto].
      destruct fuel; simpl;
        destruct (Z.gtb_spec (num_unsatisfied_grants a1) 0); auto; lia.
    + apply (IH steps1 a1 Tr1 (fun _ => Sh1)); [|exact Ne].
      destruct grants; [congruence|]. simpl in M1. lia.
Qed.

End Convergence.

Section Termination.
Context {model : interf.Model}.
Variable channel_constraint : interf.ProtectionConstraint.
Variable fss_info : option interf.FssProtectionPoint.
Variable esc_antenna_info : option interf.EscInformation.
Variable region_type : option string.

Local Abbreviation interference :=
  (grantInterference channel_constraint fss_info esc_antenna_info region_type).

(** Each grant has a number of steps from which on its interference is
    below [share]. *)
Lemma bounds_exist share grants :
  (forall grant e1 e2, In grant grants -> e1 < e2 ->
     interference grant e1 < interference grant e2) ->
  (forall grant, In grant grants ->
     exists n : nat,
       interference grant (interf.max_eirp grant - inject_Z (Z.of_nat n)) < share) ->
  exists bounds,
    List.length bounds = List.length grants /\
    forall index grant bound (n : nat) eirp,
      nth_error grants index = Some grant ->
      nth_error bounds index = Some bound ->
      (bound <= n)%nat ->
      eirp == interf.max_eirp grant - inject_Z (Z.of_nat n) ->
      interference grant eirp < share.
Proof.
  induction grants as [|grant rest IH]; intros Mono Low.
  - exists []. split; [reflexivity|]. intros [|i] ? ? ? ? [=].
  - destruct IH as (bounds & Len & Reached).
    { intros g e1 e2 I. apply Mono. now right. }
    { intros g I. apply Low. now right. }
    destruct (Low grant (or_introl eq_refl)) as (n0 & Below).
    exists (S n0 :: bounds). split; [simpl; now rewrite Len|].
    intros [|i] g bound n eirp G B L E; simpl in G, B.
    + injection G as <-. injection B as <-.
      apply Qlt_trans with
        (interference grant (interf.max_eirp grant - inject_Z (Z.of_nat n0)));
        [|exact Below].
      apply Mono; [now left|]. rewrite E.
      assert (inject_Z (Z.of_nat n0) < inject_Z (Z.of_nat n))
        by (rewrite <- Zlt_Qlt; lia).
      lra.
    + exact (Reached i g bound n eirp G B L E).
Qed.

Lemma initialAllocation_tracking quota grants :
  tracking grants (repeat O (List.length grants)) (initialAllocation quota grants).
Proof.
  unfold tracking, loweredBy, initialAllocation. simpl.
  rewrite repeat_length, length_map. repeat split.
  intros index grant n G R.
  apply nth_error_In, repeat_spec in R. subst n.
  exists (interf.max_eirp grant). split; [now apply map_nth_error|].
  simpl. change (inject_Z 0) with 0. ring.
Qed.

(** The loop ends.  When the interference of every overlapping grant
    strictly decreases with its EIRP and falls below any positive bound as
    the EIRP is lowered in 1 dB steps, the convergence loop started on at
    least one grant and a positive quota returns: some number of sweeps is
    enough, every larger number gives the same allocation, no grant is
    counted unsatisfied at the end, and every candidate EIRP is the maximum
    EIRP lowered by a whole number of 1 dB steps.  Whether each grant then
    fits its share is another matter: a grant counted twice ends the loop as
    well. *)
Theorem convergenceLoop_terminates grants quota :
  grants <> [] ->
  0 < quota ->
  (forall grant e1 e2, In grant grants -> e1 < e2 ->
     interference grant e1 < interference grant e2) ->
  (forall grant bound, In grant grants -> 0 < bound ->
     exists n : nat,
       interference grant (interf.max_eirp grant - inject_Z (Z.of_nat n)) < bound) ->
  exists fuel a steps,
    (forall fuel', (fuel <= fuel')%nat ->
       convergenceLoop fuel' channel_constraint fss_info esc_antenna_info
         region_type grants (initialAllocation quota grants) = Ok a) /\
    (num_unsatisfied_grants a <= 0)%Z /\
    loweredBy grants steps (grants_eirp a).
Proof.
  intros Ne Qpos Mono Low.
  set (count := inject_Z (Z.of_nat (List.length grants))).
  assert (Cpos : 0 < count).
  { unfold count. rewrite <- (Zlt_Qlt 0). destruct grants; [congruence|].
    simpl. lia. }
  set (share := quota / count).
  assert (Spos : 0 < share).
  { unfold share. apply Qlt_shift_div_l; [exact Cpos | lra]. }
  destruct (bounds_exist share grants Mono) as (bounds & Len & Reached).
  { intros grant I. now apply Low. }
  set (a0 := initialAllocation quota grants).
  set (steps0 := repeat O (List.length grants)).
  destruct (convergenceLoop_ends channel_constraint fss_info esc_antenna_info
              region_type grants share bounds Spos Len Reached
              (measure bounds steps0 a0) steps0 a0)
    as (a & steps & Run & [_ Lowered] & Done).
  - apply initialAllocation_tracking.
  - intros _. unfold sharing, a0, initialAllocation. simpl. fold count.
    split; [exact Qpos|]. split; [|apply Qle_refl].
    field. lra.
  - apply Nat.le_refl.
  - exact Ne.
  - exists (measure bounds steps0 a0), a, steps.
    split; [|split; [exact Done | exact Lowered]].
    intros fuel' L. exact (convergenceLoop_more_fuel _ _ _ _ _ _ _ _ _ L Run).
Qed.

End Termination.

(** *** The test double satisfies the hypotheses of termination *)

Lemma Qle_bool_false x y : Qle_bool x y = false -> y < x.
Proof.
  intros E. apply Qnot_le_lt. intros L. apply Qle_bool_iff in L. congruence.
Qed.

Lemma test_dbToLinear_increasing x y :
  x < y -> test_dbToLinear x < test_dbToLinear y.
Proof.
  intros L. unfold test_dbToLinear.
  destruct (Qle_bool x 0) eqn:Ex, (Qle_bool y 0) eqn:Ey.
  - apply Qle_bool_iff in Ex, Ey.
    apply (Qinv_lt_contravar (1 - y) (1 - x)); lra.
  - apply Qle_bool_iff in Ex. apply Qle_bool_false in Ey.
    apply Qle_lt_trans with 1; [|lra].
    apply Qle_shift_inv_r; lra.
  - apply Qle_bool_iff in Ey. apply Qle_bool_false in Ex. lra.
  - lra.
Qed.

Lemma test_dbToLinear_vanishes x c bound :
  0 < bound ->
  exists n : nat, test_dbToLinear (x - inject_Z (Z.of_nat n) - c) < bound.
Proof.
  intros B.
  set (z := (Z.max 0 (Qceiling (x - c + / bound)) + 1)%Z).
  exists (Z.to_nat z). rewrite Z2Nat.id by (unfold z; lia).
  assert (Hz : x - c + / bound + 1 <= inject_Z z).
  { unfold z. rewrite inject_Z_plus. change (inject_Z 1) with 1.
    assert (inject_Z (Qceiling (x - c + / bound)) <=
            inject_Z (Z.max 0 (Qceiling (x - c + / bound))))
      by (rewrite <- Zle_Qle; lia).
    pose proof (Qle_ceiling (x - c + / bound)). lra. }
  assert (Ipos : 0 < / bound) by now apply Qinv_lt_0_compat.
  assert (Inv : bound * / bound == 1) by (apply Qmult_inv_r; lra).
  unfold test_dbToLinear.
  assert (E : Qle_bool (x - inject_Z z - c) 0 = true) by (apply Qle_bool_iff; lra).
  rewrite E. apply Qlt_shift_inv_r; [lra|].
  assert (2 + / bound <= 1 - (x - inject_Z z - c)) by lra.
  nra.
Qed.

Lemma convergenceLoop_terminates_witness :
  exists fuel a steps,
    (forall fuel', (fuel <= fuel')%nat ->
       convergenceLoop (model := test_model) fuel'
         (test_constraint interf.GWPZ_AREA) None None None test_two_grants
         (initialAllocation 10 test_two_grants) = Ok a) /\
    (num_unsatisfied_grants a <= 0)%Z /\
    loweredBy test_two_grants steps (grants_eirp a).
Proof.
  apply (convergenceLoop_terminates (model := test_model)
           (test_constraint interf.GWPZ_AREA) None None None test_two_grants 10).
  - discriminate.
  - reflexivity.
  - intros grant e1 e2 _ L. unfold grantInterference. simpl.
    apply test_dbToLinear_increasing. lra.
  - intros grant bound _ B. unfold grantInterference. simpl.
    now apply test_dbToLinear_vanishes.
Defined.

Lemma test_dbToLinear_pos x : 0 < test_dbToLinear x.
Proof.
  unfold test_dbToLinear. destruct (Qle_bool x 0) eqn:E.
  - apply Qle_bool_iff in E. apply Qinv_lt_0_compat. lra.
  - apply Qle_bool_false in E. lra.
Qed.

(** C7.  A run of the convergence loop on a quota of 10 mW and two grants
    with positive interference: the first grant (4 mW) fits its fair share
    in the first sweep and, its flag never being set, is probed and counted
    again in the second sweep; the second grant (5.5 mW after one step) is
    then accepted against the fair share of the sweep before.  The loop ends
    with a quota of -3.5 mW and a total of 13.5 mW, while the two grants
    contribute 4 + 5.5 = 9.5 mW at their final EIRPs. *)
Theorem convergenceLoop_counts_a_grant_twice :
  (forall grant eirp,
     0 < grantInterference (model := test_model)
           (test_constraint interf.GWPZ_AREA) None None None grant eirp) /\
  exists a,
    convergenceLoop (model := test_model) 2 (test_constraint interf.GWPZ_AREA)
      None None None test_two_grants (initialAllocation 10 test_two_grants) = Ok a /\
    grant_initialize_flag a = [false; false] /\
    grants_eirp a = [3; 9 # 2] /\
    grantInterference (model := test_model) (test_constraint interf.GWPZ_AREA)
      None None None (test_grant 3 true) 3 == 4 /\
    grantInterference (model := test_model) (test_constraint interf.GWPZ_AREA)
      None None None (test_grant (11 # 2) false) (9 # 2) == 11 # 2 /\
    aggr_interference a == 27 # 2 /\
    a_sas_p_interference a == 8 /\
    interference_quota a == - (7 # 2) /\
    interference_quota a < 0 /\
    (num_unsatisfied_grants a = -1)%Z.
Proof.
  split; [intros grant eirp; apply test_dbToLinear_pos|].
  eexists. split; [vm_compute; reflexivity|]. simpl.
  repeat split; reflexivity.
Qed.

(** C8.  A run of the convergence loop on a quota of 10 mW and two grants
    whose interference strictly decreases with the EIRP and falls below any
    positive bound.  The second grant, lowered nine times from 12 to 3 dBm
    (4 mW), fits its fair share of 5 mW in sweep 10 and, its flag never being
    set, is counted again in sweep 11, which brings the count of unsatisfied
    grants to 0.  The loop ends there: ten sweeps are not enough and eleven
    are.  The first grant, lowered eleven times from 30 to 19 dBm, still
    contributes 20 mW, above the last fair share of 6 mW and above the whole
    quota; it has never fitted a share and is in no total, the total of 8 mW
    being the second grant counted twice. *)
Theorem convergenceLoop_ends_before_a_grant_fits :
  (forall grant e1 e2, e1 < e2 ->
     grantInterference (model := test_model) (test_constraint interf.GWPZ_AREA)
       None None None grant e1 <
     grantInterference (model := test_model) (test_constraint interf.GWPZ_AREA)
       None None None grant e2) /\
  (forall grant bound, 0 < bound ->
     exists n : nat,
       grantInterference (model := test_model) (test_constraint interf.GWPZ_AREA)
         None None None grant (interf.max_eirp grant - inject_Z (Z.of_nat n)) <
       bound) /\
  convergenceLoop (model := test_model) 10 (test_constraint interf.GWPZ_AREA)
    None None None [test_grant 30 false; test_grant 12 true]
    (initialAllocation 10 [test_grant 30 false; test_grant 12 true]) = OutOfFuel /\
  exists a,
    convergenceLoop (model := test_model) 11 (test_constraint interf.GWPZ_AREA)
      None None None [test_grant 30 false; test_grant 12 true]
      (initialAllocation 10 [test_grant 30 false; test_grant 12 true]) = Ok a /\
    (num_unsatisfied_grants a = 0)%Z /\
    grant_initialize_flag a = [false; false] /\
    grants_eirp a = [19; 3] /\
    fair_share a == 6 /\
    grantInterference (model := test_model) (test_constraint interf.GWPZ_AREA)
      None None None (test_grant 30 false) 19 == 20 /\
    ~ grantInterference (model := test_model) (test_constraint interf.GWPZ_AREA)
        None None None (test_grant 30 false) 19 < fair_share a /\
    grantInterference (model := test_model) (test_constraint interf.GWPZ_AREA)
      None None None (test_grant 12 true) 3 == 4 /\
    aggr_interference a == 8 /\
    a_sas_p_interference a == 8 /\
    interference_quota a == 2.
Proof.
  split.
  { intros grant e1 e2 L. unfold grantInterference. simpl.
    apply test_dbToLinear_increasing. lra. }
  split.
  { intros grant bound B. unfold grantInterference. simpl.
    now apply test_dbToLinear_vanishes. }
  split; [vm_compute; reflexivity|].
  eexists. split; [vm_compute; reflexivity|]. simpl.
  repeat split; try reflexivity. intros Below. vm_compute in Below. discriminate.
Qed.

(** C5.  Runs of the two area drivers on one grid point and one grant of
    0.01 mW, with the test double: the threshold [calculateApIapRef] works
    with is the level of -81 dBm, so that the value returned for the point is
    -81, where the linear threshold of 1/83 mW gives 1/83. *)
Theorem area_drivers_pass_the_level_in_dBm :
  (exists ap_iap_ref g' value a_p asas_p,
     performIapForGwpz (model := test_model) 1 test_gwpz
       [test_grant (-99) true] [] test_empty_stores = Ok (ap_iap_ref, g') /\
     lookup3 ap_iap_ref 0 0 0 = Ok value /\
     lookup3 (aggregate_interference g') 0 0 0 = Ok a_p /\
     lookup3 (asas_interference g') 0 0 0 = Ok asas_p /\
     value = ((iap_threshold_gwpz (model := test_model) - a_p) / inject_Z 1) + asas_p /\
     iap_threshold_gwpz (model := test_model) == -81 /\
     value == -81 /\
     iap_margin_gwpz (model := test_model) == 1 # 83 /\
     ((iap_margin_gwpz (model := test_model) - a_p) / inject_Z 1) + asas_p == 1 # 83) /\
  (exists ap_iap_ref g' value a_p asas_p,
     performIapForPpa (model := test_model) 1 test_ppa_matched
       [test_grant (-99) true] [] test_pal_records test_empty_stores =
       Ok (ap_iap_ref, g') /\
     lookup3 ap_iap_ref 0 0 0 = Ok value /\
     lookup3 (aggregate_interference g') 0 0 0 = Ok a_p /\
     lookup3 (asas_interference g') 0 0 0 = Ok asas_p /\
     value = ((iap_threshold_ppa (model := test_model) - a_p) / inject_Z 1) + asas_p /\
     iap_threshold_ppa (model := test_model) == -81 /\
     value == -81 /\
     iap_margin_ppa (model := test_model) == 1 # 83 /\
     ((iap_margin_ppa (model := test_model) - a_p) / inject_Z 1) + asas_p == 1 # 83).
Proof.
  split.
  - do 5 eexists. split; [vm_compute; reflexivity|].
    split; [vm_compute; reflexivity|]. split; [vm_compute; reflexivity|].
    split; [vm_compute; reflexivity|]. split; [vm_compute; reflexivity|].
    repeat split; vm_compute; reflexivity.
  - do 5 eexists. split; [vm_compute; reflexivity|].
    split; [vm_compute; reflexivity|]. split; [vm_compute; reflexivity|].
    split; [vm_compute; reflexivity|]. split; [vm_compute; reflexivity|].
    repeat split; vm_compute; reflexivity.
Qed.

(** Evaluates the powers of ten of the decimal literals. *)
Ltac literals :=
  repeat match goal with
  | |- context [Z.pow_pos ?b ?e] =>
      let v := eval vm_compute in (Z.pow_pos b e) in
      change (Z.pow_pos b e) with v
  | H : context [Z.pow_pos ?b ?e] |- _ =>
      let v := eval vm_compute in (Z.pow_pos b e) in
      change (Z.pow_pos b e) with v in H
  end.

Section RollOff.
Context {model : interf.Model}.

Lemma onRaster_cutoff channel :
  onRaster channel ->
  Qle_bool 3650e6 (fst channel) =
  Qlt_bool 3650e6 ((fst channel + snd channel) / 2).
Proof.
  intros (k & Low & High).
  assert (C : (fst channel + snd channel) / 2 == fst channel + 2.5e6).
  { rewrite High. literals. field. }
  destruct (Nat.le_gt_cases 20 k) as [L|L].
  - assert (20 <= inject_Z (Z.of_nat k))
      by (change 20 with (inject_Z 20); rewrite <- Zle_Qle; lia).
    assert (E1 : 3650e6 <= fst channel) by (rewrite Low; literals; lra).
    assert (E2 : 3650e6 < (fst channel + snd channel) / 2)
      by (rewrite C; literals; lra).
    apply Qle_bool_iff in E1. apply Qlt_bool_iff in E2. congruence.
  - assert (inject_Z (Z.of_nat k) <= 19)
      by (change 19 with (inject_Z 19); rewrite <- Zle_Qle; lia).
    assert (E1 : fst channel < 3650e6) by (rewrite Low; literals; lra).
    assert (E2 : (fst channel + snd channel) / 2 <= 3650e6)
      by (rewrite C; literals; lra).
    apply Qlt_bool_false in E2.
    destruct (Qle_bool 3650e6 (fst channel)) eqn:E; [|congruence].
    apply Qle_bool_iff in E. lra.
Qed.

(** C6.  For a sensor and a channel of the 5 MHz raster, the channels a
    sensor run is given, the quota of the channel is the threshold lowered
    in dB by 2.5 plus the distance in MHz of the channel centre from the
    centre of channel 21 exactly when the centre of the channel is above
    3650 MHz, and the threshold itself otherwise.  With 1 MHz of 1e6 Hz and
    channel 21 centred on 3652.5 MHz, a channel centred 10 MHz above that
    centre has its quota lowered by 12.5 dB. *)
Theorem interferenceQuota_esc channel threshold :
  onRaster channel ->
  let center_freq := (fst channel + snd channel) / 2 in
  let roll_off := 2.5 + ((center_freq - interf.ESC_CH21_CF_HZ) / interf.MHZ) in
  interferenceQuota interf.ESC channel threshold =
    (if Qlt_bool 3650e6 center_freq
     then interf.dbToLinear (interf.linearToDb threshold - roll_off)
     else threshold) /\
  (interf.MHZ == 1e6 ->
   interf.ESC_CH21_CF_HZ == 3652.5e6 ->
   center_freq == interf.ESC_CH21_CF_HZ + 10 * interf.MHZ ->
   roll_off == 12.5 /\
   interferenceQuota interf.ESC channel threshold =
     interf.dbToLinear (interf.linearToDb threshold - roll_off)).
Proof.
  intros Raster center_freq roll_off.
  assert (Quota : interferenceQuota interf.ESC channel threshold =
                  (if Qlt_bool 3650e6 center_freq
                   then interf.dbToLinear (interf.linearToDb threshold - roll_off)
                   else threshold)).
  { unfold interferenceQuota. now rewrite (onRaster_cutoff channel Raster). }
  split; [exact Quota|]. intros Mhz Cf Center. split.
  - unfold roll_off. rewrite Center, Mhz. literals. field.
  - rewrite Quota.
    assert (Above : 3650e6 < center_freq)
      by (rewrite Center, Cf, Mhz; literals; lra).
    apply Qlt_bool_iff in Above. now rewrite Above.
Qed.

End RollOff.

Lemma interferenceQuota_esc_witness :
  interferenceQuota (model := test_model) interf.ESC (3660e6, 3665e6) 10 =
    (if Qlt_bool 3650e6 ((3660e6 + 3665e6) / 2)
     then test_dbToLinear
            (test_linearToDb 10 -
             (2.5 + (((3660e6 + 3665e6) / 2 - 3652.5e6) / 1e6)))
     else 10) /\
  2.5 + (((3660e6 + 3665e6) / 2 - 3652.5e6) / 1e6) == 12.5 /\
  interferenceQuota (model := test_model) interf.ESC (3660e6, 3665e6) 10 =
    test_dbToLinear
      (test_linearToDb 10 - (2.5 + (((3660e6 + 3665e6) / 2 - 3652.5e6) / 1e6))).
Proof.
  destruct (interferenceQuota_esc (model := test_model) (3660e6, 3665e6) 10)
    as (Quota & Example).
  - exists 22%nat. split; reflexivity.
  - split; [exact Quota|]. apply Example; reflexivity.
Defined.

(** ** Further properties of the combination step and of the drivers *)

Lemma apIapRefIndex_loop_returns q_p num_sas asas_info lat lon a_p_list :
  num_sas <> 0%Z ->
  forall index acc (ap_iap_ref : PostIapResult),
    (forall i, (i < List.length a_p_list)%nat ->
               exists v, lookup3 asas_info lat lon (index + i) = Ok v) ->
    dict_get lat ap_iap_ref = Some [(lon, acc)] ->
    exists ap_iap_ref',
      forEnumerate (apIapRefIndex q_p num_sas asas_info lat lon) index a_p_list
        ap_iap_ref = Ok ap_iap_ref'.
Proof.
  intros NZ. apply Z.eqb_neq in NZ.
  induction a_p_list as [|a_p rest IH]; intros index acc r L G; simpl.
  - eauto.
  - unfold apIapRefIndex at 1. rewrite NZ.
    destruct (L O) as (v & Lv); [simpl; lia|].
    rewrite Nat.add_0_r in Lv. rewrite Lv. cbn [obind].
    unfold append2. rewrite G. cbn [dict_get]. rewrite Qeq_bool_refl.
    cbn [obind dict_set]. rewrite Qeq_bool_refl.
    apply IH with (acc := acc ++ [((q_p - a_p) / inject_Z num_sas) + v]).
    + intros i Hi. rewrite Nat.add_succ_comm. apply L. simpl. lia.
    + apply dict_get_set_same.
Qed.

Lemma apIapRefLongitude_loop_returns q_p num_sas asas_info lat a_p_ch :
  num_sas <> 0%Z ->
  forall r : PostIapResult,
    (forall lon a_p_list i, In (lon, a_p_list) a_p_ch ->
       (i < List.length a_p_list)%nat ->
       exists v, lookup3 asas_info lat lon i = Ok v) ->
    exists r', forEach (apIapRefLongitude q_p num_sas asas_info lat) a_p_ch r = Ok r'.
Proof.
  intros NZ. induction a_p_ch as [|[lon l] ch IH]; intros r P; simpl; [eauto|].
  unfold setitem2. rewrite dict_get_set_same. cbn [obind].
  destruct (apIapRefIndex_loop_returns q_p num_sas asas_info lat lon l NZ
              0 [] (dict_set lat (dict_set lon [] []) (dict_set lat [] r)))
    as (r1 & E).
  { intros i Hi. apply (P lon l i); [now left | exact Hi]. }
  { apply dict_get_set_same. }
  rewrite E. cbn [obind]. apply IH.
  intros lon' l' i I. apply P. now right.
Qed.

Lemma apIapRefLatitude_loop_returns q_p num_sas asas_info a_p_info :
  num_sas <> 0%Z ->
  forall r : PostIapResult,
    (forall lat a_p_ch lon a_p_list i,
       In (lat, a_p_ch) a_p_info -> In (lon, a_p_list) a_p_ch ->
       (i < List.length a_p_list)%nat ->
       exists v, lookup3 asas_info lat lon i = Ok v) ->
    exists r', forEach (apIapRefLatitude q_p num_sas asas_info) a_p_info r = Ok r'.
Proof.
  intros NZ. induction a_p_info as [|[lat ch] rest IH]; intros r P; simpl; [eauto|].
  destruct (apIapRefLongitude_loop_returns q_p num_sas asas_info lat ch NZ r)
    as (r1 & E).
  { intros lon l i I. apply (P lat ch); [now left | exact I]. }
  rewrite E. cbn [obind]. apply IH.
  intros lat' ch' lon l i I. apply (P lat' ch'). now right.
Qed.

(** On aligned stores every total of the global store has its total in the
    store of this SAS. *)
Lemma aligned_lookups g :
  store_wf (aggregate_interference g) = true ->
  aligned g ->
  forall lat a_p_ch lon a_p_list i,
    In (lat, a_p_ch) (aggregate_interference g) -> In (lon, a_p_list) a_p_ch ->
    (i < List.length a_p_list)%nat ->
    exists v, lookup3 (asas_interference g) lat lon i = Ok v.
Proof.
  intros W A lat ch lon l i I1 I2 Hi.
  assert (G : get2 (aggregate_interference g) lat lon = Some l).
  { unfold get2. pose proof W as W'. unfold store_wf in W'.
    apply andb_true_iff in W' as [W' _].
    rewrite (dict_wf_In_get lat lat _ _ W' I1 (Qeq_refl lat)).
    apply (dict_wf_In_get lon lon); [|exact I2|apply Qeq_refl].
    exact (store_wf_inner _ _ _ W I1). }
  pose proof (get2_shape (asas_interference g) lat lon) as S1.
  pose proof (get2_shape (aggregate_interference g) lat lon) as S2.
  unfold aligned in A. rewrite A, <- S2, G in S1.
  destruct (get2 (asas_interference g) lat lon) as [l'|] eqn:G';
    simpl in S1; [|discriminate].
  injection S1 as Len.
  destruct (nth_error l' i) as [v|] eqn:N;
    [|apply nth_error_None in N; lia].
  exists v. apply lookup3_get2. eauto.
Qed.

(** On stores that are dictionaries of the same shape, and with at least
    one SAS, [calculateApIapRef] raises nothing. *)
Theorem calculateApIapRef_returns q_p num_sas g :
  store_wf (aggregate_interference g) = true ->
  aligned g ->
  num_sas <> 0%Z ->
  exists ap_iap_ref, calculateApIapRef q_p num_sas g = Ok (ap_iap_ref, g).
Proof.
  intros W A NZ. unfold calculateApIapRef, interf.GetAggregateInterferenceInfo.
  destruct (apIapRefLatitude_loop_returns q_p num_sas (asas_interference g)
              (aggregate_interference g) NZ [] (aligned_lookups g W A))
    as (r & E).
  exists r. rewrite E. reflexivity.
Qed.

Lemma calculateApIapRef_returns_witness :
  exists ap_iap_ref,
    calculateApIapRef 100 2 test_row_stores = Ok (ap_iap_ref, test_row_stores).
Proof.
  apply (calculateApIapRef_returns 100 2 test_row_stores);
    [reflexivity | reflexivity | discriminate].
Defined.

Lemma calculateApIapRef_single_longitude_witness :
  List.length [(3, [60 # 2])] = 1%nat.
Proof.
  apply (calculateApIapRef_single_longitude 100 2 test_row_stores
           [(1, [(3, [60 # 2])])] test_row_stores 1 [(3, [60 # 2])]);
    reflexivity.
Defined.

Section Reset.
Context {model : interf.Model} {workers : Workers}.

(** The sensor, GWPZ and co-channel drivers reset both stores before they
    aggregate: for one and the same order in which the workers of the pool
    end, whatever that order, the outcome of a run -- the map and the stores
    it leaves, or the exception -- does not depend on the stores the run
    finds.  Two runs whose workers end in different orders are not compared
    here. *)
Theorem drivers_forget_earlier_runs fuel uut ths g1 g2 :
  (forall entity,
     performIapForEsc fuel entity uut ths g1 =
     performIapForEsc fuel entity uut ths g2) /\
  (forall entity,
     performIapForGwpz fuel entity uut ths g1 =
     performIapForGwpz fuel entity uut ths g2) /\
  (forall entity,
     performIapForFssCochannel fuel entity uut ths g1 =
     performIapForFssCochannel fuel entity uut ths g2).
Proof.
  split; [|split]; intros entity.
  - unfold performIapForEsc, bind, lift.
    destruct (antPatternGain _); reflexivity.
  - unfold performIapForGwpz.
    destruct (zone_features entity); reflexivity.
  - unfold performIapForFssCochannel.
    destruct (deploymentParam entity); reflexivity.
Qed.

(** The stores stay dictionaries of the same shape through a reset and any
    sequence of calls of [iapPointConstraint]. *)
Theorem stores_stay_dictionaries fuel invocations g g' :
  (resetStores ;;; forM (invoke fuel) invocations) g = Ok (tt, g') ->
  store_wf (asas_interference g') = true /\
  store_wf (aggregate_interference g') = true /\
  aligned g'.
Proof.
  intros H. unfold resetStores, bind in H. simpl in H.
  assert (Step : forall i g0 u g1,
             invoke fuel i g0 = Ok (u, g1) ->
             (store_wf (asas_interference g0) = true /\
              store_wf (aggregate_interference g0) = true) /\ aligned g0 ->
             (store_wf (asas_interference g1) = true /\
              store_wf (aggregate_interference g1) = true) /\ aligned g1).
  { intros i g0 u g1 R [W A]. unfold invoke in R. split.
    - exact (iapPointConstraint_store_wf _ _ _ _ _ _ _ _ _ _ _ _ _ _ R W).
    - exact (iapPointConstraint_aligned _ _ _ _ _ _ _ _ _ _ _ _ _ _ R A). }
  destruct (forM_invariant _ (invoke fuel) Step _ _ _ _ H) as [[W1 W2] A].
  - repeat split.
  - auto.
Qed.

End Reset.

Lemma stores_stay_dictionaries_witness :
  store_wf (asas_interference test_final_stores) = true /\
  store_wf (aggregate_interference test_final_stores) = true /\
  aligned test_final_stores.
Proof.
  apply (stores_stay_dictionaries (model := test_model) 10 test_invocations
           test_used_stores).
  vm_compute. reflexivity.
Defined.

(** The total of a point and channel is what its quota has lost: at the end
    of the loop [aggr_interference] is the first quota less the quota left. *)
Theorem convergenceLoop_conservation {model : interf.Model} fuel channel_constraint
  fss_info esc_antenna_info region_type grants quota a :
  convergenceLoop fuel channel_constraint fss_info esc_antenna_info region_type
    grants (initialAllocation quota grants) = Ok a ->
  aggr_interference a == quota - interference_quota a.
Proof.
  intros H.
  apply (convergenceLoop_conserved channel_constraint fss_info esc_antenna_info
           region_type grants quota fuel _ _ H).
  unfold conserved, initialAllocation. simpl. ring.
Qed.

Lemma convergenceLoop_conservation_witness :
  27 # 2 == 10 - - (7 # 2).
Proof.
  apply (convergenceLoop_conservation (model := test_model) 2
           (test_constraint interf.GWPZ_AREA) None None None test_two_grants 10
           {| interference_quota := - (7 # 2);
              num_unsatisfied_grants := -1;
              fair_share := 7 # 2;
              aggr_interference := 27 # 2;
              a_sas_p_interference := 8;
              grant_initialize_flag := [false; false];
              grants_eirp := [3; 9 # 2] |}).
  vm_compute. reflexivity.
Defined.

(** One grant whose interference at its maximum EIRP is below the quota is
    satisfied in the first sweep: the total is its interference, the quota
    left is the rest, and its EIRP stays the maximum. *)
Theorem convergenceLoop_single_grant {model : interf.Model} channel_constraint
  fss_info esc_antenna_info region_type grant quota :
  grantInterference channel_constraint fss_info esc_antenna_info region_type
    grant (interf.max_eirp grant) < quota ->
  exists a,
    convergenceLoop 1 channel_constraint fss_info esc_antenna_info region_type
      [grant] (initialAllocation quota [grant]) = Ok a /\
    aggr_interference a ==
      grantInterference channel_constraint fss_info esc_antenna_info region_type
        grant (interf.max_eirp grant) /\
    interference_quota a ==
      quota - grantInterference channel_constraint fss_info esc_antenna_info
                region_type grant (interf.max_eirp grant) /\
    grants_eirp a = [interf.max_eirp grant] /\
    num_unsatisfied_grants a = 0%Z.
Proof.
  intros Fits.
  assert (T : Qlt_bool
                (grantInterference channel_constraint fss_info esc_antenna_info
                   region_type grant (interf.max_eirp grant))
                (quota / inject_Z 1) = true).
  { apply Qlt_bool_iff. change (inject_Z 1) with 1.
    apply Qlt_shift_div_l; lra. }
  eexists. split.
  - cbn. unfold probeGrant. cbn. rewrite T. cbn. reflexivity.
  - cbn. repeat split; ring.
Qed.

Lemma convergenceLoop_single_grant_witness :
  exists a,
    convergenceLoop (model := test_model) 1 (test_constraint interf.GWPZ_AREA)
      None None None [test_grant 39 true]
      (initialAllocation 50 [test_grant 39 true]) = Ok a /\
    aggr_interference a ==
      grantInterference (model := test_model) (test_constraint interf.GWPZ_AREA)
        None None None (test_grant 39 true) 39 /\
    interference_quota a ==
      50 - grantInterference (model := test_model)
             (test_constraint interf.GWPZ_AREA) None None None
             (test_grant 39 true) 39 /\
    grants_eirp a = [39] /\
    num_unsatisfied_grants a = 0%Z.
Proof.
  apply (convergenceLoop_single_grant (model := test_model)
           (test_constraint interf.GWPZ_AREA) None None None
           (test_grant 39 true) 50).
  reflexivity.
Defined.

(** ** The convergence loop, whatever the interference *)

Section Sweeps.
Context {model : interf.Model}.
Variable channel_constraint : interf.ProtectionConstraint.
Variable fss_info : option interf.FssProtectionPoint.
Variable esc_antenna_info : option interf.EscInformation.
Variable region_type : option string.
Variable grants : list interf.Grant.

Local Abbreviation interference :=
  (grantInterference channel_constraint fss_info esc_antenna_info region_type).
Local Abbreviation probe :=
  (probeGrant channel_constraint fss_info esc_antenna_info region_type).

(** A probe of a grant of the list never fails: it reads the flag and the
    EIRP at the index of the grant, and ends in one of two allocations. *)
Lemma probeGrant_cases steps a index grant :
  tracking grants steps a ->
  nth_error grants index = Some grant ->
  exists eirp n,
    nth_error (grants_eirp a) index = Some eirp /\
    nth_error steps index = Some n /\
    eirp == interf.max_eirp grant - inject_Z (Z.of_nat n) /\
    probe a index grant =
      Ok (if Qlt_bool (interference grant eirp) (fair_share a)
          then satisfied a grant (interference grant eirp)
          else lowered a index eirp).
Proof.
  intros [Flags (LenS & LenE & Low)] G.
  assert (HI : (index < List.length grants)%nat)
    by (apply nth_error_Some; congruence).
  destruct (nth_error steps index) as [n|] eqn:HS;
    [|apply nth_error_None in HS; lia].
  destruct (Low index grant n G HS) as (eirp & E & Eq).
  exists eirp, n. split; [exact E|]. split; [reflexivity|]. split; [exact Eq|].
  assert (F : nth_error (grant_initialize_flag a) index = Some false)
    by (rewrite Flags; exact (nth_error_repeat false HI)).
  unfold probeGrant. rewrite F, E.
  cbv zeta. destruct (Qlt_bool _ _); reflexivity.
Qed.

Lemma satisfied_tracking steps a grant x :
  tracking grants steps a -> tracking grants steps (satisfied a grant x).
Proof.
  intros Tr. exact Tr.
Qed.

Lemma lowered_tracking steps a index grant eirp n :
  tracking grants steps a ->
  nth_error grants index = Some grant ->
  nth_error steps index = Some n ->
  eirp == interf.max_eirp grant - inject_Z (Z.of_nat n) ->
  tracking grants (list_set index (S n) steps) (lowered a index eirp).
Proof.
  intros [Flags (LenS & LenE & Low)] G HS Eq.
  assert (HI : (index < List.length grants)%nat)
    by (apply nth_error_Some; congruence).
  split; [exact Flags|]. unfold loweredBy, lowered. cbn [grants_eirp].
  rewrite !length_list_set. split; [exact LenS|]. split; [exact LenE|].
  intros i g m Gi Si. destruct (Nat.eq_dec i index) as [->|Ne].
  - rewrite nth_error_list_set_same in Si by lia.
    rewrite nth_error_list_set_same by lia.
    injection Si as <-. rewrite G in Gi. injection Gi as <-.
    exists (eirp - 1). split; [reflexivity|].
    rewrite Nat2Z.inj_succ, <- Z.add_1_r, inject_Z_plus, Eq.
    change (inject_Z 1) with 1. ring.
  - rewrite nth_error_list_set_other in Si by exact Ne.
    rewrite nth_error_list_set_other by exact Ne. exact (Low i g m Gi Si).
Qed.

(** *** Invariants of the loop *)

Variable P : Allocation -> Prop.

Hypothesis P_satisfied :
  forall a grant eirp (n : nat),
    In grant grants ->
    eirp == interf.max_eirp grant - inject_Z (Z.of_nat n) ->
    interference grant eirp < fair_share a ->
    P a -> P (satisfied a grant (interference grant eirp)).

Hypothesis P_lowered :
  forall a index grant eirp (n : nat),
    In grant grants ->
    eirp == interf.max_eirp grant - inject_Z (Z.of_nat n) ->
    fair_share a <= interference grant eirp ->
    P a -> P (lowered a index eirp).

Lemma probeGrant_invariant steps a index grant :
  tracking grants steps a ->
  nth_error grants index = Some grant ->
  P a ->
  exists a' steps',
    probe a index grant = Ok a' /\ tracking grants steps' a' /\ P a'.
Proof.
  intros Tr G Pa.
  destruct (probeGrant_cases steps a index grant Tr G)
    as (eirp & n & E & HS & Eq & ->).
  pose proof (nth_error_In _ _ G) as I.
  destruct (Qlt_bool _ _) eqn:T.
  - apply Qlt_bool_iff in T. eexists. exists steps.
    split; [reflexivity|]. split; [exact Tr|].
    exact (P_satisfied a grant eirp n I Eq T Pa).
  - apply Qlt_bool_false in T. eexists. exists (list_set index (S n) steps).
    split; [reflexivity|].
    split; [exact (lowered_tracking steps a index grant eirp n Tr G HS Eq)|].
    exact (P_lowered a index grant eirp n I Eq T Pa).
Qed.

Lemma forEnumerate_invariant suffix :
  forall index steps a,
    (forall i grant, nth_error suffix i = Some grant ->
                     nth_error grants (index + i) = Some grant) ->
    tracking grants steps a ->
    P a ->
    exists a' steps',
      forEnumerate probe index suffix a = Ok a' /\
      tracking grants steps' a' /\ P a'.
Proof.
  induction suffix as [|grant suffix IH]; intros index steps a At Tr Pa.
  - exists a, steps. simpl. auto.
  - assert (G : nth_error grants index = Some grant).
    { rewrite <- (Nat.add_0_r index). now apply At. }
    destruct (probeGrant_invariant steps a index grant Tr G Pa)
      as (a1 & steps1 & E & Tr1 & P1).
    destruct (IH (S index) steps1 a1) as (a2 & steps2 & F & Tr2 & P2).
    { intros i g Hi. rewrite Nat.add_succ_comm. now apply At. }
    { exact Tr1. }
    { exact P1. }
    exists a2, steps2. cbn [forEnumerate]. rewrite E. cbn [obind]. auto.
Qed.

(** A run of the loop is still going when its sweeps are used up, or it has
    ended in an allocation that counts no grant unsatisfied. *)
Lemma convergenceLoop_invariant fuel :
  forall steps a,
    tracking grants steps a ->
    P a ->
    convergenceLoop fuel channel_constraint fss_info esc_antenna_info
      region_type grants a = OutOfFuel \/
    exists a' steps',
      convergenceLoop fuel channel_constraint fss_info esc_antenna_info
        region_type grants a = Ok a' /\
      tracking grants steps' a' /\ P a' /\
      (num_unsatisfied_grants a' <= 0)%Z.
Proof.
  induction fuel as [|fuel IH]; intros steps a Tr Pa; simpl;
    destruct (Z.gtb_spec (num_unsatisfied_grants a) 0) as [Pos|NonPos];
    try (right; exists a, steps; auto; fail).
  - now left.
  - destruct (forEnumerate_invariant grants 0 steps a (fun i g H => H) Tr Pa)
      as (a1 & steps1 & F & Tr1 & P1).
    unfold sweep. rewrite F. cbn [obind]. exact (IH steps1 a1 Tr1 P1).
Qed.

End Sweeps.

Section LoopResults.
Context {model : interf.Model}.
Variable channel_constraint : interf.ProtectionConstraint.
Variable fss_info : option interf.FssProtectionPoint.
Variable esc_antenna_info : option interf.EscInformation.
Variable region_type : option string.

Local Abbreviation interference :=
  (grantInterference channel_constraint fss_info esc_antenna_info region_type).

(** The loop raises nothing, whatever the grants and the quota. *)
Lemma convergenceLoop_raises_nothing fuel grants quota e :
  convergenceLoop fuel channel_constraint fss_info esc_antenna_info region_type
    grants (initialAllocation quota grants) <> Raise e.
Proof.
  destruct (convergenceLoop_invariant channel_constraint fss_info esc_antenna_info
              region_type grants (fun _ => True) (fun _ _ _ _ _ _ _ _ => I)
              (fun _ _ _ _ _ _ _ _ _ => I) fuel _ _
              (initialAllocation_tracking quota grants) I)
    as [-> | (a & steps & -> & _)]; discriminate.
Qed.

(** Whatever the interference the collaborators compute, a run of the
    convergence loop that ends leaves every flag False, as line 161 has set
    it, counts no grant unsatisfied, and has lowered each EIRP from the
    maximum by a whole number of 1 dB steps. *)
Theorem convergenceLoop_never_sets_a_flag fuel grants quota a :
  convergenceLoop fuel channel_constraint fss_info esc_antenna_info region_type
    grants (initialAllocation quota grants) = Ok a ->
  grant_initialize_flag a = repeat false (List.length grants) /\
  (num_unsatisfied_grants a <= 0)%Z /\
  exists steps, loweredBy grants steps (grants_eirp a).
Proof.
  intros H.
  destruct (convergenceLoop_invariant channel_constraint fss_info esc_antenna_info
              region_type grants (fun _ => True) (fun _ _ _ _ _ _ _ _ => I)
              (fun _ _ _ _ _ _ _ _ _ => I) fuel _ _
              (initialAllocation_tracking quota grants) I)
    as [E | (a' & steps & E & [Flags Low] & _ & Done)]; rewrite E in H;
    [discriminate|].
  injection H as <-. split; [exact Flags|]. split; [exact Done|]. eauto.
Qed.

(** The part of this SAS in the total of a point and a channel. *)
Lemma convergenceLoop_shares fuel grants quota :
  (forall grant (n : nat) eirp, In grant grants ->
     eirp == interf.max_eirp grant - inject_Z (Z.of_nat n) ->
     0 <= interference grant eirp) ->
  convergenceLoop fuel channel_constraint fss_info esc_antenna_info region_type
    grants (initialAllocation quota grants) = OutOfFuel \/
  exists a,
    convergenceLoop fuel channel_constraint fss_info esc_antenna_info region_type
      grants (initialAllocation quota grants) = Ok a /\
    0 <= a_sas_p_interference a <= aggr_interference a.
Proof.
  intros Pos.
  destruct (convergenceLoop_invariant channel_constraint fss_info esc_antenna_info
              region_type grants
              (fun a => 0 <= a_sas_p_interference a <= aggr_interference a))
    with (fuel := fuel) (steps := repeat O (List.length grants))
         (a := initialAllocation quota grants)
    as [E | (a & steps & E & _ & Pa & _)].
  - intros a grant eirp n In Eq _ [L U]. unfold satisfied. simpl.
    pose proof (Pos grant n eirp In Eq).
    destruct (interf.is_managed_grant grant); split; lra.
  - intros a index grant eirp n _ _ _ Pa. exact Pa.
  - apply initialAllocation_tracking.
  - simpl. split; apply Qle_refl.
  - now left.
  - right. eauto.
Qed.

(** With the grants all managed by this SAS its total is the total of all
    the SASs. *)
Lemma convergenceLoop_managed fuel grants quota a :
  (forall grant, In grant grants -> interf.is_managed_grant grant = true) ->
  convergenceLoop fuel channel_constraint fss_info esc_antenna_info region_type
    grants (initialAllocation quota grants) = Ok a ->
  a_sas_p_interference a == aggr_interference a.
Proof.
  intros Managed H.
  destruct (convergenceLoop_invariant channel_constraint fss_info
              esc_antenna_info region_type grants
              (fun a => a_sas_p_interference a == aggr_interference a))
    with (fuel := fuel) (steps := repeat O (List.length grants))
         (a := initialAllocation quota grants)
    as [E | (a' & steps & E & _ & Pa & _)].
  - intros a0 grant eirp n In _ _ Pa. unfold satisfied. simpl.
    rewrite (Managed grant In), Pa. reflexivity.
  - intros a0 index grant eirp n _ _ _ Pa. exact Pa.
  - apply initialAllocation_tracking.
  - reflexivity.
  - rewrite E in H. discriminate.
  - rewrite E in H. now injection H as <-.
Qed.

(** With no grant managed by this SAS its total is 0. *)
Lemma convergenceLoop_foreign fuel grants quota a :
  (forall grant, In grant grants -> interf.is_managed_grant grant = false) ->
  convergenceLoop fuel channel_constraint fss_info esc_antenna_info region_type
    grants (initialAllocation quota grants) = Ok a ->
  a_sas_p_interference a == 0.
Proof.
  intros Foreign H.
  destruct (convergenceLoop_invariant channel_constraint fss_info
              esc_antenna_info region_type grants
              (fun a => a_sas_p_interference a == 0))
    with (fuel := fuel) (steps := repeat O (List.length grants))
         (a := initialAllocation quota grants)
    as [E | (a' & steps & E & _ & Pa & _)].
  - intros a0 grant eirp n In _ _ Pa. unfold satisfied. simpl.
    rewrite (Foreign grant In). exact Pa.
  - intros a0 index grant eirp n _ _ _ Pa. exact Pa.
  - apply initialAllocation_tracking.
  - reflexivity.
  - rewrite E in H. discriminate.
  - rewrite E in H. now injection H as <-.
Qed.

(** When no power is negative, the total of this SAS at the end of the
    loop lies between 0 and the total of all the SASs; it is that total when
    this SAS manages every grant, and 0 when it manages none. *)
Theorem convergenceLoop_local_total fuel grants quota a :
  convergenceLoop fuel channel_constraint fss_info esc_antenna_info region_type
    grants (initialAllocation quota grants) = Ok a ->
  ((forall grant (n : nat) eirp, In grant grants ->
      eirp == interf.max_eirp grant - inject_Z (Z.of_nat n) ->
      0 <= interference grant eirp) ->
   0 <= a_sas_p_interference a <= aggr_interference a) /\
  ((forall grant, In grant grants -> interf.is_managed_grant grant = true) ->
   a_sas_p_interference a == aggr_interference a) /\
  ((forall grant, In grant grants -> interf.is_managed_grant grant = false) ->
   a_sas_p_interference a == 0).
Proof.
  intros H. split; [|split].
  - intros Pos.
    destruct (convergenceLoop_shares fuel grants quota Pos) as [E|(a' & E & R)];
      rewrite E in H; [discriminate|].
    now injection H as <-.
  - intros Managed. exact (convergenceLoop_managed fuel grants quota a Managed H).
  - intros Foreign. exact (convergenceLoop_foreign fuel grants quota a Foreign H).
Qed.

(** The loop has no bound on its sweeps: when no grant of the list has, at
    any of the EIRPs the loop tries, an interference below the first fair
    share, no number of sweeps ends it. *)
Theorem convergenceLoop_never_ends grants quota :
  grants <> [] ->
  (forall grant (n : nat) eirp, In grant grants ->
     eirp == interf.max_eirp grant - inject_Z (Z.of_nat n) ->
     quota / inject_Z (Z.of_nat (List.length grants)) <= interference grant eirp) ->
  forall fuel,
    convergenceLoop fuel channel_constraint fss_info esc_antenna_info region_type
      grants (initialAllocation quota grants) = OutOfFuel.
Proof.
  intros Ne Never fuel.
  destruct (convergenceLoop_invariant channel_constraint fss_info esc_antenna_info
              region_type grants
              (fun a =>
                 num_unsatisfied_grants a = Z.of_nat (List.length grants) /\
                 fair_share a = quota / inject_Z (Z.of_nat (List.length grants))))
    with (fuel := fuel) (steps := repeat O (List.length grants))
         (a := initialAllocation quota grants)
    as [E | (a & steps & _ & _ & [Count _] & Done)].
  - intros a grant eirp n In Eq Fits [_ Share]. exfalso.
    rewrite Share in Fits. pose proof (Never grant n eirp In Eq). lra.
  - intros a index grant eirp n _ _ _ Pa. exact Pa.
  - apply initialAllocation_tracking.
  - split; reflexivity.
  - exact E.
  - exfalso. destruct grants; [congruence|]. simpl in Count. lia.
Qed.

End LoopResults.

Lemma convergenceLoop_never_sets_a_flag_witness :
  [false; false] = repeat false (List.length test_two_grants) /\
  (-1 <= 0)%Z /\
  exists steps, loweredBy test_two_grants steps [3; 9 # 2].
Proof.
  apply (convergenceLoop_never_sets_a_flag (model := test_model)
           (test_constraint interf.GWPZ_AREA) None None None 2 test_two_grants 10
           {| interference_quota := - (7 # 2);
              num_unsatisfied_grants := -1;
              fair_share := 7 # 2;
              aggr_interference := 27 # 2;
              a_sas_p_interference := 8;
              grant_initialize_flag := [false; false];
              grants_eirp := [3; 9 # 2] |}).
  vm_compute. reflexivity.
Defined.

Lemma convergenceLoop_local_total_witness :
  0 <= 8 <= 27 # 2.
Proof.
  destruct (convergenceLoop_local_total (model := test_model)
              (test_constraint interf.GWPZ_AREA) None None None 2 test_two_grants 10
              {| interference_quota := - (7 # 2);
                 num_unsatisfied_grants := -1;
                 fair_share := 7 # 2;
                 aggr_interference := 27 # 2;
                 a_sas_p_interference := 8;
                 grant_initialize_flag := [false; false];
                 grants_eirp := [3; 9 # 2] |})
    as (Between & _).
  - vm_compute. reflexivity.
  - apply Between. intros grant n eirp _ _.
    apply Qlt_le_weak, test_dbToLinear_pos.
Defined.

Lemma convergenceLoop_never_ends_witness :
  convergenceLoop (model := test_model) 50 (test_constraint interf.GWPZ_AREA)
    None None None test_two_grants (initialAllocation 0 test_two_grants) =
  OutOfFuel.
Proof.
  apply (convergenceLoop_never_ends (model := test_model)
           (test_constraint interf.GWPZ_AREA) None None None test_two_grants 0).
  - discriminate.
  - intros grant n eirp _ _.
    apply Qle_trans with 0; [discriminate|].
    apply Qlt_le_weak, test_dbToLinear_pos.
Defined.

(** ** Sweeps in which every grant fits *)

Lemma satisfied_sharing share a grant x :
  sharing share a ->
  (0 < num_unsatisfied_grants a - 1)%Z ->
  x < fair_share a ->
  sharing share (satisfied a grant x).
Proof.
  intros (Qpos & Fair & Share) Pos Fits. unfold sharing, satisfied. simpl.
  destruct (Z.eqb_spec (num_unsatisfied_grants a - 1) 0) as [Z0|_]; [lia|].
  simpl.
  assert (N1 : 0 < inject_Z (num_unsatisfied_grants a - 1))
    by (rewrite <- (Zlt_Qlt 0); lia).
  assert (Inj : inject_Z (num_unsatisfied_grants a) ==
                inject_Z (num_unsatisfied_grants a - 1) + 1).
  { rewrite <- (inject_Z_plus _ 1). now replace
      (num_unsatisfied_grants a - 1 + 1)%Z with (num_unsatisfied_grants a) by lia. }
  rewrite Inj in Fair.
  assert (Fpos : 0 < fair_share a) by nra.
  assert (Left : fair_share a * inject_Z (num_unsatisfied_grants a - 1) <
                 interference_quota a - x) by lra.
  split; [|split].
  - assert (0 < fair_share a * inject_Z (num_unsatisfied_grants a - 1)) by nra.
    lra.
  - field. lra.
  - apply Qle_trans with (fair_share a); [exact Share|].
    apply Qle_shift_div_l; [exact N1 | lra].
Qed.

Section Fitting.
Context {model : interf.Model}.
Variable channel_constraint : interf.ProtectionConstraint.
Variable fss_info : option interf.FssProtectionPoint.
Variable esc_antenna_info : option interf.EscInformation.
Variable region_type : option string.

Local Abbreviation interference :=
  (grantInterference channel_constraint fss_info esc_antenna_info region_type).
Local Abbreviation probe :=
  (probeGrant channel_constraint fss_info esc_antenna_info region_type).

Variable grants : list interf.Grant.
Variable share : Q.

Lemma forEnumerate_all_fit suffix :
  forall index a,
    (forall i grant, nth_error suffix i = Some grant ->
                     nth_error grants (index + i) = Some grant) ->
    grant_initialize_flag a = repeat false (List.length grants) ->
    grants_eirp a = map interf.max_eirp grants ->
    num_unsatisfied_grants a = Z.of_nat (List.length suffix) ->
    (suffix <> [] -> sharing share a) ->
    (forall grant, In grant suffix ->
       interference grant (interf.max_eirp grant) < share) ->
    exists a',
      forEnumerate probe index suffix a = Ok a' /\
      grants_eirp a' = map interf.max_eirp grants /\
      num_unsatisfied_grants a' = 0%Z /\
      aggr_interference a' ==
        aggr_interference a +
        sumQ (map (fun grant => interference grant (interf.max_eirp grant)) suffix) /\
      a_sas_p_interference a' ==
        a_sas_p_interference a +
        sumQ (map (fun grant =>
                     managedShare grant
                       (interference grant (interf.max_eirp grant))) suffix) /\
      (suffix <> [] -> 0 < interference_quota a').
Proof.
  induction suffix as [|grant suffix IH]; intros index a At Flags Eirps Num Sh Fit.
  - exists a. simpl. repeat split; auto; try ring. congruence.
  - assert (G : nth_error grants index = Some grant).
    { rewrite <- (Nat.add_0_r index). now apply At. }
    assert (HI : (index < List.length grants)%nat)
      by (apply nth_error_Some; congruence).
    assert (F : nth_error (grant_initialize_flag a) index = Some false)
      by (rewrite Flags; exact (nth_error_repeat false HI)).
    assert (E : nth_error (grants_eirp a) index = Some (interf.max_eirp grant))
      by (rewrite Eirps; now apply map_nth_error).
    destruct (Sh ltac:(discriminate)) as (Qpos & Fair & Share).
    pose proof (Fit grant (or_introl eq_refl)) as Fits.
    assert (T : Qlt_bool (interference grant (interf.max_eirp grant))
                  (fair_share a) = true) by (apply Qlt_bool_iff; lra).
    set (a1 := satisfied a grant (interference grant (interf.max_eirp grant))).
    assert (P : probe a index grant = Ok a1).
    { unfold probeGrant. rewrite F, E. cbv zeta. rewrite T. reflexivity. }
    destruct (IH (S index) a1) as (a' & Run & Eirps' & Num' & Aggr & Local & Left).
    + intros i g Hi. rewrite Nat.add_succ_comm. now apply At.
    + exact Flags.
    + exact Eirps.
    + unfold a1, satisfied. cbn [num_unsatisfied_grants]. rewrite Num.
      cbn [List.length]. lia.
    + intros Ne. apply satisfied_sharing; [now split | | lra].
      rewrite Num. destruct suffix; [congruence|]. cbn [List.length]. lia.
    + intros g In. apply Fit. now right.
    + exists a'. cbn [forEnumerate]. rewrite P. cbn [obind].
      split; [exact Run|]. split; [exact Eirps'|]. split; [exact Num'|].
      split; [|split].
      * rewrite Aggr. unfold a1, satisfied. simpl. ring.
      * rewrite Local. unfold a1, satisfied, managedShare. simpl.
        destruct (interf.is_managed_grant grant); ring.
      * intros _. destruct suffix as [|g suffix]; [|apply Left; discriminate].
        simpl in Run. injection Run as <-. unfold a1, satisfied. simpl.
        simpl in Num. rewrite Num in Fair. change (inject_Z 1) with 1 in Fair.
        lra.
Qed.

End Fitting.

Section AllFit.
Context {model : interf.Model}.
Variable channel_constraint : interf.ProtectionConstraint.
Variable fss_info : option interf.FssProtectionPoint.
Variable esc_antenna_info : option interf.EscInformation.
Variable region_type : option string.

Local Abbreviation interference :=
  (grantInterference channel_constraint fss_info esc_antenna_info region_type).


End AllFit.


(** ** What a call of [iapPointConstraint] writes *)

Lemma get2_Qeq info lat lat' lon lon' :
  lat == lat' -> lon == lon' -> get2 info lat lon = get2 info lat' lon'.
Proof.
  intros E1 E2. unfold get2. rewrite (dict_get_Qeq lat lat' info E1).
  destruct (dict_get lat' info) as [d|]; [|reflexivity].
  exact (dict_get_Qeq lon lon' d E2).
Qed.

(** Reading a store after a write. *)
Lemma get2_Set lat lon v store lat' lon' :
  get2 (interf.SetAggregateInterferenceInfo lat lon v store) lat' lon' =
  if Qeq_bool lat' lat && Qeq_bool lon' lon
  then Some (match get2 store lat lon with Some l => l | None => [] end ++ [v])
  else get2 store lat' lon'.
Proof.
  unfold interf.SetAggregateInterferenceInfo, get2.
  destruct (Qeq_bool lat' lat) eqn:E1; cbn [andb].
  - rewrite (dict_get_Qeq lat' lat _ (Qeq_bool_eq _ _ E1)), dict_get_set_same.
    destruct (Qeq_bool lon' lon) eqn:E2.
    + rewrite (dict_get_Qeq lon' lon _ (Qeq_bool_eq _ _ E2)), dict_get_set_same.
      destruct (dict_get lat store); reflexivity.
    + rewrite dict_get_set_other by exact E2.
      rewrite (dict_get_Qeq lat' lat store (Qeq_bool_eq _ _ E1)).
      destruct (dict_get lat store); reflexivity.
  - now rewrite dict_get_set_other by exact E1.
Qed.

Lemma extended_app old added1 added2 :
  extended (extended old added1) added2 = extended old (added1 ++ added2).
Proof.
  destruct added2 as [|y added2]; [now rewrite app_nil_r|].
  destruct added1 as [|x added1]; [reflexivity|].
  simpl. now rewrite <- app_assoc.
Qed.

Lemma appendedAt_refl point store : appendedAt point [] store store.
Proof.
  intros lat lon. now destruct (atPoint point lat lon).
Qed.

Lemma appendedAt_Set point v store :
  appendedAt point [v] store
    (interf.SetAggregateInterferenceInfo (fst point) (snd point) v store).
Proof.
  intros lat lon. rewrite get2_Set. unfold atPoint.
  destruct (Qeq_bool lat (fst point) && Qeq_bool lon (snd point)) eqn:E;
    [|reflexivity].
  apply andb_true_iff in E as [E1 E2].
  rewrite (get2_Qeq store lat (fst point) lon (snd point))
    by now apply Qeq_bool_eq.
  reflexivity.
Qed.

Lemma appendedAt_trans point added1 added2 store0 store1 store2 :
  appendedAt point added1 store0 store1 ->
  appendedAt point added2 store1 store2 ->
  appendedAt point (added1 ++ added2) store0 store2.
Proof.
  intros H1 H2 lat lon. rewrite H2, H1.
  destruct (atPoint point lat lon); [apply extended_app | reflexivity].
Qed.

Lemma writeAll_appendedAt point values :
  forall store, appendedAt point values store (writeAll point values store).
Proof.
  induction values as [|v values IH]; intros store; [apply appendedAt_refl|].
  exact (appendedAt_trans _ [v] _ _ _ _ (appendedAt_Set _ _ _) (IH _)).
Qed.

Lemma forM_raises_nothing {A : Type} (body : A -> M unit) :
  (forall x g e, body x g <> Raise e) ->
  forall l g e, forM body l g <> Raise e.
Proof.
  intros Step. induction l as [|x l IH]; intros g e; simpl; [discriminate|].
  unfold bind. pose proof (Step x g) as S1.
  destruct (body x g) as [[u g1]|e1|]; simpl;
    [apply IH | intros _; now apply (S1 e1) | discriminate].
Qed.

Section Writes.
Context {model : interf.Model}.
Variable fuel : nat.
Variable protection_point : Q * Q.
Variable low_freq high_freq : Q.
Variable grant_objects : list interf.Grant.
Variable fss_info : option interf.FssProtectionPoint.
Variable esc_antenna_info : option interf.EscInformation.
Variable region_type : option string.
Variable threshold : Q.
Variable protection_ent_type : interf.ProtectedEntityType.

Local Abbreviation grants_inside :=
  (interf.findGrantsInsideNeighborhood grant_objects protection_point
     protection_ent_type).
Local Abbreviation body :=
  (iapChannel fuel protection_point low_freq high_freq grants_inside fss_info
     esc_antenna_info region_type threshold protection_ent_type).
Local Abbreviation overlapped :=
  (fun channel : Q * Q =>
     match neighborhoodGrants protection_point low_freq high_freq grants_inside
             protection_ent_type channel with
     | [] => false
     | _ :: _ => true
     end).
Local Abbreviation totalsOf :=
  (channelTotals fuel protection_point low_freq high_freq grant_objects fss_info
     esc_antenna_info region_type threshold protection_ent_type).

Lemma iapChannel_raises_nothing channel g e : body channel g <> Raise e.
Proof.
  unfold iapChannel.
  destruct (interf.findOverlappingGrants _ _) as [|grant grants] eqn:O;
    [discriminate|].
  pose proof (convergenceLoop_raises_nothing
                (channelConstraint protection_point low_freq high_freq
                   protection_ent_type channel)
                fss_info esc_antenna_info region_type fuel (grant :: grants)
                (interferenceQuota protection_ent_type channel threshold)) as N.
  destruct (convergenceLoop _ _ _ _ _ _ _) as [a|e'|]; simpl;
    [discriminate | intros [= <-]; now apply (N e') | discriminate].
Qed.

Lemma forM_iapChannel channels :
  forall g u g',
    forM body channels g = Ok (u, g') ->
    exists totals,
      Forall2 totalsOf (filter overlapped channels) totals /\
      asas_interference g' =
        writeAll protection_point (map fst totals) (asas_interference g) /\
      aggregate_interference g' =
        writeAll protection_point (map snd totals) (aggregate_interference g).
Proof.
  induction channels as [|channel channels IH]; intros g u g' H.
  - injection H as _ <-. exists []. simpl. split; [constructor|]. auto.
  - cbn [forM] in H. apply bind_inv in H as ([] & g1 & E & H).
    destruct (IH _ _ _ H) as (totals & F & A1 & A2).
    unfold iapChannel in E. cbn [filter]. unfold neighborhoodGrants at 1.
    destruct (interf.findOverlappingGrants _ _) as [|grant grants] eqn:O.
    + injection E as <-. exists totals. auto.
    + destruct (convergenceLoop _ _ _ _ _ _ _) as [a| |] eqn:L; try discriminate.
      simpl in E. injection E as <-.
      exists ((a_sas_p_interference a, aggr_interference a) :: totals).
      split; [|split; [exact A1 | exact A2]].
      constructor; [|exact F]. exists a. unfold neighborhoodGrants.
      rewrite O. auto.
Qed.

End Writes.

Section PointRuns.
Context {model : interf.Model}.

(** A call of [iapPointConstraint] raises nothing: it returns, or the loop
    of one of its channels runs on. *)
Lemma iapPointConstraint_raises_nothing fuel protection_point channels
  low_freq high_freq grant_objects fss_info esc_antenna_info region_type
  threshold protection_ent_type g e :
  iapPointConstraint fuel protection_point channels low_freq high_freq
    grant_objects fss_info esc_antenna_info region_type threshold
    protection_ent_type g <> Raise e.
Proof.
  unfold iapPointConstraint. destruct (0 <? _)%nat; [|discriminate].
  apply forM_raises_nothing. intros channel g0 e0.
  apply iapChannel_raises_nothing.
Qed.

(** What a call that returns has done to the stores. *)
Lemma iapPointConstraint_effect fuel protection_point channels low_freq
  high_freq grant_objects fss_info esc_antenna_info region_type threshold
  protection_ent_type g u g' :
  iapPointConstraint fuel protection_point channels low_freq high_freq
    grant_objects fss_info esc_antenna_info region_type threshold
    protection_ent_type g = Ok (u, g') ->
  exists totals,
    Forall2
      (channelTotals fuel protection_point low_freq high_freq grant_objects
         fss_info esc_antenna_info region_type threshold protection_ent_type)
      (writtenChannels protection_point channels low_freq high_freq
         grant_objects protection_ent_type)
      totals /\
    asas_interference g' =
      writeAll protection_point (map fst totals) (asas_interference g) /\
    aggregate_interference g' =
      writeAll protection_point (map snd totals) (aggregate_interference g).
Proof.
  unfold iapPointConstraint, writtenChannels. destruct (0 <? _)%nat.
  - apply forM_iapChannel.
  - intros [= _ <-]. exists []. simpl. split; [constructor|]. auto.
Qed.

(** A call of [iapPointConstraint] raises nothing.  When it returns it has
    appended, to the list of its point in each store, one total for every
    channel that a grant of the neighbourhood overlaps, in the order of the
    channels: the totals the loop of that channel ends with.  The lists of
    all other points, and the values that were in the list of the point, are
    as before. *)
Theorem iapPointConstraint_appends fuel protection_point channels low_freq
  high_freq grant_objects fss_info esc_antenna_info region_type threshold
  protection_ent_type g :
  (forall e,
     iapPointConstraint fuel protection_point channels low_freq high_freq
       grant_objects fss_info esc_antenna_info region_type threshold
       protection_ent_type g <> Raise e) /\
  (forall u g',
     iapPointConstraint fuel protection_point channels low_freq high_freq
       grant_objects fss_info esc_antenna_info region_type threshold
       protection_ent_type g = Ok (u, g') ->
     exists totals,
       Forall2
         (channelTotals fuel protection_point low_freq high_freq grant_objects
            fss_info esc_antenna_info region_type threshold protection_ent_type)
         (writtenChannels protection_point channels low_freq high_freq
            grant_objects protection_ent_type)
         totals /\
       (forall lat lon,
          atPoint protection_point lat lon = false ->
          get2 (asas_interference g') lat lon =
            get2 (asas_interference g) lat lon /\
          get2 (aggregate_interference g') lat lon =
            get2 (aggregate_interference g) lat lon) /\
       (forall lat lon,
          atPoint protection_point lat lon = true ->
          get2 (asas_interference g') lat lon =
            extended (get2 (asas_interference g) lat lon) (map fst totals) /\
          get2 (aggregate_interference g') lat lon =
            extended (get2 (aggregate_interference g) lat lon) (map snd totals))).
Proof.
  split; [intros e; apply iapPointConstraint_raises_nothing|].
  intros u g' H. apply iapPointConstraint_effect in H as (totals & F & -> & ->).
  exists totals. split; [exact F|].
  split; intros lat lon At; split; rewrite writeAll_appendedAt, At; reflexivity.
Qed.

End PointRuns.

Lemma iapPointConstraint_appends_witness :
  exists totals,
    Forall2
      (channelTotals (model := test_model) 10 (0, 0) 3595e6 3610e6
         test_two_grants None None None 10 interf.GWPZ_AREA)
      (writtenChannels (model := test_model) (0, 0)
         [(3595e6, 3600e6); (3600e6, 3605e6); (3605e6, 3610e6)] 3595e6 3610e6
         test_two_grants interf.GWPZ_AREA)
      totals /\
    (forall lat lon,
       atPoint (0, 0) lat lon = false ->
       get2 (asas_interference test_final_stores) lat lon =
         get2 (asas_interference test_empty_stores) lat lon /\
       get2 (aggregate_interference test_final_stores) lat lon =
         get2 (aggregate_interference test_empty_stores) lat lon) /\
    (forall lat lon,
       atPoint (0, 0) lat lon = true ->
       get2 (asas_interference test_final_stores) lat lon =
         extended (get2 (asas_interference test_empty_stores) lat lon)
           (map fst totals) /\
       get2 (aggregate_interference test_final_stores) lat lon =
         extended (get2 (aggregate_interference test_empty_stores) lat lon)
           (map snd totals)).
Proof.
  destruct (iapPointConstraint_appends (model := test_model) 10 (0, 0)
              [(3595e6, 3600e6); (3600e6, 3605e6); (3605e6, 3610e6)] 3595e6
              3610e6 test_two_grants None None None 10 interf.GWPZ_AREA
              test_empty_stores) as [_ Appends].
  apply (Appends tt test_final_stores). vm_compute. reflexivity.
Defined.

(** ** The total of this SAS against the total of all the SASs *)

Lemma Forall2_nth_error {A B : Type} (R : A -> B -> Prop) l1 l2 index x y :
  Forall2 R l1 l2 ->
  nth_error l1 index = Some x -> nth_error l2 index = Some y -> R x y.
Proof.
  intros F. revert index. induction F as [|a b l1 l2 Rab F IH];
    intros [|i] H1 H2; simpl in *; try discriminate.
  - injection H1 as <-. injection H2 as <-. exact Rab.
  - exact (IH i H1 H2).
Qed.

Lemma Forall2_fst_snd {A B : Type} (R : A -> B -> Prop) (l : list (A * B)) :
  Forall (fun t => R (fst t) (snd t)) l -> Forall2 R (map fst l) (map snd l).
Proof.
  induction 1; simpl; constructor; auto.
Qed.

Lemma related_appended (R : Q -> Q -> Prop) point totals g g' :
  Forall (fun t : Q * Q => R (fst t) (snd t)) totals ->
  appendedAt point (map fst totals) (asas_interference g) (asas_interference g') ->
  appendedAt point (map snd totals)
    (aggregate_interference g) (aggregate_interference g') ->
  related R g -> related R g'.
Proof.
  intros F A1 A2 D lat lon. rewrite A1, A2. specialize (D lat lon).
  destruct (atPoint point lat lon); [|exact D].
  destruct totals as [|t totals]; [exact D|].
  apply (Forall2_fst_snd R) in F. cbn [extended map] in *.
  destruct (get2 (asas_interference g) lat lon),
           (get2 (aggregate_interference g) lat lon); try contradiction.
  - apply Forall2_app; assumption.
  - exact F.
Qed.

Lemma related_lookups (R : Q -> Q -> Prop) g lat lon index asas_p a_p :
  related R g ->
  lookup3 (asas_interference g) lat lon index = Ok asas_p ->
  lookup3 (aggregate_interference g) lat lon index = Ok a_p ->
  R asas_p a_p.
Proof.
  intros D L1 L2. specialize (D lat lon).
  apply lookup3_get2 in L1 as (l1 & G1 & N1).
  apply lookup3_get2 in L2 as (l2 & G2 & N2).
  rewrite G1, G2 in D.
  exact (Forall2_nth_error _ _ _ _ _ _ D N1 N2).
Qed.

Lemma related_reset (R : Q -> Q -> Prop) :
  related R {| asas_interference := interf.init;
               aggregate_interference := interf.init |}.
Proof.
  intros lat lon. exact I.
Qed.

Section Shares.
Context {model : interf.Model}.

Lemma channelTotals_shares fuel protection_point low_freq high_freq grant_objects
  fss_info esc_antenna_info region_type threshold protection_ent_type written :
  (forall x, 0 <= interf.dbToLinear x) ->
  forall totals,
    Forall2
      (channelTotals fuel protection_point low_freq high_freq grant_objects
         fss_info esc_antenna_info region_type threshold protection_ent_type)
      written totals ->
    Forall (fun t : Q * Q => 0 <= fst t <= snd t) totals.
Proof.
  intros Pos totals F. induction F as [|channel t written totals T F IH];
    constructor; [|exact IH].
  destruct T as (a & Run & ->). simpl.
  match type of Run with
  | convergenceLoop _ ?c _ _ _ ?grants (initialAllocation ?quota _) = _ =>
      destruct (convergenceLoop_shares c fss_info esc_antenna_info region_type
                  fuel grants quota) as [E|(a' & E & R)]
  end.
  - intros grant n eirp _ _. apply Pos.
  - rewrite E in Run. discriminate.
  - rewrite E in Run. now injection Run as <-.
Qed.

(** When the collaborators turn no level into a negative power, the total
    of this SAS is at most the total of all the SASs, and neither is
    negative, at every point and channel index of the stores, after the
    reset and any sequence of calls of [iapPointConstraint]. *)
Theorem stores_local_below_global fuel invocations g g' lat lon index asas_p a_p :
  (forall x, 0 <= interf.dbToLinear x) ->
  (resetStores ;;; forM (invoke fuel) invocations) g = Ok (tt, g') ->
  lookup3 (asas_interference g') lat lon index = Ok asas_p ->
  lookup3 (aggregate_interference g') lat lon index = Ok a_p ->
  0 <= asas_p <= a_p.
Proof.
  intros Pos H. unfold resetStores, bind in H. simpl in H.
  apply (related_lookups (fun asas_p a_p => 0 <= asas_p <= a_p)).
  apply (forM_invariant (related (fun asas_p a_p => 0 <= asas_p <= a_p))
           (invoke fuel)) with (2 := H); [|apply related_reset].
  intros i g0 u g1 R D. unfold invoke in R.
  apply iapPointConstraint_effect in R as (totals & F & A1 & A2).
  apply (related_appended _ (inv_protection_point i) totals g0 g1); auto.
  - exact (channelTotals_shares _ _ _ _ _ _ _ _ _ _ _ Pos _ F).
  - rewrite A1. apply writeAll_appendedAt.
  - rewrite A2. apply writeAll_appendedAt.
Qed.

End Shares.

Lemma stores_local_below_global_witness :
  0 <= 8 <= 27 # 2.
Proof.
  apply (stores_local_below_global (model := test_model) 10 test_invocations
           test_used_stores test_final_stores 0 0 1%nat 8 (27 # 2)).
  - intros x. apply Qlt_le_weak, test_dbToLinear_pos.
  - vm_compute. reflexivity.
  - reflexivity.
  - reflexivity.
Defined.

(** ** Calls that return *)

Section Returns.
Context {model : interf.Model}.
Variable fss_info : option interf.FssProtectionPoint.
Variable esc_antenna_info : option interf.EscInformation.
Variable region_type : option string.

Hypothesis increasing :
  forall channel_constraint grant e1 e2, e1 < e2 ->
    grantInterference channel_constraint fss_info esc_antenna_info region_type
      grant e1 <
    grantInterference channel_constraint fss_info esc_antenna_info region_type
      grant e2.

Hypothesis vanishing :
  forall channel_constraint grant bound, 0 < bound ->
    exists n : nat,
      grantInterference channel_constraint fss_info esc_antenna_info region_type
        grant (interf.max_eirp grant - inject_Z (Z.of_nat n)) < bound.

Lemma convergenceLoop_enough_fuel channel_constraint grants quota :
  grants <> [] ->
  0 < quota ->
  exists fuel a,
    forall fuel', (fuel <= fuel')%nat ->
      convergenceLoop fuel' channel_constraint fss_info esc_antenna_info
        region_type grants (initialAllocation quota grants) = Ok a.
Proof.
  intros Ne Qpos.
  set (count := inject_Z (Z.of_nat (List.length grants))).
  assert (Cpos : 0 < count).
  { unfold count. rewrite <- (Zlt_Qlt 0). destruct grants; [congruence|].
    simpl. lia. }
  assert (Spos : 0 < quota / count) by (apply Qlt_shift_div_l; lra).
  destruct (bounds_exist channel_constraint fss_info esc_antenna_info region_type
              (quota / count) grants) as (bounds & Len & Reached).
  { intros grant e1 e2 _. apply increasing. }
  { intros grant _. now apply vanishing. }
  set (a0 := initialAllocation quota grants).
  set (steps0 := repeat O (List.length grants)).
  destruct (convergenceLoop_ends channel_constraint fss_info esc_antenna_info
              region_type grants (quota / count) bounds Spos Len Reached
              (measure bounds steps0 a0) steps0 a0)
    as (a & steps & Run & _).
  - apply initialAllocation_tracking.
  - intros _. unfold sharing, a0, initialAllocation. simpl. fold count.
    split; [exact Qpos|]. split; [field; lra | apply Qle_refl].
  - apply Nat.le_refl.
  - exact Ne.
  - exists (measure bounds steps0 a0), a. intros fuel' L.
    exact (convergenceLoop_more_fuel _ _ _ _ _ _ _ _ _ L Run).
Qed.

Variable protection_point : Q * Q.
Variable low_freq high_freq : Q.
Variable grant_objects : list interf.Grant.
Variable threshold : Q.
Variable protection_ent_type : interf.ProtectedEntityType.

Lemma iapChannel_enough_fuel grants_inside channel :
  0 < interferenceQuota protection_ent_type channel threshold ->
  exists fuel,
    forall fuel' g, (fuel <= fuel')%nat ->
      exists g',
        iapChannel fuel' protection_point low_freq high_freq grants_inside
          fss_info esc_antenna_info region_type threshold protection_ent_type
          channel g = Ok (tt, g').
Proof.
  intros Qpos. unfold iapChannel.
  destruct (interf.findOverlappingGrants _ _) as [|grant grants].
  - exists 0%nat. intros fuel' g _. exists g. reflexivity.
  - destruct (convergenceLoop_enough_fuel
                (channelConstraint protection_point low_freq high_freq
                   protection_ent_type channel)
                (grant :: grants)
                (interferenceQuota protection_ent_type channel threshold))
      as (fuel & a & Run); [discriminate | exact Qpos|].
    exists fuel. intros fuel' g L. rewrite (Run fuel' L). cbn [obind].
    eexists. reflexivity.
Qed.

Lemma forM_iapChannel_enough_fuel grants_inside channels :
  (forall channel, In channel channels ->
     0 < interferenceQuota protection_ent_type channel threshold) ->
  exists fuel,
    forall fuel' g, (fuel <= fuel')%nat ->
      exists g',
        forM (iapChannel fuel' protection_point low_freq high_freq grants_inside
                fss_info esc_antenna_info region_type threshold
                protection_ent_type)
          channels g = Ok (tt, g').
Proof.
  induction channels as [|channel channels IH]; intros Qpos.
  - exists 0%nat. intros fuel' g _. exists g. reflexivity.
  - destruct (iapChannel_enough_fuel grants_inside channel) as (fuel1 & Run1).
    { apply Qpos. now left. }
    destruct IH as (fuel2 & Run2).
    { intros c In. apply Qpos. now right. }
    exists (Nat.max fuel1 fuel2). intros fuel' g L.
    destruct (Run1 fuel' g ltac:(lia)) as (g1 & E1).
    destruct (Run2 fuel' g1 ltac:(lia)) as (g2 & E2).
    exists g2. cbn [forM]. unfold bind. rewrite E1. exact E2.
Qed.

(** When the interference of every grant strictly decreases with its EIRP
    and falls below any positive bound as the EIRP is lowered in 1 dB steps,
    and the quota of every channel is positive, a call of
    [iapPointConstraint] returns: some number of sweeps is enough for the
    loops of all its channels, whatever the stores hold. *)
Theorem iapPointConstraint_returns channels :
  (forall channel, In channel channels ->
     0 < interferenceQuota protection_ent_type channel threshold) ->
  exists fuel,
    forall fuel' g, (fuel <= fuel')%nat ->
      exists g',
        iapPointConstraint fuel' protection_point channels low_freq high_freq
          grant_objects fss_info esc_antenna_info region_type threshold
          protection_ent_type g = Ok (tt, g').
Proof.
  intros Qpos. unfold iapPointConstraint. destruct (0 <? _)%nat.
  - now apply forM_iapChannel_enough_fuel.
  - exists 0%nat. intros fuel' g _. exists g. reflexivity.
Qed.

End Returns.

Lemma iapPointConstraint_returns_witness :
  exists fuel,
    forall fuel' g, (fuel <= fuel')%nat ->
      exists g',
        iapPointConstraint (model := test_model) fuel' (0, 0)
          [(3595e6, 3600e6); (3600e6, 3605e6)] 3595e6 3605e6 test_two_grants
          None None None 10 interf.GWPZ_AREA g = Ok (tt, g').
Proof.
  apply (iapPointConstraint_returns (model := test_model) None None None).
  - intros c grant e1 e2 L. unfold grantInterference. simpl.
    apply test_dbToLinear_increasing. lra.
  - intros c grant bound B. unfold grantInterference. simpl.
    now apply test_dbToLinear_vanishes.
  - intros channel _. reflexivity.
Defined.

(** ** Errors and completeness of the combination step *)

Lemma has_key_false_In {V : Type} k k' (v : V) d :
  has_key k d = false -> In (k', v) d -> Qeq_bool k k' = false.
Proof.
  unfold has_key. induction d as [|[k0 v0] d IH]; simpl; [contradiction|].
  destruct (Qeq_bool k k0) eqn:E; [discriminate|].
  intros H [[= -> ->]|I]; [exact E | exact (IH H I)].
Qed.

(** With no SAS at all, the first total met raises. *)
Lemma apIapRefLongitude_no_sas q_p asas_info lat lon a_p rest (r : PostIapResult) :
  apIapRefLongitude q_p 0 asas_info lat r (lon, a_p :: rest) =
  Raise ZeroDivisionError.
Proof.
  unfold apIapRefLongitude, setitem2. rewrite dict_get_set_same. reflexivity.
Qed.

Lemma apIapRefLongitude_no_total q_p num_sas asas_info lat lon (r : PostIapResult) :
  apIapRefLongitude q_p num_sas asas_info lat r (lon, []) =
  Ok (dict_set lat [(lon, [])] r).
Proof.
  unfold apIapRefLongitude, setitem2. rewrite dict_get_set_same. simpl.
  now rewrite dict_set_set.
Qed.

Lemma apIapRefLatitude_no_sas q_p asas_info lat a_p_ch :
  forall (r : PostIapResult) lon a_p rest,
    In (lon, a_p :: rest) a_p_ch ->
    apIapRefLatitude q_p 0 asas_info r (lat, a_p_ch) = Raise ZeroDivisionError.
Proof.
  unfold apIapRefLatitude.
  induction a_p_ch as [|[lon0 l0] ch IH]; intros r lon a_p rest I;
    [contradiction|].
  cbn [forEach]. destruct l0 as [|a_p0 rest0].
  - rewrite apIapRefLongitude_no_total. cbn [obind].
    destruct I as [[=]|I]. exact (IH _ _ _ _ I).
  - now rewrite apIapRefLongitude_no_sas.
Qed.

Lemma apIapRefLatitude_loop_no_sas q_p asas_info a_p_info :
  forall (r : PostIapResult) lat a_p_ch lon a_p rest,
    In (lat, a_p_ch) a_p_info ->
    In (lon, a_p :: rest) a_p_ch ->
    forEach (apIapRefLatitude q_p 0 asas_info) a_p_info r =
    Raise ZeroDivisionError.
Proof.
  induction a_p_info as [|[lat0 ch0] info IH]; intros r lat ch lon a_p rest I1 I2;
    [contradiction|].
  cbn [forEach].
  destruct (apIapRefLatitude q_p 0 asas_info r (lat0, ch0)) as [r1|e|] eqn:E.
  - cbn [obind]. destruct I1 as [[= -> ->]|I1].
    + rewrite (apIapRefLatitude_no_sas _ _ _ _ _ _ _ _ I2) in E. discriminate.
    + exact (IH _ _ _ _ _ _ I1 I2).
  - (* the only exception the loop over the longitudes can raise *)
    cbn [obind]. f_equal. clear -E. unfold apIapRefLatitude in E.
    revert r E. induction ch0 as [|[lon0 l0] ch0 IH0]; intros r E;
      [discriminate|].
    cbn [forEach] in E. destruct l0 as [|a_p0 rest0].
    + rewrite apIapRefLongitude_no_total in E. exact (IH0 _ E).
    + rewrite apIapRefLongitude_no_sas in E. now injection E.
  - exfalso. clear -E. unfold apIapRefLatitude in E.
    revert r E. induction ch0 as [|[lon0 l0] ch0 IH0]; intros r E;
      [discriminate|].
    cbn [forEach] in E. destruct l0 as [|a_p0 rest0].
    + rewrite apIapRefLongitude_no_total in E. exact (IH0 _ E).
    + rewrite apIapRefLongitude_no_sas in E. discriminate.
Qed.

(** The division by the number of SASs comes first: as soon as the global
    store holds one total, a call with [num_sas = 0] raises
    [ZeroDivisionError], whatever the store of this SAS holds. *)
Theorem calculateApIapRef_no_sas q_p g lat lon a_p rest :
  get2 (aggregate_interference g) lat lon = Some (a_p :: rest) ->
  calculateApIapRef q_p 0 g = Raise ZeroDivisionError.
Proof.
  unfold get2. intros G.
  destruct (dict_get lat (aggregate_interference g)) as [ch|] eqn:D;
    [|discriminate].
  apply dict_get_In in D as (lat' & _ & I1).
  apply dict_get_In in G as (lon' & _ & I2).
  unfold calculateApIapRef, interf.GetAggregateInterferenceInfo.
  now rewrite (apIapRefLatitude_loop_no_sas _ _ _ _ _ _ _ _ _ I1 I2).
Qed.

Lemma calculateApIapRef_no_sas_witness :
  calculateApIapRef 100 0 test_used_stores = Raise ZeroDivisionError.
Proof.
  apply (calculateApIapRef_no_sas 100 test_used_stores 1 2 60 []).
  reflexivity.
Defined.

(** What a loop over the latitudes that returns has read. *)
Lemma apIapRefLatitude_loop_reads q_p num_sas asas_info a_p_info :
  forall (r r' : PostIapResult) lat a_p_ch lon a_p_list index,
    forEach (apIapRefLatitude q_p num_sas asas_info) a_p_info r = Ok r' ->
    In (lat, a_p_ch) a_p_info ->
    In (lon, a_p_list) a_p_ch ->
    (index < List.length a_p_list)%nat ->
    exists asas_value, lookup3 asas_info lat lon index = Ok asas_value.
Proof.
  induction a_p_info as [|[lat0 ch0] info IH];
    intros r r' lat ch lon l index H I1 I2 Hi; [contradiction|].
  cbn [forEach] in H.
  destruct (apIapRefLatitude q_p num_sas asas_info r (lat0, ch0))
    as [r1| |] eqn:E; try discriminate.
  cbn [obind] in H. destruct I1 as [[= -> ->]|I1];
    [|exact (IH _ _ _ _ _ _ _ H I1 I2 Hi)].
  clear -E I2 Hi. unfold apIapRefLatitude in E. revert r E.
  induction ch as [|[lon0 l0] ch IH0]; intros r E; [contradiction|].
  cbn [forEach] in E.
  destruct (apIapRefLongitude q_p num_sas asas_info lat r (lon0, l0))
    as [r2| |] eqn:E2; try discriminate.
  cbn [obind] in E. destruct I2 as [[= -> ->]|I2]; [|exact (IH0 I2 _ E)].
  apply apIapRefLongitude_spec in E2 as (vals & [_ Vals] & _).
  destruct (nth_error l index) as [a_p|] eqn:N;
    [|apply nth_error_None in N; lia].
  destruct (Vals index a_p N) as (v & L & _). eauto.
Qed.

(** A call of [calculateApIapRef] that returns has found, for every total
    of the global store, a total at the same point and index of the store of
    this SAS, and has divided by a number of SASs other than 0: where the
    store of this SAS lacks a point or is shorter, or with no SAS, the call
    does not return. *)
Theorem calculateApIapRef_reads_both_stores q_p num_sas g ap_iap_ref g'
  lat lon index a_p :
  calculateApIapRef q_p num_sas g = Ok (ap_iap_ref, g') ->
  lookup3 (aggregate_interference g) lat lon index = Ok a_p ->
  num_sas <> 0%Z /\
  exists asas_p, lookup3 (asas_interference g) lat lon index = Ok asas_p.
Proof.
  intros H L. apply lookup3_get2 in L as (l & G & N). split.
  - intros ->. destruct l as [|x l]; [now destruct index|].
    rewrite (calculateApIapRef_no_sas q_p g lat lon x l G) in H. discriminate.
  - unfold get2 in G.
    destruct (dict_get lat (aggregate_interference g)) as [ch|] eqn:D;
      [|discriminate].
    apply dict_get_In in D as (lat' & E1 & I1).
    apply dict_get_In in G as (lon' & E2 & I2).
    unfold calculateApIapRef, interf.GetAggregateInterferenceInfo in H.
    destruct (forEach _ _ _) as [r| |] eqn:F; try discriminate.
    rewrite (lookup3_Qeq _ lat lat' lon lon' index E1 E2).
    apply (apIapRefLatitude_loop_reads _ _ _ _ _ _ _ _ _ _ _ F I1 I2).
    apply nth_error_Some. congruence.
Qed.

Lemma calculateApIapRef_reads_both_stores_witness :
  2%Z <> 0%Z /\
  exists asas_p, lookup3 (asas_interference test_row_stores) 1 2 0 = Ok asas_p.
Proof.
  apply (calculateApIapRef_reads_both_stores 100 2 test_row_stores
           [(1, [(3, [60 # 2])])] test_row_stores 1 2 0%nat 60);
    reflexivity.
Defined.

(** Latitudes met later leave the entry of a latitude as it is. *)
Lemma apIapRefLatitude_loop_other q_p num_sas asas_info a_p_info lat :
  forall r r' : PostIapResult,
    forEach (apIapRefLatitude q_p num_sas asas_info) a_p_info r = Ok r' ->
    (forall lat' a_p_ch, In (lat', a_p_ch) a_p_info -> Qeq_bool lat lat' = false) ->
    dict_get lat r' = dict_get lat r.
Proof.
  induction a_p_info as [|[lat0 ch0] info IH]; intros r r' H Other;
    cbn [forEach] in H.
  - now injection H as <-.
  - destruct (apIapRefLatitude q_p num_sas asas_info r (lat0, ch0))
      as [r1| |] eqn:E; try discriminate.
    cbn [obind] in H. rewrite (IH _ _ H) by (intros; eapply Other; right; eauto).
    apply apIapRefLatitude_spec in E as [[_ ->]|(b & lon & l & vals & _ & _ & ->)];
      [reflexivity|].
    apply dict_get_set_other. apply (Other lat0 ch0). now left.
Qed.

(** The last longitude of a latitude of the global store has its entry. *)
Lemma apIapRefLatitude_loop_last q_p num_sas asas_info a_p_info :
  forall (r r' : PostIapResult) lat before lon a_p_list,
    forEach (apIapRefLatitude q_p num_sas asas_info) a_p_info r = Ok r' ->
    dict_wf a_p_info = true ->
    In (lat, before ++ [(lon, a_p_list)]) a_p_info ->
    exists vals,
      dict_get lat r' = Some [(lon, vals)] /\
      channelValues q_p num_sas asas_info lat lon a_p_list vals.
Proof.
  induction a_p_info as [|[lat0 ch0] info IH];
    intros r r' lat before lon l H W I; [contradiction|].
  cbn [forEach] in H. cbn [dict_wf] in W.
  apply andb_true_iff in W as [W0 W]. apply negb_true_iff in W0.
  destruct (apIapRefLatitude q_p num_sas asas_info r (lat0, ch0))
    as [r1| |] eqn:E; try discriminate.
  cbn [obind] in H. destruct I as [[= -> ->]|I]; [|exact (IH _ _ _ _ _ _ H W I)].
  apply apIapRefLatitude_spec in E
    as [[N _]|(b & lon' & l' & vals & Eq & CV & ->)].
  - destruct before; discriminate.
  - apply app_inj_tail in Eq as [_ [= <- <-]].
    exists vals. split; [|exact CV].
    rewrite (apIapRefLatitude_loop_other _ _ _ _ lat _ _ H).
    + apply dict_get_set_same.
    + intros lat' ch I. exact (has_key_false_In _ _ _ _ W0 I).
Qed.

(** On a global store that is a dictionary, the map [calculateApIapRef]
    returns has an entry for the last longitude of every latitude, with one
    value for each total of that point.  So when no latitude of the global
    store holds more than one longitude, as after the run of a sensor or of
    a satellite station, every point of the global store has its entry. *)
Theorem calculateApIapRef_last_longitudes q_p num_sas g ap_iap_ref g' :
  store_wf (aggregate_interference g) = true ->
  calculateApIapRef q_p num_sas g = Ok (ap_iap_ref, g') ->
  (forall lat before lon a_p_list,
     dict_get lat (aggregate_interference g) = Some (before ++ [(lon, a_p_list)]) ->
     exists vals,
       get2 ap_iap_ref lat lon = Some vals /\
       channelValues q_p num_sas (asas_interference g) lat lon a_p_list vals) /\
  ((forall lat a_p_ch,
      dict_get lat (aggregate_interference g) = Some a_p_ch ->
      (List.length a_p_ch <= 1)%nat) ->
   forall lat lon a_p_list,
     get2 (aggregate_interference g) lat lon = Some a_p_list ->
     exists vals,
       get2 ap_iap_ref lat lon = Some vals /\
       channelValues q_p num_sas (asas_interference g) lat lon a_p_list vals).
Proof.
  intros W H.
  assert (Last : forall lat before lon a_p_list,
     dict_get lat (aggregate_interference g) = Some (before ++ [(lon, a_p_list)]) ->
     exists vals,
       get2 ap_iap_ref lat lon = Some vals /\
       channelValues q_p num_sas (asas_interference g) lat lon a_p_list vals).
  { intros lat before lon l D.
    apply dict_get_In in D as (lat' & E & I).
    unfold calculateApIapRef, interf.GetAggregateInterferenceInfo in H.
    destruct (forEach _ _ _) as [r| |] eqn:F; try discriminate.
    injection H as <- _. pose proof W as W'. unfold store_wf in W'.
    apply andb_true_iff in W' as [W' _].
    destruct (apIapRefLatitude_loop_last _ _ _ _ _ _ _ _ _ _ F W' I)
      as (vals & D & [Len Vals]).
    exists vals. split.
    - unfold get2. rewrite (dict_get_Qeq lat lat' r E), D. simpl.
      now rewrite Qeq_bool_refl.
    - split; [exact Len|]. intros i a_p Hi.
      destruct (Vals i a_p Hi) as (s & L & N). exists s.
      split; [|exact N].
      now rewrite (lookup3_Qeq _ lat lat' lon lon i E (Qeq_refl lon)). }
  split; [exact Last|].
  intros One lat lon l G. unfold get2 in G.
  destruct (dict_get lat (aggregate_interference g)) as [ch|] eqn:D;
    [|discriminate].
  pose proof (One lat ch D) as Len.
  destruct ch as [|[lon0 l0] [|]]; simpl in Len, G; try discriminate; try lia.
  destruct (Qeq_bool lon lon0) eqn:E; [|discriminate]. injection G as ->.
  destruct (Last lat [] lon0 l D) as (vals & G & [Len' Vals]).
  apply Qeq_bool_eq in E. exists vals. split.
  - now rewrite (get2_Qeq _ lat lat lon lon0 (Qeq_refl lat) E).
  - split; [exact Len'|]. intros i a_p Hi.
    destruct (Vals i a_p Hi) as (s & L & N). exists s.
    split; [|exact N].
    now rewrite (lookup3_Qeq _ lat lat lon lon0 i (Qeq_refl lat) E).
Qed.

Lemma calculateApIapRef_last_longitudes_witness :
  exists vals,
    get2 [(1, [(3, [60 # 2])])] 1 3 = Some vals /\
    channelValues 100 2 (asas_interference test_row_stores) 1 3 [60] vals.
Proof.
  destruct (calculateApIapRef_last_longitudes 100 2 test_row_stores
              [(1, [(3, [60 # 2])])] test_row_stores eq_refl eq_refl)
    as [Last _].
  apply (Last 1 [(2, [60])] 3 [60]). reflexivity.
Defined.

(** ** The runs of the drivers *)

Lemma writeAll_point point values :
  forall l,
    writeAll point values [(fst point, [(snd point, l)])] =
    [(fst point, [(snd point, l ++ values)])].
Proof.
  unfold writeAll.
  induction values as [|v values IH]; intros l; cbn [fold_left].
  - now rewrite app_nil_r.
  - unfold interf.SetAggregateInterferenceInfo at 2. cbn [dict_get dict_set].
    rewrite !Qeq_bool_refl. cbn [dict_get dict_set]. rewrite !Qeq_bool_refl.
    transitivity [(fst point, [(snd point, (l ++ [v]) ++ values)])];
      [exact (IH (l ++ [v])) | now rewrite <- app_assoc].
Qed.

(** The stores after a reset and the writes at one point. *)
Lemma writeAll_empty point values :
  writeAll point values [] = pointMap point values.
Proof.
  destruct values as [|v values]; [reflexivity|].
  cbn [writeAll fold_left]. unfold interf.SetAggregateInterferenceInfo.
  cbn [dict_get dict_set app]. exact (writeAll_point point values [v]).
Qed.

Lemma lookup3_pointMap point values index v :
  nth_error values index = Some v ->
  lookup3 (pointMap point values) (fst point) (snd point) index = Ok v.
Proof.
  intros N. destruct values as [|x values]; [now destruct index|].
  unfold lookup3, pointMap. cbn [dict_get]. rewrite Qeq_bool_refl.
  cbn [dict_get]. rewrite Qeq_bool_refl. now rewrite N.
Qed.

Lemma apIapRefIndex_loop_point q_p num_sas point rest :
  num_sas <> 0%Z ->
  forall done acc,
    forEnumerate
      (apIapRefIndex q_p num_sas (pointMap point (map fst (done ++ rest)))
         (fst point) (snd point))
      (List.length done) (map snd rest) [(fst point, [(snd point, acc)])] =
    Ok [(fst point,
         [(snd point, acc ++ map (allowedInterference q_p num_sas) rest)])].
Proof.
  intros NZ. apply Z.eqb_neq in NZ.
  induction rest as [|t rest IH]; intros done acc.
  - simpl. now rewrite app_nil_r.
  - cbn [map forEnumerate]. unfold apIapRefIndex at 1. rewrite NZ.
    rewrite (lookup3_pointMap point _ (List.length done) (fst t)).
    + cbn [obind]. unfold append2. cbn [dict_get]. rewrite Qeq_bool_refl.
      cbn [dict_get]. rewrite Qeq_bool_refl. cbn [dict_set].
      rewrite Qeq_bool_refl. cbn [dict_set]. rewrite Qeq_bool_refl.
      cbn [obind].
      specialize (IH (done ++ [t]) (acc ++ [allowedInterference q_p num_sas t])).
      rewrite <- !app_assoc, length_app in IH. cbn [app List.length] in IH.
      rewrite Nat.add_1_r in IH. exact IH.
    + rewrite map_app, nth_error_app2 by (rewrite length_map; lia).
      now rewrite length_map, Nat.sub_diag.
Qed.

(** The combination step on the stores of one point. *)
Lemma calculateApIapRef_pointMap q_p num_sas point totals :
  num_sas <> 0%Z ->
  let g := {| asas_interference := pointMap point (map fst totals);
              aggregate_interference := pointMap point (map snd totals) |} in
  calculateApIapRef q_p num_sas g =
  Ok (pointMap point (map (allowedInterference q_p num_sas) totals), g).
Proof.
  intros NZ g. destruct totals as [|t totals]; [reflexivity|].
  unfold calculateApIapRef, interf.GetAggregateInterferenceInfo, g.
  cbn [asas_interference aggregate_interference].
  change (pointMap point (map snd (t :: totals)))
    with [(fst point, [(snd point, map snd (t :: totals))])].
  cbn [forEach]. unfold apIapRefLatitude at 1. cbn [forEach].
  unfold apIapRefLongitude, setitem2. rewrite dict_get_set_same.
  cbn [obind dict_set]. rewrite Qeq_bool_refl.
  pose proof (apIapRefIndex_loop_point q_p num_sas point (t :: totals) NZ [] [])
    as Loop.
  cbn [app List.length] in Loop.
  match goal with
  | |- obind (obind (obind ?loop _) _) _ = _ =>
      replace loop with
        (Ok [(fst point,
              [(snd point,
                map (allowedInterference q_p num_sas) (t :: totals))])]
         : outcome PostIapResult)
        by (symmetry; exact Loop)
  end.
  reflexivity.
Qed.

Lemma forM_invariant_In {A : Type} (P : Globals -> Prop) (body : A -> M unit) l :
  (forall x g u g', In x l -> body x g = Ok (u, g') -> P g -> P g') ->
  forall g u g', forM body l g = Ok (u, g') -> P g -> P g'.
Proof.
  induction l as [|x l IH]; intros Step g u g' H Pg; simpl in H.
  - injection H as _ <-. exact Pg.
  - apply bind_inv in H as (u1 & g1 & E & H).
    apply (IH (fun y g0 u0 g2 I => Step y g0 u0 g2 (or_intror I)) _ _ _ H).
    exact (Step x g u1 g1 (or_introl eq_refl) E Pg).
Qed.

Lemma calculateApIapRef_raises_nothing q_p num_sas g e :
  store_wf (aggregate_interference g) = true ->
  aligned g ->
  num_sas <> 0%Z ->
  calculateApIapRef q_p num_sas g <> Raise e.
Proof.
  intros W A NZ. unfold calculateApIapRef, interf.GetAggregateInterferenceInfo.
  destruct (apIapRefLatitude_loop_returns q_p num_sas (asas_interference g)
              (aggregate_interference g) NZ [] (aligned_lookups g W A))
    as (r & ->).
  discriminate.
Qed.

Lemma num_sas_positive {A : Type} (sas_th_fad_objects : list A) :
  (Z.of_nat (List.length sas_th_fad_objects) + 1)%Z <> 0%Z.
Proof.
  lia.
Qed.

Lemma list_set_app {A : Type} (prefix : list A) x suffix v :
  list_set (List.length prefix) v (prefix ++ x :: suffix) = prefix ++ v :: suffix.
Proof.
  induction prefix as [|y prefix IH]; simpl; [reflexivity | now rewrite IH].
Qed.

Lemma antPatternGain_loop rest :
  forall prefix suffix,
    forallb in_int64 rest = true ->
    List.length suffix = List.length rest ->
    forEnumerate
      (fun ant_pattern_gain i gain =>
         obind (int_of_float gain)
           (fun z => Ok (list_set i z ant_pattern_gain)))
      (List.length prefix) rest (prefix ++ suffix) =
    Ok (prefix ++ map truncate rest).
Proof.
  induction rest as [|gain rest IH]; intros prefix suffix Fits Len.
  - destruct suffix; [reflexivity | discriminate].
  - destruct suffix as [|x suffix]; [discriminate|].
    cbn [forallb] in Fits. apply andb_true_iff in Fits as [Fit Fits].
    cbn [forEnumerate map]. unfold int_of_float at 1. rewrite Fit.
    cbn [obind]. rewrite list_set_app.
    specialize (IH (prefix ++ [truncate gain]) suffix Fits).
    rewrite <- !app_assoc, length_app in IH. cbn [app List.length] in IH.
    rewrite Nat.add_1_r in IH. apply IH. simpl in Len. lia.
Qed.

(** Gains that all fit the integer array are stored without their
    fractions. *)
Lemma antPatternGain_fits ant_pattern :
  forallb in_int64 ant_pattern = true ->
  antPatternGain ant_pattern = Ok (map truncate ant_pattern).
Proof.
  intros Fits.
  assert (Len : List.length (arange (List.length ant_pattern)) =
                List.length ant_pattern)
    by (unfold arange; now rewrite length_map, length_seq).
  exact (antPatternGain_loop ant_pattern [] _ Fits Len).
Qed.

(** A gain that does not fit stops the loop of line 236. *)
Lemma antPatternGain_overflows ant_pattern :
  forallb in_int64 ant_pattern = false ->
  antPatternGain ant_pattern = Raise OverflowError.
Proof.
  unfold antPatternGain. generalize (arange (List.length ant_pattern)) 0%nat.
  induction ant_pattern as [|gain rest IH]; intros ant_pattern_gain i Over;
    [discriminate|].
  cbn [forallb] in Over. cbn [forEnumerate]. unfold int_of_float at 1.
  destruct (in_int64 gain); [|reflexivity].
  cbn [obind]. apply IH. exact Over.
Qed.

Section DriverRuns.
Context {model : interf.Model}.

(** A call of [iapPointConstraint] on the stores a reset has left, and the
    combination step after it. *)
Lemma point_run_after fuel point channels low_freq high_freq grant_objects
  fss_info esc_antenna_info region_type threshold protection_ent_type q_p num_sas
  u g1 :
  num_sas <> 0%Z ->
  iapPointConstraint fuel point channels low_freq high_freq grant_objects
    fss_info esc_antenna_info region_type threshold protection_ent_type
    {| asas_interference := interf.init;
       aggregate_interference := interf.init |} = Ok (u, g1) ->
  exists totals,
    Forall2
      (channelTotals fuel point low_freq high_freq grant_objects fss_info
         esc_antenna_info region_type threshold protection_ent_type)
      (writtenChannels point channels low_freq high_freq grant_objects
         protection_ent_type)
      totals /\
    g1 = {| asas_interference := pointMap point (map fst totals);
            aggregate_interference := pointMap point (map snd totals) |} /\
    calculateApIapRef q_p num_sas g1 =
      Ok (pointMap point (map (allowedInterference q_p num_sas) totals), g1).
Proof.
  intros NZ E. apply iapPointConstraint_effect in E as (totals & F & A1 & A2).
  cbn [asas_interference aggregate_interference] in A1, A2.
  unfold interf.init in A1, A2. rewrite writeAll_empty in A1, A2.
  exists totals. split; [exact F|].
  destruct g1 as [s1 s2]. cbn [asas_interference aggregate_interference] in *.
  subst s1 s2. split; [reflexivity|].
  exact (calculateApIapRef_pointMap q_p num_sas point totals NZ).
Qed.

(** The steps the sensor and the satellite drivers share: reset, one call
    of [iapPointConstraint], combination. *)
Lemma point_run fuel point channels low_freq high_freq grant_objects fss_info
  esc_antenna_info region_type threshold protection_ent_type q_p num_sas g :
  num_sas <> 0%Z ->
  let run :=
    asas_interference_init ;;;
    aggregate_interference_init ;;;
    iapPointConstraint fuel point channels low_freq high_freq grant_objects
      fss_info esc_antenna_info region_type threshold protection_ent_type ;;;
    calculateApIapRef q_p num_sas in
  run g = OutOfFuel \/
  exists totals,
    Forall2
      (channelTotals fuel point low_freq high_freq grant_objects fss_info
         esc_antenna_info region_type threshold protection_ent_type)
      (writtenChannels point channels low_freq high_freq grant_objects
         protection_ent_type)
      totals /\
    run g =
      Ok (pointMap point (map (allowedInterference q_p num_sas) totals),
          {| asas_interference := pointMap point (map fst totals);
             aggregate_interference := pointMap point (map snd totals) |}).
Proof.
  intros NZ run. unfold run, bind. cbn [asas_interference_init
    aggregate_interference_init obind fst snd asas_interference
    aggregate_interference].
  match goal with
  | |- context [iapPointConstraint ?f ?p ?c ?l ?h ?go ?fi ?e ?r ?t ?ty ?g0] =>
      pose proof (iapPointConstraint_raises_nothing f p c l h go fi e r t ty g0) as N;
      destruct (iapPointConstraint f p c l h go fi e r t ty g0)
        as [[u g1]|e1|] eqn:E
  end.
  - right.
    destruct (point_run_after _ _ _ _ _ _ _ _ _ _ _ q_p num_sas _ _ NZ E)
      as (totals & F & -> & C).
    exists totals. split; [exact F|]. cbn [obind fst snd]. exact C.
  - exfalso. exact (N e1 eq_refl).
  - now left.
Qed.

(** The run of the sensor driver once the gains are stored. *)
Lemma performIapForEsc_fits fuel entity uut ths g :
  let esc_point := esc_installationParam entity in
  forallb in_int64 (azimuthRadiationPattern esc_point) = true ->
  performIapForEsc fuel entity uut ths g =
  (asas_interference_init ;;;
   aggregate_interference_init ;;;
   iapPointConstraint fuel (installationPoint esc_point)
     (interf.getProtectedChannels interf.ESC_LOW_FREQ_HZ interf.ESC_HIGH_FREQ_HZ)
     interf.ESC_LOW_FREQ_HZ interf.ESC_HIGH_FREQ_HZ
     (interf.getGrantObjectsFromFAD uut ths)
     None (Some (escInformation esc_point)) None iap_margin_esc interf.ESC ;;;
   calculateApIapRef iap_margin_esc (Z.of_nat (List.length ths) + 1)%Z) g.
Proof.
  intros esc_point Fits. unfold performIapForEsc. unfold bind at 1.
  unfold lift. fold esc_point. now rewrite (antPatternGain_fits _ Fits).
Qed.

(** A run of the sensor driver on a pattern with a gain that does not fit
    a 64-bit integer raises [OverflowError] at line 237, before any reset.
    On any other pattern it returns unless the loop of a channel runs on.
    The map it returns holds the point of the sensor alone, with one value
    for every channel of the passband that a grant of the neighbourhood
    overlaps: [(iap_margin_esc - a_p) / num_sas + asas_p] for the totals
    [a_p] and [asas_p] the loop of that channel ends with; it is empty when
    no channel is overlapped.  The stores it leaves hold these totals at the
    same point. *)
Theorem performIapForEsc_result fuel entity uut ths g :
  let esc_point := esc_installationParam entity in
  let point := installationPoint esc_point in
  let grant_objects := interf.getGrantObjectsFromFAD uut ths in
  let num_sas := (Z.of_nat (List.length ths) + 1)%Z in
  (forallb in_int64 (azimuthRadiationPattern esc_point) = false ->
   performIapForEsc fuel entity uut ths g = Raise OverflowError) /\
  (forallb in_int64 (azimuthRadiationPattern esc_point) = true ->
   performIapForEsc fuel entity uut ths g = OutOfFuel \/
   exists totals,
     Forall2
       (channelTotals fuel point interf.ESC_LOW_FREQ_HZ interf.ESC_HIGH_FREQ_HZ
          grant_objects None (Some (escInformation esc_point)) None
          iap_margin_esc interf.ESC)
       (writtenChannels point
          (interf.getProtectedChannels interf.ESC_LOW_FREQ_HZ
             interf.ESC_HIGH_FREQ_HZ)
          interf.ESC_LOW_FREQ_HZ interf.ESC_HIGH_FREQ_HZ grant_objects interf.ESC)
       totals /\
     performIapForEsc fuel entity uut ths g =
       Ok (pointMap point
             (map (allowedInterference iap_margin_esc num_sas) totals),
           {| asas_interference := pointMap point (map fst totals);
              aggregate_interference := pointMap point (map snd totals) |})).
Proof.
  intros esc_point point grant_objects num_sas. split.
  - intros Over. unfold performIapForEsc, bind, lift. fold esc_point.
    now rewrite (antPatternGain_overflows _ Over).
  - intros Fits. rewrite (performIapForEsc_fits fuel entity uut ths g Fits).
    apply (point_run fuel point). apply num_sas_positive.
Qed.

(** A run of the co-channel driver on an entity without deployment
    parameters raises [IndexError].  Otherwise it returns unless the loop
    of a channel runs on, and the map it returns holds the point of the
    station alone, with one value for every channel between the low
    frequency of the station and the top of the band that a grant of the
    neighbourhood overlaps. *)
Theorem performIapForFssCochannel_result fuel entity uut ths g :
  let grant_objects := interf.getGrantObjectsFromFAD uut ths in
  let num_sas := (Z.of_nat (List.length ths) + 1)%Z in
  match deploymentParam entity with
  | [] => performIapForFssCochannel fuel entity uut ths g = Raise IndexError
  | deployment :: _ =>
      let fss_point := installationParam deployment in
      let point := installationPoint fss_point in
      let fss_low_freq := lowFrequency (operationFrequencyRange deployment) in
      performIapForFssCochannel fuel entity uut ths g = OutOfFuel \/
      exists totals,
        Forall2
          (channelTotals fuel point fss_low_freq interf.CBRS_HIGH_FREQ_HZ
             grant_objects (Some (fssProtectionPoint fss_point)) None None
             iap_margin_fss_cochannel interf.FSS_CO_CHANNEL)
          (writtenChannels point
             (interf.getProtectedChannels fss_low_freq interf.CBRS_HIGH_FREQ_HZ)
             fss_low_freq interf.CBRS_HIGH_FREQ_HZ grant_objects
             interf.FSS_CO_CHANNEL)
          totals /\
        performIapForFssCochannel fuel entity uut ths g =
          Ok (pointMap point
                (map (allowedInterference iap_margin_fss_cochannel num_sas) totals),
              {| asas_interference := pointMap point (map fst totals);
                 aggregate_interference := pointMap point (map snd totals) |})
  end.
Proof.
  intros grant_objects num_sas. unfold performIapForFssCochannel.
  destruct (deploymentParam entity) as [|deployment others]; [reflexivity|].
  apply (point_run fuel (installationPoint (installationParam deployment))).
  apply num_sas_positive.
Qed.

(** A run of the blocking driver on an entity without deployment
    parameters raises [IndexError].  For an entity that is not exempt it
    returns unless the loop runs on, and the map it returns holds the point
    of the station alone with at most one value: that of the range from the
    bottom of the band to the low frequency of the station, present when a
    grant of the neighbourhood overlaps that range. *)
Theorem performIapForFssBlocking_result fuel entity uut ths g :
  let grant_objects := interf.getGrantObjectsFromFAD uut ths in
  let num_sas := (Z.of_nat (List.length ths) + 1)%Z in
  match deploymentParam entity with
  | [] => performIapForFssBlocking fuel entity uut ths g = Raise IndexError
  | deployment :: _ =>
      let fss_point := installationParam deployment in
      let point := installationPoint fss_point in
      let fss_low_freq := lowFrequency (operationFrequencyRange deployment) in
      let fss_high_freq := highFrequency (operationFrequencyRange deployment) in
      fssBlockingExempt fss_low_freq fss_high_freq (ttc entity) = false ->
      performIapForFssBlocking fuel entity uut ths g = OutOfFuel \/
      exists totals,
        (List.length totals <= 1)%nat /\
        Forall2
          (channelTotals fuel point interf.CBRS_LOW_FREQ_HZ fss_low_freq
             grant_objects (Some (fssProtectionPoint fss_point)) None None
             iap_margin_fss_blocking interf.FSS_BLOCKING)
          (writtenChannels point [(interf.CBRS_LOW_FREQ_HZ, fss_low_freq)]
             interf.CBRS_LOW_FREQ_HZ fss_low_freq grant_objects
             interf.FSS_BLOCKING)
          totals /\
        performIapForFssBlocking fuel entity uut ths g =
          Ok (pointMap point
                (map (allowedInterference iap_margin_fss_blocking num_sas) totals),
              {| asas_interference := pointMap point (map fst totals);
                 aggregate_interference := pointMap point (map snd totals) |})
  end.
Proof.
  intros grant_objects num_sas. unfold performIapForFssBlocking.
  destruct (deploymentParam entity) as [|deployment others]; [reflexivity|].
  intros Exempt. rewrite Exempt.
  set (fss_point := installationParam deployment).
  set (fss_low_freq := lowFrequency (operationFrequencyRange deployment)).
  destruct (point_run fuel (installationPoint fss_point)
              [(interf.CBRS_LOW_FREQ_HZ, fss_low_freq)]
              interf.CBRS_LOW_FREQ_HZ fss_low_freq grant_objects
              (Some (fssProtectionPoint fss_point)) None None
              iap_margin_fss_blocking interf.FSS_BLOCKING
              iap_margin_fss_blocking num_sas g (num_sas_positive ths))
    as [E|(totals & F & E)].
  - left. exact E.
  - right. exists totals. split; [|split; [exact F | exact E]].
    rewrite <- (Forall2_length F). unfold writtenChannels.
    destruct (0 <? _)%nat; [|simpl; lia]. cbn [filter].
    destruct (neighborhoodGrants _ _ _ _ _ _); simpl; lia.
Qed.

End DriverRuns.

Section SensorReturns.
Context {model : interf.Model}.

(** When the gains of the pattern fit 64-bit integers, the conversion from
    dB gives positive powers, and the interference of every grant at the
    sensor strictly decreases with its EIRP and falls below any positive
    bound as the EIRP is lowered in 1 dB steps, a run of the sensor driver
    returns a map: some number of sweeps is enough, whatever the stores hold
    before. *)
Theorem performIapForEsc_returns entity uut ths :
  let esc_antenna_info := Some (escInformation (esc_installationParam entity)) in
  forallb in_int64 (azimuthRadiationPattern (esc_installationParam entity)) =
    true ->
  (forall x, 0 < interf.dbToLinear x) ->
  (forall channel_constraint grant e1 e2, e1 < e2 ->
     grantInterference channel_constraint None esc_antenna_info None grant e1 <
     grantInterference channel_constraint None esc_antenna_info None grant e2) ->
  (forall channel_constraint grant bound, 0 < bound ->
     exists n : nat,
       grantInterference channel_constraint None esc_antenna_info None grant
         (interf.max_eirp grant - inject_Z (Z.of_nat n)) < bound) ->
  exists fuel,
    forall fuel' g, (fuel <= fuel')%nat ->
      exists ap_iap_ref g',
        performIapForEsc fuel' entity uut ths g = Ok (ap_iap_ref, g').
Proof.
  intros esc_antenna_info Fits Pos Increasing Vanishing.
  set (point := installationPoint (esc_installationParam entity)).
  set (grant_objects := interf.getGrantObjectsFromFAD uut ths).
  set (channels := interf.getProtectedChannels interf.ESC_LOW_FREQ_HZ
                     interf.ESC_HIGH_FREQ_HZ).
  set (g0 := {| asas_interference := interf.init;
                aggregate_interference := interf.init |}).
  assert (Call : exists fuel, forall fuel', (fuel <= fuel')%nat ->
            exists g1,
              iapPointConstraint fuel' point channels interf.ESC_LOW_FREQ_HZ
                interf.ESC_HIGH_FREQ_HZ grant_objects None esc_antenna_info None
                iap_margin_esc interf.ESC g0 = Ok (tt, g1)).
  { unfold iapPointConstraint. destruct (0 <? _)%nat.
    - destruct (forM_iapChannel_enough_fuel None esc_antenna_info None
                  Increasing Vanishing point interf.ESC_LOW_FREQ_HZ
                  interf.ESC_HIGH_FREQ_HZ iap_margin_esc interf.ESC
                  (interf.findGrantsInsideNeighborhood grant_objects point
                     interf.ESC)
                  channels) as (fuel & Run).
      + intros channel _. unfold interferenceQuota, iap_margin_esc.
        destruct (Qle_bool _ _); apply Pos.
      + exists fuel. intros fuel' L. exact (Run fuel' g0 L).
    - exists 0%nat. intros fuel' _. exists g0. reflexivity. }
  destruct Call as (fuel & Call). exists fuel. intros fuel' g L.
  destruct (Call fuel' L) as (g1 & R).
  destruct (point_run_after _ _ _ _ _ _ _ _ _ _ _ iap_margin_esc
              (Z.of_nat (List.length ths) + 1)%Z _ _ (num_sas_positive ths) R)
    as (totals & _ & _ & C).
  exists (pointMap point
            (map (allowedInterference iap_margin_esc
                    (Z.of_nat (List.length ths) + 1)%Z) totals)), g1.
  rewrite (performIapForEsc_fits fuel' entity uut ths g Fits). unfold bind.
  cbn [asas_interference_init aggregate_interference_init obind fst snd
       asas_interference aggregate_interference].
  fold point grant_objects channels g0 esc_antenna_info.
  rewrite R. exact C.
Qed.

End SensorReturns.

Lemma performIapForEsc_returns_witness :
  exists fuel,
    forall fuel' g, (fuel <= fuel')%nat ->
      exists ap_iap_ref g',
        performIapForEsc (model := test_model) fuel' test_esc test_two_grants []
          g = Ok (ap_iap_ref, g').
Proof.
  apply (performIapForEsc_returns (model := test_model) test_esc
           test_two_grants []).
  - reflexivity.
  - apply test_dbToLinear_pos.
  - intros c grant e1 e2 L. unfold grantInterference. simpl.
    apply test_dbToLinear_increasing. lra.
  - intros c grant bound B. unfold grantInterference. simpl.
    now apply test_dbToLinear_vanishes.
Defined.

Lemma performIapForEsc_result_witness :
  performIapForEsc (model := test_model) 1 test_esc_overflow
    [test_grant (-107) true] [] test_used_stores = Raise OverflowError /\
  exists totals,
    totals <> [] /\
    performIapForEsc (model := test_model) 1 test_esc [test_grant (-107) true] []
      test_used_stores =
      Ok (pointMap (0, 0)
            (map (allowedInterference (iap_margin_esc (model := test_model)) 1)
               totals),
          {| asas_interference := pointMap (0, 0) (map fst totals);
             aggregate_interference := pointMap (0, 0) (map snd totals) |}).
Proof.
  destruct (performIapForEsc_result (model := test_model) 1 test_esc_overflow
              [test_grant (-107) true] [] test_used_stores) as [Over _].
  destruct (performIapForEsc_result (model := test_model) 1 test_esc
              [test_grant (-107) true] [] test_used_stores) as [_ Fits].
  split; [apply Over; reflexivity|].
  destruct (Fits eq_refl) as [E|(totals & _ & E)];
    [vm_compute in E; discriminate|].
  exists totals. split; [|exact E].
  intros ->. vm_compute in E. discriminate.
Defined.

Section AreaRuns.
Context {model : interf.Model} {workers : Workers}.

(** The steps the two area drivers share: reset, pool, one call of
    [iapPointConstraint] for each grid point in the order the workers end,
    combination. *)
Lemma area_run fuel points channels low_freq high_freq grant_objects fss_info
  esc_antenna_info region_type threshold protection_ent_type q_p num_sas g :
  let run :=
    asas_interference_init ;;;
    aggregate_interference_init ;;;
    Pool points ;;;
    pool_map (fun point =>
                iapPointConstraint fuel point channels low_freq high_freq
                  grant_objects fss_info esc_antenna_info region_type threshold
                  protection_ent_type)
             points ;;;
    calculateApIapRef q_p num_sas in
  (points = [] -> run g = Raise ValueError) /\
  (points <> [] -> num_sas <> 0%Z -> forall e, run g <> Raise e) /\
  (forall r g', run g = Ok (r, g') -> keysAmong points r).
Proof.
  intros run. split; [intros ->; reflexivity|].
  set (body := fun point =>
         iapPointConstraint fuel point channels low_freq high_freq grant_objects
           fss_info esc_antenna_info region_type threshold protection_ent_type).
  set (order := completionOrder points).
  set (g0 := {| asas_interference := interf.init;
                aggregate_interference := interf.init |}).
  assert (Inv : forall u g1, forM body order g0 = Ok (u, g1) ->
            store_wf (aggregate_interference g1) = true /\ aligned g1 /\
            keysAmong points (aggregate_interference g1)).
  { intros u g1 H.
    destruct (forM_invariant_In
                (fun g => (store_wf (asas_interference g) = true /\
                           store_wf (aggregate_interference g) = true) /\
                          aligned g /\
                          keysAmong points (aggregate_interference g))
                body order) with (g := g0) (u := u) (g' := g1)
      as ([_ W] & A & K); auto.
    - intros point g2 u2 g3 In R ([W1 W2] & A & K). unfold body in R.
      split; [|split].
      + exact (iapPointConstraint_store_wf _ _ _ _ _ _ _ _ _ _ _ _ _ _ R
                 (conj W1 W2)).
      + exact (iapPointConstraint_aligned _ _ _ _ _ _ _ _ _ _ _ _ _ _ R A).
      + apply iapPointConstraint_effect in R as (totals & _ & _ & E).
        intros lat lon Key. unfold has_key2 in Key.
        rewrite E, writeAll_appendedAt in Key.
        destruct (atPoint point lat lon) eqn:At; [|apply K; exact Key].
        exists point. split; [|exact At].
        exact (Permutation_in point (completionOrder_perm points) In).
    - repeat split. intros lat lon Key. discriminate. }
  assert (Run : run g = obind (Pool points g0)
                  (fun r => obind (forM body order (snd r))
                     (fun r => calculateApIapRef q_p num_sas (snd r))))
    by reflexivity.
  rewrite Run. clear Run. split.
  - intros Ne NZ e. destruct points as [|point points]; [congruence|].
    cbn [Pool ret obind snd].
    pose proof (forM_raises_nothing body) as N.
    destruct (forM body order g0) as [[u g1]|e1|] eqn:F; cbn [obind snd].
    + destruct (Inv u g1 eq_refl) as (W & A & _).
      now apply calculateApIapRef_raises_nothing.
    + exfalso. apply (N (fun x g2 e2 =>
        iapPointConstraint_raises_nothing _ _ _ _ _ _ _ _ _ _ _ _ _)
        order g0 e1 F).
    + discriminate.
  - intros r g'. destruct points as [|point points]; [discriminate|].
    cbn [Pool ret obind snd].
    destruct (forM body order g0) as [[u g1]|e1|] eqn:F;
      cbn [obind snd]; try discriminate.
    destruct (Inv u g1 eq_refl) as (W & _ & K).
    intros C lat lon Key. apply K.
    destruct (has_key2 (aggregate_interference g1) lat lon) eqn:Old;
      [reflexivity|].
    rewrite (calculateApIapRef_keys _ _ _ _ _ _ _ W C Old) in Key.
    discriminate.
Qed.

(** A GWPZ whose zone has no feature makes the driver raise [IndexError]
    at line 291, before any reset.  With a feature, a zone without grid
    point makes it raise [ValueError], the pool being asked for no process.
    The driver raises in no other case: with a feature and a grid it
    returns, or the loop of a channel runs on, whatever the order in which
    the workers of the pool end.  Every point of the map it returns is a
    point of the grid. *)
Theorem performIapForGwpz_outcome fuel entity uut ths g :
  let points := interf.GridPolygon (gwpz_zone entity) 2 in
  (zone_features entity = [] ->
   performIapForGwpz fuel entity uut ths g = Raise IndexError) /\
  (zone_features entity <> [] -> points = [] ->
   performIapForGwpz fuel entity uut ths g = Raise ValueError) /\
  (forall e, performIapForGwpz fuel entity uut ths g = Raise e ->
     (e = IndexError /\ zone_features entity = []) \/
     (e = ValueError /\ zone_features entity <> [] /\ points = [])) /\
  (forall ap_iap_ref g',
     performIapForGwpz fuel entity uut ths g = Ok (ap_iap_ref, g') ->
     keysAmong points ap_iap_ref).
Proof.
  intros points. unfold performIapForGwpz. fold points.
  destruct (zone_features entity) as [|gwpz_region features].
  - split; [reflexivity|]. split; [congruence|]. split.
    + intros e [= <-]. now left.
    + discriminate.
  - match goal with
    | |- context [pool_map (fun point =>
                    iapPointConstraint _ _ ?c ?l ?h ?go ?fi ?e ?r ?t ?ty) _ ;;;
                  calculateApIapRef ?q ?n] =>
        destruct (area_run fuel points c l h go fi e r t ty q n g)
          as (Empty & Raises & Keys)
    end.
    split; [discriminate|]. split; [intros _; exact Empty|].
    split; [|exact Keys].
    intros e H. right. destruct points as [|point rest] eqn:P.
    + rewrite Empty in H by reflexivity. injection H as <-.
      repeat split. discriminate.
    + exfalso. apply (Raises ltac:(discriminate) (num_sas_positive ths) e H).
Qed.

Lemma ppaPalRecords_first_match fuel protection_points ppa_region first others
  grant_objects before record after g :
  Forall (fun pal_record => palId pal_record <> first) before ->
  palId record = first ->
  ppaPalRecords fuel protection_points ppa_region (first :: others) grant_objects
    (before ++ record :: after) g =
  ppaPalRecords fuel protection_points ppa_region (first :: others) grant_objects
    [record] g.
Proof.
  intros Unmatched Match.
  induction Unmatched as [|pal_record before N _ IH]; cbn [app ppaPalRecords].
  - rewrite Match, String.eqb_refl. reflexivity.
  - apply String.eqb_neq in N. rewrite N. exact IH.
Qed.

Lemma pal_records_split first pal_records :
  Forall (fun pal_record => palId pal_record <> first) pal_records \/
  exists before record after,
    pal_records = before ++ record :: after /\
    Forall (fun pal_record => palId pal_record <> first) before /\
    palId record = first.
Proof.
  induction pal_records as [|pal_record rest IH]; [left; constructor|].
  destruct (String.eqb_spec (palId pal_record) first) as [E|N].
  - right. exists [], pal_record, rest. auto.
  - destruct IH as [U|(before & record & after & -> & U & M)].
    + left. constructor; assumption.
    + right. exists (pal_record :: before), record, after.
      split; [reflexivity|]. split; [constructor; assumption | exact M].
Qed.

(** The run of the PPA driver on its first matching record. *)
Lemma performIapForPpa_matched fuel entity uut ths first others record g :
  ppa_palId entity = first :: others ->
  palId record = first ->
  let points := interf.GridPolygon (ppa_zone entity) 2 in
  let ppa_low_freq := lowFrequency (primaryAssignment record) in
  let ppa_high_freq := highFrequency (primaryAssignment record) in
  performIapForPpa fuel entity uut ths [record] g =
  (asas_interference_init ;;;
   aggregate_interference_init ;;;
   Pool points ;;;
   pool_map (fun point =>
               iapPointConstraint fuel point
                 (interf.getProtectedChannels ppa_low_freq ppa_high_freq)
                 ppa_low_freq ppa_high_freq
                 (interf.getGrantObjectsFromFAD uut ths) None None
                 (Some (ppaRegionType entity)) iap_margin_ppa interf.PPA_AREA)
            points ;;;
   calculateApIapRef iap_threshold_ppa (Z.of_nat (List.length ths) + 1)%Z) g.
Proof.
  intros Ids Match points ppa_low_freq ppa_high_freq.
  unfold performIapForPpa. rewrite Ids. cbn [ppaPalRecords].
  rewrite Match, String.eqb_refl. unfold bind.
  cbn [asas_interference_init aggregate_interference_init obind fst snd].
  destruct (Pool _ _) as [[u1 g1]| |]; reflexivity.
Qed.

(** Of the PAL records, the driver uses the first whose identifier is the
    first identifier of the PPA, and no other: the records before it and
    after it, and the other identifiers of the PPA, change nothing.  Every
    point of the map the run returns is a point of the grid of the PPA. *)
Theorem performIapForPpa_first_match fuel entity uut ths first others
  before record after g :
  ppa_palId entity = first :: others ->
  Forall (fun pal_record => palId pal_record <> first) before ->
  palId record = first ->
  performIapForPpa fuel entity uut ths (before ++ record :: after) g =
    performIapForPpa fuel entity uut ths [record] g /\
  (forall ap_iap_ref g',
     performIapForPpa fuel entity uut ths (before ++ record :: after) g =
       Ok (ap_iap_ref, g') ->
     keysAmong (interf.GridPolygon (ppa_zone entity) 2) ap_iap_ref).
Proof.
  intros Ids Unmatched Match.
  assert (E : performIapForPpa fuel entity uut ths (before ++ record :: after) g =
              performIapForPpa fuel entity uut ths [record] g).
  { unfold performIapForPpa, bind. rewrite Ids.
    now rewrite (ppaPalRecords_first_match _ _ _ _ _ _ _ _ _ _ Unmatched Match). }
  split; [exact E|]. rewrite E.
  rewrite (performIapForPpa_matched fuel entity uut ths first others record g
             Ids Match).
  intros r g'. apply area_run.
Qed.

(** On stores that are dictionaries of the same shape, the PPA driver
    raises in two cases and no other: [IndexError] when the PPA has no PAL
    identifier and there is a PAL record to compare it with, and
    [ValueError] when a record matches the first identifier and the zone
    has no grid point. *)
Theorem performIapForPpa_exceptions fuel entity uut ths pal_records g e :
  store_wf (aggregate_interference g) = true ->
  aligned g ->
  performIapForPpa fuel entity uut ths pal_records g = Raise e <->
  (e = IndexError /\ ppa_palId entity = [] /\ pal_records <> []) \/
  (e = ValueError /\ interf.GridPolygon (ppa_zone entity) 2 = [] /\
   exists first others,
     ppa_palId entity = first :: others /\
     Exists (fun pal_record => palId pal_record = first) pal_records).
Proof.
  intros W A.
  assert (Stale : forall e0,
            calculateApIapRef iap_threshold_ppa
              (Z.of_nat (List.length ths) + 1)%Z g <> Raise e0).
  { intros e0. apply calculateApIapRef_raises_nothing; auto.
    apply num_sas_positive. }
  destruct (ppa_palId entity) as [|first others] eqn:Ids.
  - (* no identifier *)
    destruct pal_records as [|pal_record rest].
    + split.
      * unfold performIapForPpa. cbn [ppaPalRecords]. intros H.
        exfalso. exact (Stale e H).
      * intros [(_ & _ & N)|(_ & _ & f & o & [=] & _)]. congruence.
    + unfold performIapForPpa. rewrite Ids. cbn [ppaPalRecords]. split.
      * intros [= <-]. left. repeat split. discriminate.
      * intros [(-> & _)|(_ & _ & f & o & [=] & _)]. reflexivity.
  - destruct (pal_records_split first pal_records)
      as [U|(before & record & after & -> & U & Match)].
    + (* no matching record *)
      split.
      * unfold performIapForPpa, bind. rewrite Ids.
        rewrite ppaPalRecords_unmatched by exact U. intros H.
        exfalso. exact (Stale e H).
      * intros [(_ & [=] & _)|(_ & _ & f & o & [= <- <-] & Ex)].
        exfalso. apply Exists_exists in Ex as (pal_record & In & M).
        rewrite Forall_forall in U. exact (U pal_record In M).
    + (* a matching record *)
      assert (E : performIapForPpa fuel entity uut ths
                    (before ++ record :: after) g =
                  performIapForPpa fuel entity uut ths [record] g).
      { unfold performIapForPpa, bind. rewrite Ids.
        now rewrite (ppaPalRecords_first_match _ _ _ _ _ _ _ _ _ _ U Match). }
      rewrite E, (performIapForPpa_matched fuel entity uut ths first others
                    record g Ids Match).
      match goal with
      | |- context [pool_map (fun point =>
                      iapPointConstraint _ _ ?c ?l ?h ?go ?fi ?ei ?r ?t ?ty) ?ps ;;;
                    calculateApIapRef ?q ?n] =>
          destruct (area_run fuel ps c l h go fi ei r t ty q n g)
            as (Empty & Raises & _)
      end.
      split.
      * intros H. right.
        destruct (interf.GridPolygon (ppa_zone entity) 2) as [|point rest] eqn:P.
        -- rewrite Empty in H by reflexivity. injection H as <-.
           repeat split. exists first, others. split; [reflexivity|].
           apply Exists_exists. exists record.
           split; [apply in_or_app; right; now left | exact Match].
        -- exfalso.
           exact (Raises ltac:(discriminate) (num_sas_positive ths) e H).
      * intros [(_ & [=] & _)|(-> & P & _)]. now apply Empty.
Qed.

End AreaRuns.

Local Open Scope string_scope.

Lemma performIapForPpa_first_match_witness :
  performIapForPpa (model := test_model) 1 test_ppa_matched
    [test_grant (-99) true] []
    ([{| palId := "pal/1";
         primaryAssignment :=
           {| lowFrequency := 3550e6; highFrequency := 3560e6 |} |}] ++
     {| palId := "pal/2";
        primaryAssignment :=
          {| lowFrequency := 3600e6; highFrequency := 3605e6 |} |} ::
     [{| palId := "pal/2";
         primaryAssignment :=
           {| lowFrequency := 3650e6; highFrequency := 3660e6 |} |}])
    test_used_stores =
  performIapForPpa (model := test_model) 1 test_ppa_matched
    [test_grant (-99) true] []
    [{| palId := "pal/2";
        primaryAssignment :=
          {| lowFrequency := 3600e6; highFrequency := 3605e6 |} |}]
    test_used_stores.
Proof.
  apply (performIapForPpa_first_match (model := test_model) 1 test_ppa_matched
           [test_grant (-99) true] [] "pal/2" []
           [{| palId := "pal/1";
               primaryAssignment :=
                 {| lowFrequency := 3550e6; highFrequency := 3560e6 |} |}]).
  - reflexivity.
  - repeat constructor. discriminate.
  - reflexivity.
Defined.

Lemma performIapForPpa_exceptions_witness :
  performIapForPpa (model := test_model) 1 test_ppa_no_grid
    [test_grant (-99) true] [] test_pal_records test_used_stores =
  Raise ValueError <->
  (ValueError = IndexError /\ ppa_palId test_ppa_no_grid = [] /\
   test_pal_records <> []) \/
  (ValueError = ValueError /\
   interf.GridPolygon (Model := test_model) (ppa_zone test_ppa_no_grid) 2 = [] /\
   exists first others,
     ppa_palId test_ppa_no_grid = first :: others /\
     Exists (fun pal_record => palId pal_record = first) test_pal_records).
Proof.
  apply (performIapForPpa_exceptions (model := test_model) 1 test_ppa_no_grid
           [test_grant (-99) true] [] test_pal_records test_used_stores
           ValueError); reflexivity.
Defined.

Lemma performIapForGwpz_outcome_witness :
  performIapForGwpz (model := test_model) 1 test_gwpz_no_feature
    [test_grant (-99) true] [] test_used_stores = Raise IndexError /\
  performIapForGwpz (model := test_model) 1 test_gwpz_no_grid
    [test_grant (-99) true] [] test_used_stores = Raise ValueError /\
  exists ap_iap_ref g',
    performIapForGwpz (model := test_model) (workers := reverse_order) 1
      test_gwpz_row [test_grant (-99) true] [] test_used_stores =
      Ok (ap_iap_ref, g') /\
    ap_iap_ref <> [] /\
    keysAmong [(0, 0); (0, 1)] ap_iap_ref.
Proof.
  destruct (performIapForGwpz_outcome (model := test_model) 1
              test_gwpz_no_feature [test_grant (-99) true] [] test_used_stores)
    as (NoFeature & _).
  destruct (performIapForGwpz_outcome (model := test_model) 1
              test_gwpz_no_grid [test_grant (-99) true] [] test_used_stores)
    as (_ & NoGrid & _).
  destruct (performIapForGwpz_outcome (model := test_model)
              (workers := reverse_order) 1 test_gwpz_row
              [test_grant (-99) true] [] test_used_stores)
    as (_ & _ & _ & Keys).
  split; [apply NoFeature; reflexivity|].
  split; [apply NoGrid; [discriminate | reflexivity]|].
  do 2 eexists. split; [vm_compute; reflexivity|].
  split; [discriminate|]. eapply Keys. vm_compute. reflexivity.
Defined.


Lemma performIapForFssBlocking_result_witness :
  fssBlockingExempt (model := test_model) 3650e6 4200e6 false = false /\
  exists totals,
    List.length totals = 1%nat /\
    Forall2
      (channelTotals (model := test_model) 1 (0, 0) 3550e6 3650e6
         [test_grant (-99) true] (Some (fssProtectionPoint test_installation))
         None None (iap_margin_fss_blocking (model := test_model))
         interf.FSS_BLOCKING)
      (writtenChannels (model := test_model) (0, 0) [(3550e6, 3650e6)]
         3550e6 3650e6 [test_grant (-99) true] interf.FSS_BLOCKING)
      totals /\
    performIapForFssBlocking (model := test_model) 1 test_fss_blocking
      [test_grant (-99) true] [] test_used_stores =
      Ok (pointMap (0, 0)
            (map (allowedInterference
                    (iap_margin_fss_blocking (model := test_model)) 1) totals),
          {| asas_interference := pointMap (0, 0) (map fst totals);
             aggregate_interference := pointMap (0, 0) (map snd totals) |}).
Proof.
  split; [reflexivity|].
  assert (Run :
    performIapForFssBlocking (model := test_model) 1 test_fss_blocking
      [test_grant (-99) true] [] test_used_stores = OutOfFuel \/
    exists totals,
      (List.length totals <= 1)%nat /\
      Forall2
        (channelTotals (model := test_model) 1 (0, 0) 3550e6 3650e6
           [test_grant (-99) true] (Some (fssProtectionPoint test_installation))
           None None (iap_margin_fss_blocking (model := test_model))
           interf.FSS_BLOCKING)
        (writtenChannels (model := test_model) (0, 0) [(3550e6, 3650e6)]
           3550e6 3650e6 [test_grant (-99) true] interf.FSS_BLOCKING)
        totals /\
      performIapForFssBlocking (model := test_model) 1 test_fss_blocking
        [test_grant (-99) true] [] test_used_stores =
        Ok (pointMap (0, 0)
              (map (allowedInterference
                      (iap_margin_fss_blocking (model := test_model)) 1) totals),
            {| asas_interference := pointMap (0, 0) (map fst totals);
               aggregate_interference := pointMap (0, 0) (map snd totals) |})).
  { apply (performIapForFssBlocking_result (model := test_model) 1
             test_fss_blocking [test_grant (-99) true] [] test_used_stores).
    reflexivity. }
  destruct Run as [E|(totals & Len & F & E)]; [vm_compute in E; discriminate|].
  exists totals. split; [|split; [exact F | exact E]].
  destruct totals as [|total [|total' rest]];
    [vm_compute in E; discriminate | reflexivity | simpl in Len; lia].
Defined.

Local Close Scope string_scope.

(** ** A SAS without peers *)

Section LoneSas.
Context {model : interf.Model}.

Lemma channelTotals_managed fuel protection_point low_freq high_freq grant_objects
  fss_info esc_antenna_info region_type threshold protection_ent_type written :
  (forall grants point entity_type,
     incl (interf.findGrantsInsideNeighborhood grants point entity_type) grants) ->
  (forall grants constraint,
     incl (interf.findOverlappingGrants grants constraint) grants) ->
  (forall grant, In grant grant_objects -> interf.is_managed_grant grant = true) ->
  forall totals,
    Forall2
      (channelTotals fuel protection_point low_freq high_freq grant_objects
         fss_info esc_antenna_info region_type threshold protection_ent_type)
      written totals ->
    Forall (fun t : Q * Q => fst t == snd t) totals.
Proof.
  intros Inside Overlapping Managed totals F.
  induction F as [|channel t written totals T F IH]; constructor; [|exact IH].
  destruct T as (a & Run & ->). simpl.
  apply convergenceLoop_managed in Run; [exact Run|].
  intros grant In. apply Managed. unfold neighborhoodGrants in In.
  apply Overlapping, Inside in In. exact In.
Qed.

(** A SAS without peers that manages every grant is allowed the whole
    threshold: when the collaborators find the grants of a neighbourhood
    and of a channel among those they are given, and every grant handed to
    [iapPointConstraint] is managed by this SAS, every value that
    [calculateApIapRef] returns for one SAS, after the reset and the calls,
    is the threshold [q_p]. *)
Theorem lone_sas_is_allowed_the_threshold fuel invocations q_p g ap_iap_ref g'
  lat lon index value :
  (forall grants point entity_type,
     incl (interf.findGrantsInsideNeighborhood grants point entity_type) grants) ->
  (forall grants constraint,
     incl (interf.findOverlappingGrants grants constraint) grants) ->
  (forall i grant, In i invocations -> In grant (inv_grant_objects i) ->
     interf.is_managed_grant grant = true) ->
  (resetStores ;;; forM (invoke fuel) invocations ;;; calculateApIapRef q_p 1) g =
    Ok (ap_iap_ref, g') ->
  lookup3 ap_iap_ref lat lon index = Ok value ->
  value == q_p.
Proof.
  intros Inside Overlapping Managed H L.
  apply bind_inv in H as ([] & g0 & R & H).
  apply bind_inv in H as (u & g1 & F & C).
  unfold resetStores, bind in R. simpl in R. injection R as <-.
  assert (Inv : (store_wf (asas_interference g1) = true /\
                 store_wf (aggregate_interference g1) = true) /\
                related Qeq g1).
  { apply (forM_invariant_In
             (fun g => (store_wf (asas_interference g) = true /\
                        store_wf (aggregate_interference g) = true) /\
                       related Qeq g)
             (invoke fuel) invocations) with (2 := F).
    - intros i g2 u2 g3 In Run [W Rel]. unfold invoke in Run. split.
      + exact (iapPointConstraint_store_wf _ _ _ _ _ _ _ _ _ _ _ _ _ _ Run W).
      + apply iapPointConstraint_effect in Run as (totals & T & A1 & A2).
        apply (related_appended _ (inv_protection_point i) totals g2 g3); auto.
        * exact (channelTotals_managed _ _ _ _ _ _ _ _ _ _ _ Inside Overlapping
                   (fun grant => Managed i grant In) _ T).
        * rewrite A1. apply writeAll_appendedAt.
        * rewrite A2. apply writeAll_appendedAt.
    - split; [split; reflexivity | apply related_reset]. }
  destruct Inv as [[_ W] Rel].
  apply lookup3_get2 in L as (vals & G & N).
  destruct (calculateApIapRef_entry _ _ _ _ _ _ _ _ W C G)
    as (a_p_list & GA & [Len Vals] & _).
  assert (I : (index < List.length a_p_list)%nat).
  { rewrite <- Len. apply nth_error_Some. congruence. }
  destruct (nth_error a_p_list index) as [a_p|] eqn:NA;
    [|apply nth_error_None in NA; lia].
  destruct (Vals index a_p NA) as (asas_p & LS & NV).
  assert (E : asas_p == a_p).
  { apply (related_lookups Qeq g1 lat lon index); [exact Rel | exact LS|].
    apply lookup3_get2. eauto. }
  replace value with ((q_p - a_p) / inject_Z 1 + asas_p) by congruence.
  rewrite E. change (inject_Z 1) with 1. field.
Qed.

End LoneSas.

Lemma lone_sas_is_allowed_the_threshold_witness :
  100 # 1 == 100.
Proof.
  apply (lone_sas_is_allowed_the_threshold (model := test_model) 10
           [ {| inv_protection_point := (0, 0);
                inv_channels := [(3600e6, 3605e6)];
                inv_low_freq := 3600e6;
                inv_high_freq := 3605e6;
                inv_grant_objects := [test_grant 3 true];
                inv_fss_info := None;
                inv_esc_antenna_info := None;
                inv_region_type := None;
                inv_threshold := 10;
                inv_protection_ent_type := interf.GWPZ_AREA |} ]
           100 test_used_stores [(0, [(0, [100 # 1])])]
           {| asas_interference := [(0, [(0, [4])])];
              aggregate_interference := [(0, [(0, [4])])] |}
           0 0 0%nat (100 # 1)).
  - intros grants point entity_type. apply incl_filter.
  - intros grants constraint. apply incl_filter.
  - intros i grant [<-|[]] [<-|[]]. reflexivity.
  - vm_compute. reflexivity.
  - reflexivity.
Defined.

(** ** The quota of a sensor from channel to channel *)

Section RollOffOrder.
Context {model : interf.Model}.

(** With 1 MHz of 1e6 Hz, channel 21 centred on 3652.5 MHz and a
    conversion from dB that increases, the quota of a sensor decreases from
    each channel of the 5 MHz raster at or above 3650 MHz to every higher
    one, and is below the threshold on all of them, the threshold being the
    quota of the channels below 3650 MHz. *)
Theorem interferenceQuota_esc_decreases channel1 channel2 (k1 k2 : nat) threshold :
  interf.MHZ == 1e6 ->
  interf.ESC_CH21_CF_HZ == 3652.5e6 ->
  (forall x y, x < y -> interf.dbToLinear x < interf.dbToLinear y) ->
  interf.dbToLinear (interf.linearToDb threshold) == threshold ->
  fst channel1 == 3550e6 + inject_Z (Z.of_nat k1) * 5e6 ->
  snd channel1 == fst channel1 + 5e6 ->
  fst channel2 == 3550e6 + inject_Z (Z.of_nat k2) * 5e6 ->
  snd channel2 == fst channel2 + 5e6 ->
  (k1 < k2)%nat ->
  ((20 <= k1)%nat ->
   interferenceQuota interf.ESC channel2 threshold <
   interferenceQuota interf.ESC channel1 threshold /\
   interferenceQuota interf.ESC channel1 threshold < threshold) /\
  ((k1 < 20)%nat -> interferenceQuota interf.ESC channel1 threshold = threshold).
Proof.
  intros Mhz Cf Mono Inverse Low1 High1 Low2 High2 Lt.
  assert (K : inject_Z (Z.of_nat k1) + 1 <= inject_Z (Z.of_nat k2)).
  { change 1 with (inject_Z 1). rewrite <- inject_Z_plus, <- Zle_Qle. lia. }
  split.
  - intros Above.
    assert (K1 : 20 <= inject_Z (Z.of_nat k1))
      by (change 20 with (inject_Z 20); rewrite <- Zle_Qle; lia).
    assert (E1 : 3650e6 <= fst channel1) by (rewrite Low1; literals; lra).
    assert (E2 : 3650e6 <= fst channel2) by (rewrite Low2; literals; lra).
    apply Qle_bool_iff in E1, E2. unfold interferenceQuota. rewrite E1, E2.
    assert (R1 : 2.5 + ((fst channel1 + snd channel1) / 2 -
                        interf.ESC_CH21_CF_HZ) / interf.MHZ ==
                 5 * inject_Z (Z.of_nat k1) - 97.5).
    { rewrite High1, Low1, Cf, Mhz. literals. field. }
    assert (R2 : 2.5 + ((fst channel2 + snd channel2) / 2 -
                        interf.ESC_CH21_CF_HZ) / interf.MHZ ==
                 5 * inject_Z (Z.of_nat k2) - 97.5).
    { rewrite High2, Low2, Cf, Mhz. literals. field. }
    split.
    + apply Mono. rewrite R1, R2. literals. lra.
    + rewrite <- Inverse at 2. apply Mono. rewrite R1. literals. lra.
  - intros Below.
    assert (K1 : inject_Z (Z.of_nat k1) <= 19)
      by (change 19 with (inject_Z 19); rewrite <- Zle_Qle; lia).
    assert (E1 : fst channel1 < 3650e6) by (rewrite Low1; literals; lra).
    unfold interferenceQuota.
    destruct (Qle_bool 3650e6 (fst channel1)) eqn:E; [|reflexivity].
    apply Qle_bool_iff in E. lra.
Qed.

End RollOffOrder.

Lemma test_conversions_inverse : test_dbToLinear (test_linearToDb 10) == 10.
Proof.
  reflexivity.
Qed.

Lemma interferenceQuota_esc_decreases_witness :
  interferenceQuota (model := test_model) interf.ESC (3660e6, 3665e6) 10 <
  interferenceQuota (model := test_model) interf.ESC (3650e6, 3655e6) 10 /\
  interferenceQuota (model := test_model) interf.ESC (3650e6, 3655e6) 10 < 10.
Proof.
  destruct (interferenceQuota_esc_decreases (model := test_model)
              (3650e6, 3655e6) (3660e6, 3665e6) 20 22 10) as [Above _].
  - reflexivity.
  - reflexivity.
  - intros x y. apply test_dbToLinear_increasing.
  - exact test_conversions_inverse.
  - reflexivity.
  - reflexivity.
  - reflexivity.
  - reflexivity.
  - lia.
  - apply Above. lia.
Defined.
